(** * Fall-detection platform: the windowing and feature-extraction ETL

    A shallow embedding of [services/etl/make_windows.py] and
    [services/etl/load_raw.py], and the properties of the segmenter, the
    feature extractor, the label resolver, the orchestrator and the raw
    loader that the specification states about them.

    Conventions of the embedding.
    - A [pd.Timestamp] is a count of clock ticks, an integer; [NaT] is
      [None].  A [timedelta] is a number of ticks.  The bounds of the 64-bit
      representation are not modelled.
    - [window_iter] receives its lengths in seconds, as Python floats, and
      uses them only through [timedelta(seconds=...)], which rounds them to
      whole microseconds.  The loop is modelled twice: over the two
      resulting durations, in ticks, as its parameters
      ([MakeWindows.window_iter]), and as it is called, over binary64
      seconds, with the tick a microsecond ([Seconds.window_iter]).  The
      two agree wherever [timedelta] returns ([SegmenterFacts.list_of_ticks]).
    - Sensor readings are real numbers and the numpy reductions are computed
      in exact arithmetic.  [NaN] is kept where a reduction is undefined on
      reals (an empty mean, a division by a zero variance).  Where the
      rounding of binary64 decides what the program does (the standard
      deviation of a constant array), the reduction is also given on
      binary64 arrays ([Np64]).
    - A Python [dict] is an association list in insertion order.
    - A [while] loop whose length the code does not bound runs on fuel;
      running out of fuel is [None]. *)

From Stdlib Require Import ZArith List String Ascii Bool Arith Lia.
From Stdlib Require Import Reals Lra Sorted Permutation.
From Stdlib Require QArith PrimFloat FloatOps SpecFloat.
Import ListNotations.

Open Scope string_scope.
Open Scope list_scope.
Open Scope Z_scope.

(** ** Frames *)

Module Pd.

(** One row of [raw_sensor_data], as [fetch_raw_df] selects it. *)
Record Row : Type := mkRow {
  volunteer_id : Z;
  activity : option string;     (* None: a null, which pandas reads as NA *)
  timestamp : option Z;         (* None: NaT *)
  accel_x : R;
  accel_y : R;
  accel_z : R;
  gyro_x : R;
  gyro_y : R;
  gyro_z : R
}.

(** A frame over the columns of [raw_sensor_data].  The sensor, subject and
    time columns are always there (the record has them); the [activity]
    column may be missing, which is what [majority_label] asks about. *)
Record DataFrame : Type := mkDF {
  activity_column : bool;
  rows : list Row
}.

Definition columns (df : DataFrame) : list string :=
  "volunteer_id"
    :: (if activity_column df then ["activity"] else [])
    ++ ["timestamp"; "accel_x"; "accel_y"; "accel_z";
        "gyro_x"; "gyro_y"; "gyro_z"].

Definition len (df : DataFrame) : nat := List.length (rows df).

(** [df.empty]: the frame always has columns, so it is empty when it has no
    row. *)
Definition empty (df : DataFrame) : bool :=
  match rows df with [] => true | _ :: _ => false end.

(** [df[mask]]: the rows that satisfy the mask, in order, same columns. *)
Definition select (mask : Row -> bool) (df : DataFrame) : DataFrame :=
  mkDF (activity_column df) (filter mask (rows df)).

(** [Series.min()] and [Series.max()] on timestamps skip NaT and give NaT
    on a series without a valid entry. *)
Fixpoint ts_min (ts : list (option Z)) : option Z :=
  match ts with
  | [] => None
  | None :: ts' => ts_min ts'
  | Some a :: ts' =>
      match ts_min ts' with
      | None => Some a
      | Some b => Some (Z.min a b)
      end
  end.

Fixpoint ts_max (ts : list (option Z)) : option Z :=
  match ts with
  | [] => None
  | None :: ts' => ts_max ts'
  | Some a :: ts' =>
      match ts_max ts' with
      | None => Some a
      | Some b => Some (Z.max a b)
      end
  end.

(** Comparisons of a timestamp column entry with a valid instant; a
    comparison with NaT is false. *)
Definition ts_ge (t : option Z) (a : Z) : bool :=
  match t with Some x => a <=? x | None => false end.

Definition ts_lt (t : option Z) (b : Z) : bool :=
  match t with Some x => x <? b | None => false end.

End Pd.

Import Pd.

(** ** Results of calls that can raise *)

Inductive exn : Type :=
| ValueError   (* numpy: a reduction of a zero-size array, mismatched shapes;
                  datetime: a length that is not a number *)
| OverflowError   (* datetime: a length beyond what a timedelta holds *)
| KeyError     (* pandas: no column of that name *)
| DataError    (* psycopg2: the server rejects a value of a statement *)
| SystemExit (code : Z).

Inductive result (A : Type) : Type :=
| Ok (a : A)
| Raise (e : exn).

Arguments Ok {A} a.
Arguments Raise {A} e.

Definition bind {A B : Type} (m : result A) (k : A -> result B) : result B :=
  match m with
  | Ok a => k a
  | Raise e => Raise e
  end.

Notation "x <- m ;; k" := (bind m (fun x => k))
  (at level 61, m at next level, right associativity).

(** ** Python floats

    A Python [float] is a binary64 number; its arithmetic is that of the
    primitive floats. *)

Module Float64.

Import PrimFloat FloatOps SpecFloat.

(** The integral part of a finite float, toward zero. *)
Definition trunc (x : float) : Z :=
  match Prim2SF x with
  | S754_finite s m e =>
      let v := if 0 <=? e then Z.pos m * 2 ^ e else Z.pos m / 2 ^ (- e) in
      if s then - v else v
  | _ => 0
  end.

(** The float of an integer below [2 ^ 53] in magnitude, which is exact. *)
Definition of_Z (z : Z) : float :=
  if z <? 0 then (- of_uint63 (Uint63Axioms.of_Z (- z)))%float
  else of_uint63 (Uint63Axioms.of_Z z).

(** C's [modf] on a finite float: its fractional and its integral part,
    both exact.  From [2 ^ 52] on a float has no fractional part. *)
Definition modf (x : float) : float * Z :=
  if (abs x <? 0x1p+52)%float then ((x - of_Z (trunc x))%float, trunc x)
  else (0%float, trunc x).

(** C's [round] on a float below [2 ^ 52] in magnitude: the nearest
    integer, halfway cases away from zero. *)
Definition round (x : float) : Z :=
  let (f, i) := modf x in
  if (0.5 <=? f)%float then i + 1
  else if (f <=? -0.5)%float then i - 1
  else i.

(** The number that a finite float stands for, as a rational. *)
Definition value (x : float) : QArith_base.Q :=
  match Prim2SF x with
  | S754_finite s m e =>
      let v := QArith_base.Qmult (QArith_base.inject_Z (Z.pos m))
                 (QArith_base.Qpower (QArith_base.inject_Z 2) e) in
      if s then QArith_base.Qopp v else v
  | _ => QArith_base.inject_Z 0
  end.

End Float64.

(** ** [datetime.timedelta] *)

Module Datetime.

Import PrimFloat Float64.

Definition us_per_second : Z := 1000000.

Definition us_per_day : Z := 86400 * us_per_second.

Definition MAX_DELTA_DAYS : Z := 999999999.

(** [timedelta(seconds=seconds)] for a float, as a number of microseconds.
    The whole seconds are counted exactly; the fraction is multiplied by
    [1e6] in binary64 and what is left below one microsecond is rounded to
    the nearest microsecond, halfway cases to the even one.  A length that
    is not a number raises ValueError, an infinite one and one of more
    than 999999999 days OverflowError. *)
Definition timedelta (seconds : float) : result Z :=
  if is_nan seconds then Raise ValueError
  else if is_infinity seconds then Raise OverflowError
  else
    let (fracpart, intpart) := modf seconds in
    let sum := intpart * us_per_second in
    let (x, leftover_us) :=
      if (fracpart =? 0)%float then (sum, 0%float)
      else
        let dnum := (of_Z us_per_second * fracpart)%float in
        let (fracpart, intpart) := modf dnum in
        (sum + intpart, fracpart) in
    let x :=
      if (leftover_us =? 0)%float then x
      else
        let whole_us := round leftover_us in
        let whole_us :=
          if (abs (of_Z whole_us - leftover_us) =? 0.5)%float then
            let x_is_odd := if Z.odd x then 1 else 0 in
            2 * round ((leftover_us + of_Z x_is_odd) * 0.5)%float - x_is_odd
          else whole_us in
        x + whole_us in
    let days := x / us_per_day in
    if (days <? - MAX_DELTA_DAYS) || (MAX_DELTA_DAYS <? days)
    then Raise OverflowError
    else Ok x.

End Datetime.

(** ** numpy on one-dimensional arrays of reals *)

Module Np.

Local Open Scope R_scope.

(** A Python float that came out of a reduction: a real, or [nan]. *)
Inductive npfloat : Type :=
| Fin (r : R)
| NaN.

Definition size (a : list R) : nat := List.length a.

Fixpoint sum (a : list R) : R :=
  match a with
  | [] => 0
  | x :: a' => x + sum a'
  end.

Definition mean_of (a : list R) : R := sum a / INR (size a).

(** [np.mean(a)]: [nan] on an empty array. *)
Definition mean (a : list R) : npfloat :=
  match a with
  | [] => NaN
  | _ :: _ => Fin (mean_of a)
  end.

(** Sum of the squared deviations from the mean. *)
Definition sq_dev (a : list R) : R :=
  sum (map (fun x => (x - mean_of a) ^ 2) a).

(** [np.std(a, ddof=ddof)], for [ddof] 0 or 1 as the program uses it: the
    divisor is [size a - ddof], and the result is [nan] when that is not
    positive (0/0). *)
Definition std (a : list R) (ddof : nat) : npfloat :=
  if (size a <=? ddof)%nat then NaN
  else Fin (sqrt (sq_dev a / INR (size a - ddof))).

(** [x > 0] on a float; every comparison with [nan] is false. *)
Definition gt0 (x : npfloat) : bool :=
  match x with
  | Fin r => if Rlt_dec 0 r then true else false
  | NaN => false
  end.

Definition min_of (a : list R) : R :=
  match a with
  | [] => 0
  | x :: a' => fold_left Rmin a' x
  end.

Definition max_of (a : list R) : R :=
  match a with
  | [] => 0
  | x :: a' => fold_left Rmax a' x
  end.

(** [np.min(a)] and [np.max(a)] raise ValueError on a zero-size array. *)
Definition min (a : list R) : result R :=
  match a with
  | [] => Raise ValueError
  | _ :: _ => Ok (min_of a)
  end.

Definition max (a : list R) : result R :=
  match a with
  | [] => Raise ValueError
  | _ :: _ => Ok (max_of a)
  end.

Fixpoint insert_sorted (x : R) (l : list R) : list R :=
  match l with
  | [] => [x]
  | y :: l' => if Rle_dec x y then x :: l else y :: insert_sorted x l'
  end.

Definition sort (a : list R) : list R := fold_right insert_sorted [] a.

(** [np.percentile(a, q)] for an integer [q] between 0 and 100, default
    (linear) method: the virtual index is [(n - 1) * q / 100]; the result
    interpolates between the two neighbours in the sorted array.
    [_stats_for] reaches it only after [np.min] succeeded, on a non-empty
    array. *)
Definition percentile (a : list R) (q : nat) : R :=
  let s := sort a in
  let pos := ((size a - 1) * q)%nat in
  let lo := (pos / 100)%nat in
  let x_lo := nth lo s 0 in
  let x_hi := nth (lo + 1) s x_lo in
  x_lo + (x_hi - x_lo) * (INR (pos mod 100) / 100).

(** Sum of the products of the deviations of two arrays. *)
Definition co_dev (a b : list R) : R :=
  sum (map (fun p => (fst p - mean_of a) * (snd p - mean_of b))
           (combine a b)).

Definition clip (lo hi x : R) : R := Rmax lo (Rmin hi x).

(** [np.corrcoef(a, b)[0, 1]]: the covariance (divisor [n - 1]) over the
    product of the two standard deviations, clipped to [[-1, 1]].  Two arrays
    of different sizes raise ValueError; a covariance matrix with a zero on
    its diagonal, or of a single observation, gives [nan]. *)
Definition corrcoef (a b : list R) : result npfloat :=
  if negb (size a =? size b)%nat then Raise ValueError
  else
    let n1 := INR (size a - 1) in
    let c_aa := sq_dev a / n1 in
    let c_bb := sq_dev b / n1 in
    let c_ab := co_dev a b / n1 in
    if (size a <=? 1)%nat then Ok NaN
    else if Req_dec_T c_aa 0 then Ok NaN
    else if Req_dec_T c_bb 0 then Ok NaN
    else Ok (Fin (clip (-1) 1 (c_ab / sqrt c_aa / sqrt c_bb))).

End Np.

(** ** numpy on one-dimensional arrays of binary64 numbers

    The reductions behind [np.mean] and [np.std] with the rounding of every
    operation.  numpy adds an array of fewer than 8 elements from left to
    right, starting from 0; it adds a longer one in blocks, which is not
    modelled here: on 8 elements or more the reductions are [None]. *)

Module Np64.

Import PrimFloat Float64.

Definition size (a : list float) : nat := List.length a.

Definition of_nat (n : nat) : float := of_Z (Z.of_nat n).

(** [np.add.reduce(a)] *)
Definition sum (a : list float) : option float :=
  if (size a <? 8)%nat then Some (fold_left add a 0%float) else None.

(** [np.mean(a)]: the sum over the size. *)
Definition mean (a : list float) : option float :=
  match sum a with
  | Some s => Some (s / of_nat (size a))%float
  | None => None
  end.

(** [np.std(a, ddof=ddof)]: the mean, the deviations from it, their
    squares, the sum of these over [size a - ddof] (which numpy keeps from
    going below 0), and the square root of that. *)
Definition std (a : list float) (ddof : nat) : option float :=
  match mean a with
  | Some arrmean =>
      let x := map (fun v => (v - arrmean)%float) a in
      let x := map (fun v => (v * v)%float) x in
      match sum x with
      | Some ret => Some (sqrt (ret / of_nat (size a - ddof)))%float
      | None => None
      end
  | None => None
  end.

(** [x > 0] *)
Definition gt0 (x : float) : bool := (0 <? x)%float.

End Np64.

(** ** Python dictionaries with string keys *)

Module Dict.

Definition dict (V : Type) : Type := list (string * V).

(** [d[k] = v]: replaces the value of an existing key in place, appends a
    new key. *)
Fixpoint set {V : Type} (d : dict V) (k : string) (v : V) : dict V :=
  match d with
  | [] => [(k, v)]
  | (k', v') :: d' =>
      if String.eqb k' k then (k', v) :: d' else (k', v') :: set d' k v
  end.

Fixpoint get {V : Type} (d : dict V) (k : string) : option V :=
  match d with
  | [] => None
  | (k', v') :: d' => if String.eqb k' k then Some v' else get d' k
  end.

Definition keys {V : Type} (d : dict V) : list string := map fst d.

(** [not d] *)
Definition is_empty {V : Type} (d : dict V) : bool :=
  match d with [] => true | _ :: _ => false end.

End Dict.

(** ** services/etl/make_windows.py *)

Module MakeWindows.

Import Np.

(** *** The segmenter *)

(** What the generator yields: [(t_start, t_end, chunk)]. *)
Record Window : Type := mkWindow {
  t_start : Z;
  t_end : Z;
  chunk : DataFrame
}.

(** The generator object of [window_iter]: suspended at the head of the
    [while] loop with the loop's variables, or finished. *)
Inductive generator : Type :=
| Running (df_v : DataFrame) (win stride t_max t_start : Z)
| Finished.

(** [window_iter(df_v, win_s, stride_s)], with [win] and [stride] the
    durations [timedelta(seconds=win_s)] and [timedelta(seconds=stride_s)]:
    the code before the loop. *)
Definition window_iter (df_v : DataFrame) (win stride : Z) : generator :=
  if empty df_v then Finished
  else
    match ts_min (map timestamp (rows df_v)),
          ts_max (map timestamp (rows df_v)) with
    | Some t_min, Some t_max => Running df_v win stride t_max t_min
    | _, _ => (* NaT + timedelta <= NaT is false *) Finished
    end.

(** [next(g)]: one turn of the loop.  [None] is StopIteration. *)
Definition next (g : generator) : option (Window * generator) :=
  match g with
  | Finished => None
  | Running df_v win stride t_max t_start =>
      if t_start + win <=? t_max then
        let t_end := t_start + win in
        let chunk :=
          select (fun r => ts_ge (timestamp r) t_start
                           && ts_lt (timestamp r) t_end) df_v in
        Some (mkWindow t_start t_end chunk,
              Running df_v win stride t_max (t_start + stride))
      else None
  end.

(** [list(g)]: everything the generator yields, if it stops within [fuel]
    turns. *)
Fixpoint list_of (fuel : nat) (g : generator) : option (list Window) :=
  match fuel with
  | O => None
  | S fuel' =>
      match next g with
      | None => Some []
      | Some (w, g') =>
          match list_of fuel' g' with
          | None => None
          | Some rest => Some (w :: rest)
          end
      end
  end.

(** Consecutive elements of a list are related by [P]. *)
Fixpoint consecutive {A : Type} (P : A -> A -> Prop) (l : list A) : Prop :=
  match l with
  | [] => True
  | x :: l' =>
      match l' with
      | [] => True
      | y :: _ => P x y /\ consecutive P l'
      end
  end.

(** *** The feature extractor *)

Definition features : Type := Dict.dict npfloat.

Definition _stats_for (name : string) (arr : list R) (out : features)
    : result features :=
  let out := Dict.set out (name ++ "_mean")%string (mean arr) in
  let out := Dict.set out (name ++ "_std")%string
               (if (1 <? size arr)%nat then std arr 1 else Fin 0) in
  lo <- Np.min arr ;;
  let out := Dict.set out (name ++ "_min")%string (Fin lo) in
  hi <- Np.max arr ;;
  let out := Dict.set out (name ++ "_max")%string (Fin hi) in
  let out := Dict.set out (name ++ "_p25")%string (Fin (percentile arr 25)) in
  let out := Dict.set out (name ++ "_p50")%string (Fin (percentile arr 50)) in
  let out := Dict.set out (name ++ "_p75")%string (Fin (percentile arr 75)) in
  let out := Dict.set out (name ++ "_energy")%string
               (mean (map (fun x => (x ^ 2)%R) arr)) in
  Ok out.

Definition _safe_corr (a b : list R) : result npfloat :=
  if (2 <? size a)%nat && (2 <? size b)%nat
     && gt0 (std a 0) && gt0 (std b 0)
  then corrcoef a b
  else Ok (Fin 0%R).

(** [chunk[name].to_numpy(float)] *)
Definition to_numpy (field : Row -> R) (chunk : DataFrame) : list R :=
  map field (rows chunk).

(** The loop [for name, arr in series.items(): _stats_for(name, arr, out)]. *)
Fixpoint stats_for_all (series : list (string * list R)) (out : features)
    : result features :=
  match series with
  | [] => Ok out
  | (name, arr) :: series' =>
      out' <- _stats_for name arr out ;;
      stats_for_all series' out'
  end.

Definition featureize (chunk : DataFrame) : result features :=
  if (len chunk <? 5)%nat then Ok []
  else
    let out : features := [] in
    let acc_mag :=
      map (fun r => sqrt (accel_x r ^ 2 + accel_y r ^ 2 + accel_z r ^ 2)%R)
          (rows chunk) in
    let gyro_mag :=
      map (fun r => sqrt (gyro_x r ^ 2 + gyro_y r ^ 2 + gyro_z r ^ 2)%R)
          (rows chunk) in
    let s_accel_x := to_numpy accel_x chunk in
    let s_accel_y := to_numpy accel_y chunk in
    let s_accel_z := to_numpy accel_z chunk in
    let series :=
      [ ("accel_x", s_accel_x);
        ("accel_y", s_accel_y);
        ("accel_z", s_accel_z);
        ("gyro_x", to_numpy gyro_x chunk);
        ("gyro_y", to_numpy gyro_y chunk);
        ("gyro_z", to_numpy gyro_z chunk);
        ("acc_mag", acc_mag);
        ("gyro_mag", gyro_mag) ] in
    out <- stats_for_all series out ;;
    c_xy <- _safe_corr s_accel_x s_accel_y ;;
    let out := Dict.set out "corr_accel_x_accel_y" c_xy in
    c_xz <- _safe_corr s_accel_x s_accel_z ;;
    let out := Dict.set out "corr_accel_x_accel_z" c_xz in
    c_yz <- _safe_corr s_accel_y s_accel_z ;;
    let out := Dict.set out "corr_accel_y_accel_z" c_yz in
    Ok out.

(** *** The label resolver *)

(** One more occurrence of [v] in a tally kept in order of first
    appearance. *)
Fixpoint tally_add (v : string) (t : list (string * nat))
    : list (string * nat) :=
  match t with
  | [] => [(v, 1%nat)]
  | (u, n) :: t' =>
      if String.eqb u v then (u, S n) :: t' else (u, n) :: tally_add v t'
  end.

(** Occurrences of each value of a column, nulls dropped. *)
Fixpoint tally (s : list (option string)) (t : list (string * nat))
    : list (string * nat) :=
  match s with
  | [] => t
  | None :: s' => tally s' t
  | Some v :: s' => tally s' (tally_add v t)
  end.

(** One more entry in a list kept by descending count: it goes before the
    entries that do not count more than it. *)
Fixpoint insert_desc (e : string * nat) (l : list (string * nat))
    : list (string * nat) :=
  match l with
  | [] => [e]
  | e' :: l' =>
      if (snd e' <=? snd e)%nat then e :: l else e' :: insert_desc e l'
  end.

(** [Series.value_counts()]: the counts of the non-null values, most
    frequent first.  The entries are inserted from the last value that
    appeared to the first, so that values with equal counts stay in order of
    first appearance, as pandas returns them. *)
Definition value_counts (s : list (option string)) : list (string * nat) :=
  fold_right insert_desc [] (tally s []).

(** The label of the first maximal count from [best] on. *)
Fixpoint argmax (best : string * nat) (l : list (string * nat)) : string :=
  match l with
  | [] => fst best
  | e :: l' =>
      if (snd best <? snd e)%nat then argmax e l' else argmax best l'
  end.

(** [counts.idxmax()]: the label of the first maximal count; the caller
    has excluded an empty [counts]. *)
Definition idxmax (counts : list (string * nat)) : option string :=
  match counts with
  | [] => None
  | e :: l => Some (argmax e l)
  end.

Definition majority_label (chunk : DataFrame) : option string :=
  if negb (existsb (String.eqb "activity") (columns chunk)) || empty chunk
  then None
  else
    let counts := value_counts (map activity (rows chunk)) in
    if Dict.is_empty counts then None else idxmax counts.

(** *** The orchestrator *)

(** A row of the [windows] table (the serial [window_id] left out). *)
Record WindowRow : Type := mkWindowRow {
  w_volunteer_id : Z;
  w_t_start : Z;
  w_t_end : Z;
  w_label : option string;
  w_features : features
}.

(** What [main] prints. *)
Inductive Line : Type :=
| WARN_raw_empty
| OK_created (total : nat).

(** What [main] does, in order: the statements it sends to the database,
    the lines it prints, and the calls the loop body makes for a window. *)
Inductive Event : Type :=
| CreateTableIfNotExists
| SelectRaw
| Featureize (vid : Z) (w : Window)
| MajorityLabel (vid : Z) (w : Window)
| InsertWindow (vid : Z) (w : Window) (row : WindowRow)
| Commit
| Printed (l : Line).

Record World : Type := mkWorld {
  raw_sensor_data : list Row;
  windows_table : option (list WindowRow);   (* None: no such table yet *)
  stdout : list Line;
  history : list Event
}.

(** The durations [timedelta(seconds=WINDOW_SECONDS)] and
    [timedelta(seconds=STRIDE_SECONDS)]. *)
Record Config : Type := mkConfig {
  WINDOW : Z;
  STRIDE : Z
}.

(** A Python value that a function of this program can hand back. *)
Inductive pyvalue : Type :=
| PyNone
| PyInt (n : Z).

Definition log (e : Event) (w : World) : World :=
  mkWorld (raw_sensor_data w) (windows_table w) (stdout w) (history w ++ [e]).

Definition print (l : Line) (w : World) : World :=
  log (Printed l)
      (mkWorld (raw_sensor_data w) (windows_table w) (stdout w ++ [l])
               (history w)).

(** [CREATE TABLE IF NOT EXISTS windows], committed. *)
Definition ensure_windows_table (w : World) : World :=
  let tbl := match windows_table w with
             | None => Some []
             | Some t => Some t
             end in
  log Commit
      (log CreateTableIfNotExists
           (mkWorld (raw_sensor_data w) tbl (stdout w) (history w))).

(** Stable insertion sort with a boolean order. *)
Fixpoint insert_by {A : Type} (le : A -> A -> bool) (x : A) (l : list A)
    : list A :=
  match l with
  | [] => [x]
  | y :: l' => if le x y then x :: l else y :: insert_by le x l'
  end.

Definition sort_by {A : Type} (le : A -> A -> bool) (l : list A) : list A :=
  fold_right (insert_by le) [] l.

(** Ascending timestamps, NaT (and SQL NULL) last. *)
Definition ts_le (a b : option Z) : bool :=
  match a, b with
  | Some x, Some y => x <=? y
  | Some _, None => true
  | None, Some _ => false
  | None, None => true
  end.

(** [ORDER BY volunteer_id, timestamp] *)
Definition raw_order (r1 r2 : Row) : bool :=
  (volunteer_id r1 <? volunteer_id r2)
  || ((volunteer_id r1 =? volunteer_id r2)
      && ts_le (timestamp r1) (timestamp r2)).

Definition fetch_raw_df (w : World) : DataFrame * World :=
  (mkDF true (sort_by raw_order (raw_sensor_data w)), log SelectRaw w).

(** [df_v.sort_values("timestamp")]; ties keep their order here, which
    pandas' default sort does not promise. *)
Definition sort_values (df : DataFrame) : DataFrame :=
  mkDF (activity_column df)
       (sort_by (fun r1 r2 => ts_le (timestamp r1) (timestamp r2)) (rows df)).

(** The distinct group keys, ascending. *)
Fixpoint insert_key (k : Z) (ks : list Z) : list Z :=
  match ks with
  | [] => [k]
  | k' :: ks' =>
      if k <? k' then k :: ks
      else if k =? k' then ks
      else k' :: insert_key k ks'
  end.

(** [df.groupby("volunteer_id")]: one [(vid, df_v)] per distinct subject,
    by ascending [vid], each with its rows in their order in [df]. *)
Definition groupby (df : DataFrame) : list (Z * DataFrame) :=
  map (fun vid => (vid, select (fun r => volunteer_id r =? vid) df))
      (fold_right insert_key [] (map volunteer_id (rows df))).

(** The variables of the [with] block: the rows inserted through the cursor
    and not yet committed, the counter, and what has happened so far. *)
Record Cursor : Type := mkCursor {
  pending : list WindowRow;
  total : nat;
  events : list Event
}.

(** The body of the inner [for] loop, for one yielded window. *)
Definition body (vid : Z) (w : Window) (cur : Cursor) : result Cursor :=
  let cur := mkCursor (pending cur) (total cur)
                      (events cur ++ [Featureize vid w]) in
  feats <- featureize (chunk w) ;;
  if Dict.is_empty feats then Ok cur   (* continue *)
  else
    let cur := mkCursor (pending cur) (total cur)
                        (events cur ++ [MajorityLabel vid w]) in
    let label := majority_label (chunk w) in
    let row := mkWindowRow vid (t_start w) (t_end w) label feats in
    Ok (mkCursor (pending cur ++ [row]) (S (total cur))
                 (events cur ++ [InsertWindow vid w row])).

(** [for t_start, t_end, chunk in g: ...], pulling from the generator one
    window at a time. *)
Fixpoint for_windows (fuel : nat) (vid : Z) (g : generator) (cur : Cursor)
    : option (result Cursor) :=
  match fuel with
  | O => None
  | S fuel' =>
      match next g with
      | None => Some (Ok cur)
      | Some (w, g') =>
          match body vid w cur with
          | Raise e => Some (Raise e)
          | Ok cur' => for_windows fuel' vid g' cur'
          end
      end
  end.

(** [for vid, df_v in df.groupby("volunteer_id"): ...] *)
Fixpoint for_groups (fuel : nat) (cfg : Config) (groups : list (Z * DataFrame))
    (cur : Cursor) : option (result Cursor) :=
  match groups with
  | [] => Some (Ok cur)
  | (vid, df_v) :: groups' =>
      let df_v := sort_values df_v in
      match for_windows fuel vid
              (window_iter df_v (WINDOW cfg) (STRIDE cfg)) cur with
      | None => None
      | Some (Raise e) => Some (Raise e)
      | Some (Ok cur') => for_groups fuel cfg groups' cur'
      end
  end.

(** [conn.commit()]: the pending rows reach the table. *)
Definition commit (cur : Cursor) (w : World) : World :=
  let tbl := match windows_table w with
             | None => None
             | Some t => Some (t ++ pending cur)
             end in
  mkWorld (raw_sensor_data w) tbl (stdout w) (events cur ++ [Commit]).

(** [main()].  [None]: the loops did not end within [fuel] turns each.
    An exception inside the [with] block rolls the transaction back. *)
Definition main (fuel : nat) (cfg : Config) (w : World)
    : option (result pyvalue * World) :=
  let w := ensure_windows_table w in
  let (df, w) := fetch_raw_df w in
  if empty df then Some (Ok PyNone, print WARN_raw_empty w)
  else
    match for_groups fuel cfg (groupby df) (mkCursor [] 0 (history w)) with
    | None => None
    | Some (Raise e) => Some (Raise e, w)
    | Some (Ok cur) =>
        Some (Ok PyNone, print (OK_created (total cur)) (commit cur w))
    end.

(** The count that a run hands back or reports: an integer it returns, or
    else the total of the last summary line it printed. *)
Definition printed_total (out : list Line) : option nat :=
  fold_left (fun acc l => match l with
                          | OK_created n => Some n
                          | WARN_raw_empty => acc
                          end) out None.

Definition reported_total (ret : pyvalue) (out : list Line) : option Z :=
  match ret with
  | PyInt n => Some n
  | PyNone => option_map Z.of_nat (printed_total out)
  end.

End MakeWindows.

(** ** The segmenter as it is called

    [window_iter(df_v, win_s, stride_s)] with its lengths in seconds, each
    [timedelta(seconds=...)] evaluated where the code evaluates it.  The
    tick is a microsecond: the resolution of a [timedelta], and of the
    TIMESTAMP column that the frame is read from. *)

Module Seconds.

Import Datetime MakeWindows.

(** The generator object: created and not yet started, suspended at the
    [yield] with the variables of the loop, or closed. *)
Inductive generator : Type :=
| Created (df_v : DataFrame) (win_s stride_s : PrimFloat.float)
| Suspended (df_v : DataFrame) (win_s stride_s : PrimFloat.float)
            (t_max t_start : Z)
| Closed.

(** Calling the function only creates the generator. *)
Definition window_iter (df_v : DataFrame) (win_s stride_s : PrimFloat.float)
    : generator :=
  Created df_v win_s stride_s.

(** From the test of the [while] loop to the [yield].  A comparison with
    NaT is false. *)
Definition turn (df_v : DataFrame) (win_s stride_s : PrimFloat.float)
    (t_max t_start : option Z) : result (option (Window * generator)) :=
  win <- timedelta win_s ;;
  match t_start, t_max with
  | Some t_start, Some t_max =>
      if t_start + win <=? t_max then
        let t_end := t_start + win in
        let chunk :=
          select (fun r => ts_ge (timestamp r) t_start
                           && ts_lt (timestamp r) t_end) df_v in
        Ok (Some (mkWindow t_start t_end chunk,
                  Suspended df_v win_s stride_s t_max t_start))
      else Ok None
  | _, _ => Ok None
  end.

(** [next(g)].  [Ok None] is StopIteration. *)
Definition next (g : generator)
    : result (option (Window * generator)) :=
  match g with
  | Created df_v win_s stride_s =>
      if empty df_v then Ok None
      else
        turn df_v win_s stride_s
             (ts_max (map timestamp (rows df_v)))
             (ts_min (map timestamp (rows df_v)))
  | Suspended df_v win_s stride_s t_max t_start =>
      stride <- timedelta stride_s ;;
      turn df_v win_s stride_s (Some t_max) (Some (t_start + stride))
  | Closed => Ok None
  end.

(** [list(g)]: everything the generator yields, or the exception that
    ends it, if either comes within [fuel] turns. *)
Fixpoint list_of (fuel : nat) (g : generator) : option (result (list Window)) :=
  match fuel with
  | O => None
  | S fuel' =>
      match next g with
      | Raise e => Some (Raise e)
      | Ok None => Some (Ok [])
      | Ok (Some (w, g')) =>
          match list_of fuel' g' with
          | None => None
          | Some (Raise e) => Some (Raise e)
          | Some (Ok rest) => Some (Ok (w :: rest))
          end
      end
  end.

(** [list(itertools.islice(g, n))]: what the first [n] turns yield. *)
Fixpoint islice (n : nat) (g : generator) : result (list Window) :=
  match n with
  | O => Ok []
  | S n' =>
      match next g with
      | Raise e => Raise e
      | Ok None => Ok []
      | Ok (Some (w, g')) => rest <- islice n' g' ;; Ok (w :: rest)
      end
  end.

End Seconds.

(** ** The two uses of [np.std], in binary64

    What [_stats_for] stores as the standard deviation of a series and what
    the condition of [_safe_corr] decides, computed as numpy computes them
    on arrays of binary64 numbers. *)

Module MakeWindows64.

Import Np64.

(** [float(np.std(arr, ddof=1)) if arr.size > 1 else 0.0], the value of
    ["{name}_std"]. *)
Definition std_entry (arr : list PrimFloat.float) : option PrimFloat.float :=
  if (1 <? size arr)%nat then std arr 1 else Some PrimFloat.zero.

(** [a.size > 2 and b.size > 2 and np.std(a) > 0 and np.std(b) > 0]: when
    it holds [_safe_corr] returns what [np.corrcoef] computes, and 0.0
    otherwise. *)
Definition calls_corrcoef (a b : list PrimFloat.float) : option bool :=
  if (2 <? size a)%nat && (2 <? size b)%nat then
    match std a 0 with
    | Some sa =>
        if gt0 sa then
          match std b 0 with
          | Some sb => Some (gt0 sb)
          | None => None
          end
        else Some false
    | None => None
    end
  else Some false.

End MakeWindows64.


(** ** services/etl/load_raw.py *)

Module LoadRaw.

Definition REQUIRED_COLS : list string :=
  [ "volunteer_id"; "activity"; "timestamp";
    "accel_x"; "accel_y"; "accel_z";
    "gyro_x"; "gyro_y"; "gyro_z" ].

(** A cell of the frame read from the CSV file: the text of the field, or
    a timestamp once [pd.to_datetime] went over it ([None]: NaT). *)
Inductive Cell : Type :=
| Text (s : string)
| Datetime (t : option Z).

(** The frame [pd.read_csv] returns: the header and the records, each with
    one cell per column. *)
Record CsvFrame : Type := mkCsv {
  csv_columns : list string;
  csv_rows : list (list Cell)
}.

Inductive Line : Type :=
| ERROR_not_found (path : string)
| ERROR_missing (missing : list string)
| OK_inserted (n : nat) (path : string).

(** The statements sent to the database. *)
Inductive Statement : Type :=
| InsertRaw (tuples : list (list Cell))
| Commit
| Rollback.

Record World : Type := mkWorld {
  files : Dict.dict CsvFrame;             (* the CSV files, by path *)
  raw_sensor_data : list (list Cell);     (* the committed rows *)
  stdout : list Line;
  executed : list Statement
}.

Definition print (l : Line) (w : World) : World :=
  mkWorld (files w) (raw_sensor_data w) (stdout w ++ [l]) (executed w).

(** Position of a column label in the header. *)
Fixpoint index_of (c : string) (cols : list string) : option nat :=
  match cols with
  | [] => None
  | c' :: cols' =>
      if String.eqb c' c then Some O
      else option_map S (index_of c cols')
  end.

Fixpoint update_nth {A : Type} (n : nat) (f : A -> A) (l : list A) : list A :=
  match l, n with
  | [], _ => []
  | x :: l', O => f x :: l'
  | x :: l', S n' => x :: update_nth n' f l'
  end.

(** [df[cols]] followed by [itertuples(index=False, name=None)]: for each
    record the cells of the columns [cols], in that order. *)
Fixpoint positions (cols : list string) (header : list string)
    : result (list nat) :=
  match cols with
  | [] => Ok []
  | c :: cols' =>
      match index_of c header with
      | None => Raise KeyError
      | Some i => idx <- positions cols' header ;; Ok (i :: idx)
      end
  end.

Definition itertuples (df : CsvFrame) (cols : list string)
    : result (list (list Cell)) :=
  idx <- positions cols (csv_columns df) ;;
  Ok (map (fun record => map (fun i => nth i record (Text "")) idx)
          (csv_rows df)).

Section Load.

(** The parser behind [pd.to_datetime]; [None] where the text is not a
    date. *)
Variable parse_datetime : string -> option Z.

(** [pd.to_datetime(..., errors="coerce")] on one cell. *)
Definition to_datetime (c : Cell) : Cell :=
  match c with
  | Text s => Datetime (parse_datetime s)
  | Datetime t => Datetime t
  end.

(** [df["timestamp"] = pd.to_datetime(df["timestamp"], errors="coerce")] *)
Definition convert_timestamp (df : CsvFrame) : result CsvFrame :=
  match index_of "timestamp" (csv_columns df) with
  | None => Raise KeyError
  | Some i =>
      Ok (mkCsv (csv_columns df)
                (map (update_nth i to_datetime) (csv_rows df)))
  end.

(** A tuple that holds NaT.  psycopg2 sends NaT as the text [NaT], which
    the server does not take for a timestamp. *)
Definition has_NaT (tuple : list Cell) : bool :=
  existsb (fun c => match c with
                    | Datetime None => true
                    | _ => false
                    end) tuple.

(** [load_csv_to_raw(path_csv)].  The insert is rejected when a tuple holds
    NaT: the exception leaves the [with] block, which rolls the transaction
    back, and nothing is printed.  What else the server may reject depends
    on how [raw_sensor_data] was created, which this program does not say;
    and a file of which [pd.read_csv] makes no frame is not among
    [files]. *)
Definition load_csv_to_raw (path_csv : string) (w : World)
    : result unit * World :=
  match Dict.get (files w) path_csv with
  | None =>
      (Raise (SystemExit 1), print (ERROR_not_found path_csv) w)
  | Some df =>
      let missing :=
        filter (fun c => negb (existsb (String.eqb c) (csv_columns df)))
               REQUIRED_COLS in
      match missing with
      | _ :: _ => (Raise (SystemExit 1), print (ERROR_missing missing) w)
      | [] =>
          match df' <- convert_timestamp df ;; itertuples df' REQUIRED_COLS
          with
          | Raise e => (Raise e, w)
          | Ok tuples =>
              if existsb has_NaT tuples then
                (Raise DataError,
                 mkWorld (files w) (raw_sensor_data w) (stdout w)
                         (executed w ++ [InsertRaw tuples; Rollback]))
              else
                let w := mkWorld (files w)
                           (raw_sensor_data w ++ tuples) (stdout w)
                           (executed w ++ [InsertRaw tuples; Commit]) in
                (Ok tt, print (OK_inserted (List.length tuples) path_csv) w)
          end
      end
  end.

End Load.

End LoadRaw.

(** ** Sample data

    The scenario of the specification: subject 1, six samples half a second
    apart (ticks are milliseconds here), [accel_x] constantly 1 and every
    other channel 0; and a few stores and files around it. *)

Module Scenario.

Definition sample (t : Z) : Row :=
  mkRow 1 (Some "walking") (Some t) 1%R 0%R 0%R 0%R 0%R 0%R.

Definition series : DataFrame :=
  mkDF true (map sample [0; 500; 1000; 1500; 2000; 2500]).

(** The window [[0, 2500)] over the series: its first five samples. *)
Definition long_window : MakeWindows.Window :=
  MakeWindows.mkWindow 0 2500
    (mkDF true (map sample [0; 500; 1000; 1500; 2000])).

(** One sample whose activity is null, in a frame that has the column. *)
Definition unlabelled : DataFrame :=
  mkDF true [mkRow 1 None (Some 0) 1%R 0%R 0%R 0%R 0%R 0%R].

(** A store that holds the six samples and no [windows] table yet, and
    one that holds nothing at all. *)
Definition world : MakeWindows.World :=
  MakeWindows.mkWorld (rows series) None [] [].

Definition empty_world : MakeWindows.World :=
  MakeWindows.mkWorld [] None [] [].

(** Windows of two seconds, and of two and a half, every half second. *)
Definition short_windows : MakeWindows.Config :=
  MakeWindows.mkConfig 2000 500.

Definition long_windows : MakeWindows.Config :=
  MakeWindows.mkConfig 2500 500.

(** A CSV file without the [gyro_z] column, in a store with no raw row. *)
Definition short_csv : LoadRaw.CsvFrame :=
  LoadRaw.mkCsv
    [ "volunteer_id"; "activity"; "timestamp";
      "accel_x"; "accel_y"; "accel_z"; "gyro_x"; "gyro_y" ]
    [ [ LoadRaw.Text "1"; LoadRaw.Text "walking"; LoadRaw.Text "t0";
        LoadRaw.Text "1.0"; LoadRaw.Text "0.0"; LoadRaw.Text "0.0";
        LoadRaw.Text "0.0"; LoadRaw.Text "0.0" ] ].

Definition disk : LoadRaw.World :=
  LoadRaw.mkWorld [("short.csv", short_csv)] [] [] [].

End Scenario.

(** Lengths in seconds, and two series of subject 1 sampled once a second
    (ticks are microseconds here). *)

Module Clock.

Import PrimFloat.

Definition one_second : float := 1%float.


Definition half_a_second : float := 0.5%float.

(** 1.0000004, the binary64 number nearest to it. *)
Definition a_second_and_a_bit : float := 0x1.000006b5fca6bp+0%float.

(** 4e-7, the binary64 number nearest to it. *)
Definition under_half_a_microsecond : float := 0x1.ad7f29abcaf48p-22%float.

Definition at_second (s : Z) : Row :=
  mkRow 1 (Some "walking") (Some (s * 1000000)) 1%R 0%R 0%R 0%R 0%R 0%R.


(** Samples at 0 s, 1 s and 2 s. *)
Definition two_second_span : DataFrame :=
  mkDF true (map at_second [0; 1; 2]).

End Clock.

(** A store with two subjects, entered out of order (ticks are
    milliseconds here).  Subject 1 has seven samples half a second apart;
    subject 2 has five such samples and a sixth after a pause.  With
    windows of two and a half seconds every half second, subject 1 has two
    windows, of five samples each; subject 2 has four, of which only the
    first has five samples: two of them sitting, two standing, the
    earliest one sitting. *)

Module Ward.

Definition reading (vid : Z) (label : string) (t : Z) : Row :=
  mkRow vid (Some label) (Some t) 1%R 0%R 0%R 0%R 0%R 0%R.

Definition raw : list Row :=
  [ reading 2 "sitting" 0; reading 2 "standing" 500;
    reading 2 "standing" 1000; reading 2 "sitting" 1500;
    reading 2 "lying" 2000; reading 2 "lying" 4000 ]
  ++ map (reading 1 "walking") [3000; 2500; 2000; 1500; 1000; 500; 0].

Definition world : MakeWindows.World :=
  MakeWindows.mkWorld raw None [] [].

Definition windows : MakeWindows.Config :=
  MakeWindows.mkConfig 2500 500.

(** Three samples of each of two activities, the one that comes second
    in the alphabet first. *)
Definition tied : DataFrame :=
  mkDF true
    (map (reading 1 "walking") [0; 500; 1000]
     ++ map (reading 1 "sitting") [1500; 2000; 2500]).

End Ward.

(** Two arrays of five binary64 readings: one constant at 0.98 (the
    binary64 number nearest to it), one that rises from 0.1 to 0.5. *)

Module Readings.

Import PrimFloat.

(** 0.98 *)
Definition reading : float := 0x1.f5c28f5c28f5cp-1%float.

Definition flat : list float := repeat reading 5.

(** 0.9800000000000001 *)
Definition flat_mean : float := 0x1.f5c28f5c28f5dp-1%float.

Definition rising : list float :=
  [ 0x1.999999999999ap-4%float; 0x1.999999999999ap-3%float;
    0x1.3333333333333p-2%float; 0x1.999999999999ap-2%float;
    0.5%float ].

(** 1.2412670766236366e-16 *)
Definition flat_std : float := 0x1.1e3779b97f4a8p-53%float.

End Readings.

(** ** Lengths in seconds

    Names to state what the segmenter does with the lengths it is given:
    the number a float stands for, against a number of microseconds. *)

Module Timing.

Import Float64.

(** [ticks] microseconds, in seconds. *)
Definition seconds (ticks : Z) : QArith_base.Q :=
  QArith_base.Qmake ticks 1000000.

(** The length [x], in seconds, is positive. *)
Definition positive (x : PrimFloat.float) : Prop :=
  QArith_base.Qlt (QArith_base.inject_Z 0) (value x).

(** [ticks] microseconds are exactly [x] seconds. *)
Definition exactly (ticks : Z) (x : PrimFloat.float) : Prop :=
  QArith_base.Qeq (seconds ticks) (value x).


End Timing.

(** A CSV file with every required column, in another order than the
    table's and with one column more, whose only record has a timestamp
    that is not a date, and the same file with a date in its place; a
    store with a raw row already in it; and a parser that knows one
    date. *)

Module Files.

Definition full_csv : LoadRaw.CsvFrame :=
  LoadRaw.mkCsv
    [ "timestamp"; "note"; "volunteer_id"; "activity";
      "gyro_x"; "gyro_y"; "gyro_z"; "accel_x"; "accel_y"; "accel_z" ]
    [ [ LoadRaw.Text "yesterday"; LoadRaw.Text "n/a"; LoadRaw.Text "7";
        LoadRaw.Text "falling";
        LoadRaw.Text "0.1"; LoadRaw.Text "0.2"; LoadRaw.Text "0.3";
        LoadRaw.Text "1.1"; LoadRaw.Text "1.2"; LoadRaw.Text "1.3" ] ].

Definition dated_csv : LoadRaw.CsvFrame :=
  LoadRaw.mkCsv
    [ "timestamp"; "note"; "volunteer_id"; "activity";
      "gyro_x"; "gyro_y"; "gyro_z"; "accel_x"; "accel_y"; "accel_z" ]
    [ [ LoadRaw.Text "2020-01-01 00:00:00"; LoadRaw.Text "n/a";
        LoadRaw.Text "7"; LoadRaw.Text "falling";
        LoadRaw.Text "0.1"; LoadRaw.Text "0.2"; LoadRaw.Text "0.3";
        LoadRaw.Text "1.1"; LoadRaw.Text "1.2"; LoadRaw.Text "1.3" ] ].

Definition disk : LoadRaw.World :=
  LoadRaw.mkWorld [("full.csv", full_csv); ("dated.csv", dated_csv)]
    [ [ LoadRaw.Text "1"; LoadRaw.Text "walking";
        LoadRaw.Datetime (Some 0);
        LoadRaw.Text "1.0"; LoadRaw.Text "0.0"; LoadRaw.Text "0.0";
        LoadRaw.Text "0.0"; LoadRaw.Text "0.0"; LoadRaw.Text "0.0" ] ]
    [] [].

Definition parse (s : string) : option Z :=
  if String.eqb s "2020-01-01 00:00:00" then Some 1577836800000000
  else None.

End Files.

(** ** The layout of a feature vector

    Names for what [featureize] builds, used to state its properties. *)

Module Layout.

Import Np MakeWindows.

Definition STATISTICS : list string :=
  [ "mean"; "std"; "min"; "max"; "p25"; "p50"; "p75"; "energy" ].

(** The names of the eight series of [featureize], in its order. *)
Definition SERIES : list string :=
  [ "accel_x"; "accel_y"; "accel_z"; "gyro_x"; "gyro_y"; "gyro_z";
    "acc_mag"; "gyro_mag" ].

Definition CORRELATIONS : list (string * string) :=
  [ ("accel_x", "accel_y"); ("accel_x", "accel_z"); ("accel_y", "accel_z") ].

(** ["{channel}_{statistic}"] for every channel and statistic, then
    ["corr_{a}_{b}"] for every correlated pair. *)
Definition key_names (channels : list string) : list string :=
  flat_map (fun c => map (fun s => (c ++ "_" ++ s)%string) STATISTICS) channels
  ++ map (fun ab => ("corr_" ++ fst ab ++ "_" ++ snd ab)%string) CORRELATIONS.

(** The keys of a feature vector as the code names them. *)
Definition feature_keys : list string := key_names SERIES.

(** The channel names in the words of the specification, which calls the
    two derived channels [accel_magnitude] and [gyro_magnitude]. *)
Definition spec_channels : list string :=
  [ "accel_x"; "accel_y"; "accel_z"; "gyro_x"; "gyro_y"; "gyro_z";
    "accel_magnitude"; "gyro_magnitude" ].

Definition spec_feature_keys : list string := key_names spec_channels.

(** The eight entries that [_stats_for] writes for a non-empty array. *)
Definition stats_entries (name : string) (arr : list R) : features :=
  [ ((name ++ "_mean")%string, mean arr);
    ((name ++ "_std")%string,
       if (1 <? size arr)%nat then std arr 1 else Fin 0%R);
    ((name ++ "_min")%string, Fin (min_of arr));
    ((name ++ "_max")%string, Fin (max_of arr));
    ((name ++ "_p25")%string, Fin (percentile arr 25));
    ((name ++ "_p50")%string, Fin (percentile arr 50));
    ((name ++ "_p75")%string, Fin (percentile arr 75));
    ((name ++ "_energy")%string, mean (map (fun x => (x ^ 2)%R) arr)) ].

(** The magnitude of a three-axis sensor, sample by sample. *)
Definition magnitude (x y z : Row -> R) (chunk : DataFrame) : list R :=
  map (fun r => sqrt (x r ^ 2 + y r ^ 2 + z r ^ 2)%R) (rows chunk).

(** The eight series of a chunk, as the dictionary [series] holds them. *)
Definition channel_arrays (chunk : DataFrame) : list (string * list R) :=
  [ ("accel_x", to_numpy accel_x chunk);
    ("accel_y", to_numpy accel_y chunk);
    ("accel_z", to_numpy accel_z chunk);
    ("gyro_x", to_numpy gyro_x chunk);
    ("gyro_y", to_numpy gyro_y chunk);
    ("gyro_z", to_numpy gyro_z chunk);
    ("acc_mag", magnitude accel_x accel_y accel_z chunk);
    ("gyro_mag", magnitude gyro_x gyro_y gyro_z chunk) ].

(** [out[k] = v], for an entry [(k, v)]. *)
Definition set_entry (d : features) (e : string * npfloat) : features :=
  Dict.set d (fst e) (snd e).

(** The (population) variance of an array, whose square root [np.std]
    returns. *)
Definition variance (arr : list R) : R := (sq_dev arr / INR (size arr))%R.

(** Every entry of an array is [c]. *)
Definition constant (c : R) (arr : list R) : Prop := Forall (eq c) arr.

(** How often a value occurs in a column. *)
Fixpoint occurrences (v : string) (s : list (option string)) : nat :=
  match s with
  | [] => O
  | None :: s' => occurrences v s'
  | Some u :: s' =>
      if String.eqb u v then S (occurrences v s') else occurrences v s'
  end.

(** [v] occurs in the column, and more often than any other value. *)
Definition unique_mode (v : string) (s : list (option string)) : Prop :=
  (0 < occurrences v s)%nat
  /\ forall u, u <> v -> (occurrences u s < occurrences v s)%nat.

End Layout.

(** ** A run of the orchestrator, window by window

    Names for what the loops of [main] do, used to state its properties. *)

Module Run.

Import MakeWindows.

(** The rows that the loop body inserts for one yielded window: one when
    the feature vector is not empty, none otherwise. *)
Definition window_rows (vid : Z) (w : Window) : list WindowRow :=
  match featureize (chunk w) with
  | Ok feats =>
      if Dict.is_empty feats then []
      else [mkWindowRow vid (t_start w) (t_end w)
                        (majority_label (chunk w)) feats]
  | Raise _ => []
  end.

(** What the loop body does for one yielded window. *)
Definition window_events (vid : Z) (w : Window) : list Event :=
  Featureize vid w
    :: flat_map (fun row => [MajorityLabel vid w; InsertWindow vid w row])
                (window_rows vid w).

(** The cursor after the loop body has handled one more window. *)
Definition apply_window (cur : Cursor) (vw : Z * Window) : Cursor :=
  mkCursor (pending cur ++ window_rows (fst vw) (snd vw))
           (total cur + List.length (window_rows (fst vw) (snd vw)))
           (events cur ++ window_events (fst vw) (snd vw)).

(** Every window that the generators of the groups yield, with its
    subject, in the order of the two loops. *)
Fixpoint emitted (fuel : nat) (cfg : Config) (groups : list (Z * DataFrame))
    : option (list (Z * Window)) :=
  match groups with
  | [] => Some []
  | (vid, df_v) :: groups' =>
      match list_of fuel
              (window_iter (sort_values df_v) (WINDOW cfg) (STRIDE cfg)) with
      | None => None
      | Some ws =>
          match emitted fuel cfg groups' with
          | None => None
          | Some rest => Some (map (pair vid) ws ++ rest)
          end
      end
  end.

(** The rows of the [windows] table; none while the table does not
    exist. *)
Definition table_rows (w : World) : list WindowRow :=
  match windows_table w with
  | Some t => t
  | None => []
  end.

(** The frame that [main] fetches. *)
Definition fetched (w : World) : DataFrame :=
  fst (fetch_raw_df (ensure_windows_table w)).

End Run.

(** * Properties *)

(** ** The segmenter *)

Module SegmenterFacts.

Import MakeWindows.

Lemma list_of_more_fuel (fuel : nat) :
  forall g ws, list_of fuel g = Some ws -> list_of (S fuel) g = Some ws.
Proof.
  induction fuel as [|fuel IH]; intros g ws H.
  - discriminate H.
  - cbn [list_of] in H. change (list_of (S (S fuel)) g) with
      (match next g with
       | None => Some []
       | Some (w, g') =>
           match list_of (S fuel) g' with
           | None => None
           | Some rest => Some (w :: rest)
           end
       end).
    destruct (next g) as [[w g']|]; [|exact H].
    destruct (list_of fuel g') as [rest|] eqn:E; [|discriminate H].
    rewrite (IH _ _ E). exact H.
Qed.

Lemma list_of_fuel_le (fuel fuel' : nat) (g : generator) (ws : list Window) :
  (fuel <= fuel')%nat -> list_of fuel g = Some ws -> list_of fuel' g = Some ws.
Proof.
  induction 1 as [|m _ IH]; intro H; [exact H|].
  apply list_of_more_fuel, IH, H.
Qed.

(** From the head of the loop, a positive stride reaches [t_max] in at most
    [n] turns when fewer than [n] ticks are left. *)
Lemma running_stops (n : nat) :
  forall df_v win stride t_max t0,
    0 < stride ->
    t_max - (t0 + win) < Z.of_nat n ->
    exists ws, list_of (S n) (Running df_v win stride t_max t0) = Some ws.
Proof.
  induction n as [|n IH]; intros df_v win stride t_max t0 Hs Hn.
  - exists []. cbn [list_of next].
    destruct (Z.leb_spec (t0 + win) t_max); [lia|reflexivity].
  - remember (S n) as m eqn:Em. cbn [list_of next].
    destruct (Z.leb_spec (t0 + win) t_max) as [Hle|Hgt].
    + subst m.
      destruct (IH df_v win stride t_max (t0 + stride) Hs) as [ws Hws]; [lia|].
      rewrite Hws. eauto.
    + eauto.
Qed.

Lemma window_iter_stops (df_v : DataFrame) (win stride : Z) :
  0 < stride ->
  exists fuel ws, list_of fuel (window_iter df_v win stride) = Some ws.
Proof.
  intro Hs. unfold window_iter.
  destruct (empty df_v); [exists 1%nat, []; reflexivity|].
  destruct (ts_min _) as [t_min|]; [|exists 1%nat, []; reflexivity].
  destruct (ts_max _) as [t_max|]; [|exists 1%nat, []; reflexivity].
  destruct (running_stops (Z.to_nat (t_max - (t_min + win) + 1))
              df_v win stride t_max t_min Hs) as [ws Hws]; [lia|].
  eauto.
Qed.

(** What the loop yields from its head at [t0]: windows of length [win],
    the first at [t0], each [stride] after the one before. *)
Lemma running_shape (fuel : nat) :
  forall df_v win stride t_max t0 ws,
    list_of fuel (Running df_v win stride t_max t0) = Some ws ->
    Forall (fun w => t_end w - t_start w = win) ws
    /\ consecutive (fun a b => t_start b - t_start a = stride) ws
    /\ match ws with [] => True | w :: _ => t_start w = t0 end.
Proof.
  induction fuel as [|fuel IH]; intros df_v win stride t_max t0 ws H.
  - discriminate H.
  - cbn [list_of next] in H.
    destruct (t0 + win <=? t_max).
    + destruct (list_of fuel _) as [rest|] eqn:E; [|discriminate H].
      injection H as <-.
      destruct (IH _ _ _ _ _ _ E) as (Hlen & Hcons & Hhead).
      split; [|split].
      * constructor; [cbn; lia|exact Hlen].
      * cbn [consecutive]. destruct rest as [|w' rest]; [exact I|].
        split; [cbn [t_start]; lia|exact Hcons].
      * reflexivity.
    + injection H as <-. repeat split; constructor.
Qed.

Lemma window_iter_shape (fuel : nat) (df_v : DataFrame) (win stride : Z)
    (ws : list Window) :
  list_of fuel (window_iter df_v win stride) = Some ws ->
  Forall (fun w => t_end w - t_start w = win) ws
  /\ consecutive (fun a b => t_start b - t_start a = stride) ws.
Proof.
  unfold window_iter.
  destruct (empty df_v);
    [|destruct (ts_min _) as [t_min|]; [destruct (ts_max _) as [t_max|]|]].
  2: { intro H. apply running_shape in H. tauto. }
  all: destruct fuel; [discriminate|]; cbn [list_of next];
    intro H; injection H as <-; split; constructor.
Qed.

(** A stride of zero ticks never leaves a window that fits: the loop does
    not end, whatever the fuel. *)
Lemma zero_stride_never_stops (fuel : nat) (df_v : DataFrame)
    (win t_max t0 : Z) :
  t0 + win <= t_max ->
  list_of fuel (Running df_v win 0 t_max t0) = None.
Proof.
  intro Hfit. induction fuel as [|fuel IH]; [reflexivity|].
  cbn [list_of next].
  destruct (Z.leb_spec (t0 + win) t_max); [|lia].
  replace (t0 + 0) with t0 by lia. rewrite IH. reflexivity.
Qed.

(** *** The lengths in seconds *)

(** Where [timedelta] returns for both lengths, the generator that is
    called with seconds yields what the loop over the two durations
    yields. *)
Lemma suspended_ticks (df_v : DataFrame) (win_s stride_s : PrimFloat.float)
    (win stride t_max : Z) :
  Datetime.timedelta win_s = Ok win ->
  Datetime.timedelta stride_s = Ok stride ->
  forall fuel t0,
    Seconds.list_of fuel (Seconds.Suspended df_v win_s stride_s t_max t0)
    = option_map Ok
        (list_of fuel (Running df_v win stride t_max (t0 + stride))).
Proof.
  intros Hw Hs. induction fuel as [|fuel IH]; intro t0; [reflexivity|].
  cbn [Seconds.list_of Seconds.next list_of next]. rewrite Hs. cbn [bind].
  unfold Seconds.turn. rewrite Hw. cbn [bind].
  destruct (t0 + stride + win <=? t_max); [|reflexivity].
  rewrite IH. destruct (list_of fuel _); reflexivity.
Qed.

Lemma list_of_ticks (df_v : DataFrame) (win_s stride_s : PrimFloat.float)
    (win stride : Z) (fuel : nat) :
  Datetime.timedelta win_s = Ok win ->
  Datetime.timedelta stride_s = Ok stride ->
  Seconds.list_of fuel (Seconds.window_iter df_v win_s stride_s)
  = option_map Ok (list_of fuel (window_iter df_v win stride)).
Proof.
  intros Hw Hs. destruct fuel as [|fuel]; [reflexivity|].
  unfold Seconds.window_iter, window_iter.
  cbn [Seconds.list_of Seconds.next].
  destruct (empty df_v); [reflexivity|].
  unfold Seconds.turn. rewrite Hw. cbn [bind].
  destruct (ts_min _) as [t_min|]; [|reflexivity].
  destruct (ts_max _) as [t_max|]; [|reflexivity].
  cbn [list_of next].
  destruct (t_min + win <=? t_max); [|reflexivity].
  rewrite (suspended_ticks df_v win_s stride_s win stride t_max Hw Hs).
  destruct (list_of fuel _); reflexivity.
Qed.

(** What the first turns yield from the [yield] at [t0]: windows of the
    rounded length, the first one rounded stride after [t0], each one
    rounded stride after the one before. *)
Lemma suspended_shape (df_v : DataFrame) (win_s stride_s : PrimFloat.float)
    (win stride t_max : Z) :
  Datetime.timedelta win_s = Ok win ->
  Datetime.timedelta stride_s = Ok stride ->
  forall n t0,
    exists ws,
      Seconds.islice n (Seconds.Suspended df_v win_s stride_s t_max t0)
      = Ok ws
      /\ Forall (fun w => t_end w - t_start w = win) ws
      /\ consecutive (fun a b => t_start b - t_start a = stride) ws
      /\ match ws with [] => True | w :: _ => t_start w = t0 + stride end.
Proof.
  intros Hw Hs. induction n as [|n IH]; intro t0.
  - exists []. repeat split; constructor.
  - cbn [Seconds.islice Seconds.next]. rewrite Hs. cbn [bind].
    unfold Seconds.turn. rewrite Hw. cbn [bind].
    destruct (t0 + stride + win <=? t_max).
    + destruct (IH (t0 + stride)) as (rest & -> & Hlen & Hcons & Hhead).
      cbn [bind]. eexists. split; [reflexivity|]. split; [|split].
      * constructor; [cbn; lia|exact Hlen].
      * cbn [consecutive]. destruct rest as [|w' rest]; [exact I|].
        split; [cbn [t_start]; lia|exact Hcons].
      * reflexivity.
    + exists []. repeat split; constructor.
Qed.

Lemma islice_shape (df_v : DataFrame) (win_s stride_s : PrimFloat.float)
    (win stride : Z) (n : nat) :
  Datetime.timedelta win_s = Ok win ->
  Datetime.timedelta stride_s = Ok stride ->
  exists ws,
    Seconds.islice n (Seconds.window_iter df_v win_s stride_s) = Ok ws
    /\ Forall (fun w => t_end w - t_start w = win) ws
    /\ consecutive (fun a b => t_start b - t_start a = stride) ws.
Proof.
  intros Hw Hs. destruct n as [|n].
  { exists []. repeat split; constructor. }
  unfold Seconds.window_iter. cbn [Seconds.islice Seconds.next].
  destruct (empty df_v); [exists []; repeat split; constructor|].
  unfold Seconds.turn. rewrite Hw. cbn [bind].
  destruct (ts_min _) as [t_min|]; [|exists []; repeat split; constructor].
  destruct (ts_max _) as [t_max|]; [|exists []; repeat split; constructor].
  destruct (t_min + win <=? t_max); [|exists []; repeat split; constructor].
  destruct (suspended_shape df_v win_s stride_s win stride t_max Hw Hs
              n t_min) as (rest & -> & Hlen & Hcons & Hhead).
  cbn [bind]. eexists. split; [reflexivity|]. split.
  - constructor; [cbn; lia|exact Hlen].
  - cbn [consecutive]. destruct rest as [|w' rest]; [exact I|].
    split; [cbn [t_start]; lia|exact Hcons].
Qed.

Lemma seconds_list_of_fuel_le (df_v : DataFrame)
    (win_s stride_s : PrimFloat.float) (win stride : Z) (fuel fuel' : nat)
    (ws : list Window) :
  Datetime.timedelta win_s = Ok win ->
  Datetime.timedelta stride_s = Ok stride ->
  (fuel <= fuel')%nat ->
  Seconds.list_of fuel (Seconds.window_iter df_v win_s stride_s)
  = Some (Ok ws) ->
  Seconds.list_of fuel' (Seconds.window_iter df_v win_s stride_s)
  = Some (Ok ws).
Proof.
  intros Hw Hs Hle.
  rewrite !(list_of_ticks df_v win_s stride_s win stride) by assumption.
  destruct (list_of fuel _) as [ws'|] eqn:E; [|discriminate].
  intro H. injection H as <-.
  rewrite (list_of_fuel_le _ _ _ _ Hle E). reflexivity.
Qed.

(** Running the generator on given data: the readings are left alone. *)
Ltac run := lazy -[IZR]; reflexivity.

Lemma one_second_is_a_million_ticks :
  Datetime.timedelta Clock.one_second = Ok 1000000.
Proof. reflexivity. Qed.

Lemma half_a_second_is_half_a_million_ticks :
  Datetime.timedelta Clock.half_a_second = Ok 500000.
Proof. reflexivity. Qed.

(** The fraction of 1.0000004 s, four tenths of a microsecond, is rounded
    away; so is a length of 4e-7 s as a whole. *)
Lemma a_second_and_a_bit_is_a_million_ticks :
  Datetime.timedelta Clock.a_second_and_a_bit = Ok 1000000.
Proof. reflexivity. Qed.

Lemma under_half_a_microsecond_is_no_tick :
  Datetime.timedelta Clock.under_half_a_microsecond = Ok 0.
Proof. reflexivity. Qed.

(** C1, as amended. For every subject series and all lengths [win_s] and
    [stride_s], in seconds, that [timedelta] accepts: every window that the
    segmenter yields, within any number of turns, has
    [t_end - t_start = timedelta(seconds=win_s)] exactly, and the [t_start]
    of consecutive windows are exactly [timedelta(seconds=stride_s)] apart.
    These are the lengths rounded to whole microseconds, not the lengths
    themselves. *)
Theorem window_iter_length_and_stride (df_v : DataFrame)
    (win_s stride_s : PrimFloat.float) (win stride : Z) :
  Datetime.timedelta win_s = Ok win ->
  Datetime.timedelta stride_s = Ok stride ->
  (forall n,
     exists ws,
       Seconds.islice n (Seconds.window_iter df_v win_s stride_s) = Ok ws
       /\ Forall (fun w => t_end w - t_start w = win) ws
       /\ consecutive (fun a b => t_start b - t_start a = stride) ws)
  /\ forall fuel ws,
       Seconds.list_of fuel (Seconds.window_iter df_v win_s stride_s)
       = Some (Ok ws) ->
       Forall (fun w => t_end w - t_start w = win) ws
       /\ consecutive (fun a b => t_start b - t_start a = stride) ws.
Proof.
  intros Hw Hs. split.
  - intro n. apply islice_shape; assumption.
  - intros fuel ws. rewrite (list_of_ticks df_v win_s stride_s win stride)
      by assumption.
    destruct (list_of fuel _) as [ws'|] eqn:E; [|discriminate].
    intro H. injection H as <-. exact (window_iter_shape _ _ _ _ _ E).
Qed.

Lemma window_iter_length_and_stride_witness :
  exists ws,
    Seconds.islice 5
      (Seconds.window_iter Clock.two_second_span
         Clock.one_second Clock.half_a_second) = Ok ws
    /\ map (fun w => (t_start w, t_end w)) ws
       = [ (0, 1000000); (500000, 1500000); (1000000, 2000000) ]
    /\ Forall (fun w => t_end w - t_start w = 1000000) ws
    /\ consecutive (fun a b => t_start b - t_start a = 500000) ws.
Proof.
  destruct (window_iter_length_and_stride Clock.two_second_span
              Clock.one_second Clock.half_a_second 1000000 500000)
    as [Hfirst _]; [reflexivity|reflexivity|].
  destruct (Hfirst 5%nat) as (ws & Hws & Hlen & Hcons).
  exists ws. split; [exact Hws|]. split; [|split; assumption].
  assert (E : exists ws0,
             Seconds.islice 5
               (Seconds.window_iter Clock.two_second_span
                  Clock.one_second Clock.half_a_second) = Ok ws0
             /\ map (fun w => (t_start w, t_end w)) ws0
                = [ (0, 1000000); (500000, 1500000); (1000000, 2000000) ])
    by (eexists; split; [run|reflexivity]).
  destruct E as (ws0 & E0 & Emap). rewrite E0 in Hws.
  injection Hws as <-. exact Emap.
Defined.

(** C1 as the specification words it fails on samples at 0 s, 1 s and 2 s.
    With a window length of 1.0000004 s and a stride of half a second the
    first window lasts one second, not 1.0000004 s; with a window length
    of one second and a stride of 4e-7 s the second window starts where the
    first one does. *)
Lemma window_iter_lengths_are_rounded :
  (Timing.positive Clock.a_second_and_a_bit
   /\ Timing.positive Clock.half_a_second
   /\ exists w ws,
        Seconds.islice 3
          (Seconds.window_iter Clock.two_second_span
             Clock.a_second_and_a_bit Clock.half_a_second) = Ok (w :: ws)
        /\ t_end w - t_start w = 1000000
        /\ ~ Timing.exactly (t_end w - t_start w) Clock.a_second_and_a_bit)
  /\ (Timing.positive Clock.one_second
      /\ Timing.positive Clock.under_half_a_microsecond
      /\ exists w1 w2 ws,
           Seconds.islice 3
             (Seconds.window_iter Clock.two_second_span
                Clock.one_second Clock.under_half_a_microsecond)
           = Ok (w1 :: w2 :: ws)
           /\ t_start w2 - t_start w1 = 0
           /\ ~ Timing.exactly (t_start w2 - t_start w1)
                  Clock.under_half_a_microsecond).
Proof.
  split.
  - split; [reflexivity|]. split; [reflexivity|].
    do 2 eexists. split; [run|]. split; [reflexivity|].
    cbn [t_end t_start]. intro H. vm_compute in H. discriminate H.
  - split; [reflexivity|]. split; [reflexivity|].
    do 3 eexists. split; [run|]. split; [reflexivity|].
    cbn [t_end t_start]. intro H. vm_compute in H. discriminate H.
Qed.

(** C3, as amended. For every non-empty subject series and all lengths, in
    seconds, that [timedelta] accepts, when the stride is rounded to one
    microsecond or more the generating loop terminates: some number of
    turns exhausts the generator, and it then has yielded a finite list of
    windows (the same list for any larger number of turns). *)
Theorem window_iter_terminates (df_v : DataFrame)
    (win_s stride_s : PrimFloat.float) (win stride : Z) :
  empty df_v = false ->
  Datetime.timedelta win_s = Ok win ->
  Datetime.timedelta stride_s = Ok stride ->
  0 < stride ->
  exists fuel ws,
    Seconds.list_of fuel (Seconds.window_iter df_v win_s stride_s)
    = Some (Ok ws)
    /\ forall fuel', (fuel <= fuel')%nat ->
         Seconds.list_of fuel' (Seconds.window_iter df_v win_s stride_s)
         = Some (Ok ws).
Proof.
  intros _ Hw Hs Hpos.
  destruct (window_iter_stops df_v win stride Hpos) as (fuel & ws & H).
  exists fuel, ws. split.
  - rewrite (list_of_ticks df_v win_s stride_s win stride) by assumption.
    rewrite H. reflexivity.
  - intros fuel' Hle.
    rewrite (list_of_ticks df_v win_s stride_s win stride) by assumption.
    rewrite (list_of_fuel_le _ _ _ _ Hle H). reflexivity.
Qed.

Lemma window_iter_terminates_witness :
  exists fuel ws,
    Seconds.list_of fuel
      (Seconds.window_iter Clock.two_second_span
         Clock.one_second Clock.half_a_second) = Some (Ok ws)
    /\ map (fun w => (t_start w, t_end w)) ws
       = [ (0, 1000000); (500000, 1500000); (1000000, 2000000) ]
    /\ forall fuel', (fuel <= fuel')%nat ->
         Seconds.list_of fuel'
           (Seconds.window_iter Clock.two_second_span
              Clock.one_second Clock.half_a_second) = Some (Ok ws).
Proof.
  destruct (window_iter_terminates Clock.two_second_span
              Clock.one_second Clock.half_a_second 1000000 500000)
    as (fuel & ws & Hws & Hmore); [reflexivity|reflexivity|reflexivity|lia|].
  exists fuel, ws. split; [exact Hws|]. split; [|exact Hmore].
  assert (E : exists ws0,
             Seconds.list_of 4
               (Seconds.window_iter Clock.two_second_span
                  Clock.one_second Clock.half_a_second) = Some (Ok ws0)
             /\ map (fun w => (t_start w, t_end w)) ws0
                = [ (0, 1000000); (500000, 1500000); (1000000, 2000000) ])
    by (eexists; split; [run|reflexivity]).
  destruct E as (ws0 & E0 & Emap).
  pose proof (Hmore (Nat.max fuel 4) (Nat.le_max_l _ _)) as H1.
  rewrite (seconds_list_of_fuel_le _ _ _ 1000000 500000 4 (Nat.max fuel 4) ws0)
    in H1;
    [|reflexivity|reflexivity|apply Nat.le_max_r|exact E0].
  injection H1 as <-. exact Emap.
Defined.

(** C3 as the specification words it fails on samples at 0 s, 1 s and 2 s
    with a window length of one second and a stride of 4e-7 s: both lengths
    are positive, and the generator is not exhausted by any number of
    turns. *)
Lemma window_iter_never_ends_on_a_stride_under_half_a_microsecond :
  empty Clock.two_second_span = false
  /\ Timing.positive Clock.one_second
  /\ Timing.positive Clock.under_half_a_microsecond
  /\ forall fuel,
       Seconds.list_of fuel
         (Seconds.window_iter Clock.two_second_span
            Clock.one_second Clock.under_half_a_microsecond) = None.
Proof.
  split; [reflexivity|]. split; [reflexivity|]. split; [reflexivity|].
  intro fuel.
  rewrite (list_of_ticks _ _ _ 1000000 0)
    by (exact one_second_is_a_million_ticks
        || exact under_half_a_microsecond_is_no_tick).
  change (window_iter Clock.two_second_span 1000000 0)
    with (Running Clock.two_second_span 1000000 0 2000000 0).
  rewrite zero_stride_never_stops by lia. reflexivity.
Qed.




End SegmenterFacts.

(** ** The feature extractor *)

Module FeatureFacts.

Import Np MakeWindows Layout.

(** *** The key names *)

Lemma feature_keys_length : List.length feature_keys = 67%nat.
Proof. reflexivity. Qed.

Lemma feature_keys_NoDup : NoDup feature_keys.
Proof.
  assert (E : nodup string_dec feature_keys = feature_keys)
    by (vm_compute; reflexivity).
  rewrite <- E. apply NoDup_nodup.
Qed.

Lemma stats_for_sets (name : string) (arr : list R) (out : features) :
  arr <> [] ->
  _stats_for name arr out
  = Ok (fold_left set_entry (stats_entries name arr) out).
Proof.
  destruct arr as [|x arr]; [contradiction|reflexivity].
Qed.

Lemma stats_for_all_sets (series : list (string * list R)) :
  Forall (fun p => snd p <> []) series ->
  forall out,
    stats_for_all series out
    = Ok (fold_left set_entry
            (flat_map (fun p => stats_entries (fst p) (snd p)) series) out).
Proof.
  induction 1 as [|[name arr] series Hne _ IH]; intro out; [reflexivity|].
  cbn [stats_for_all flat_map fst snd].
  rewrite (stats_for_sets name arr out Hne). cbn [bind].
  rewrite IH, fold_left_app. reflexivity.
Qed.


(** *** Sums, means and deviations *)

Local Open Scope R_scope.

Lemma size_pos (a : list R) : a <> [] -> 0 < INR (size a).
Proof.
  destruct a as [|x a]; [contradiction|intros _].
  unfold size. apply lt_0_INR. cbn. lia.
Qed.

Lemma sum_squares_nonneg (m : R) (a : list R) :
  0 <= sum (map (fun x => (x - m) ^ 2) a).
Proof.
  induction a as [|x a IH]; cbn [map sum]; [lra|].
  pose proof (pow2_ge_0 (x - m)). lra.
Qed.

Lemma sq_dev_nonneg (a : list R) : 0 <= sq_dev a.
Proof. apply sum_squares_nonneg. Qed.

Lemma constant_sum (c : R) (a : list R) :
  constant c a -> sum a = INR (size a) * c.
Proof.
  induction 1 as [|x a <- _ IH].
  - cbn. lra.
  - change (size (c :: a)) with (S (size a)). rewrite S_INR.
    cbn [sum]. rewrite IH. lra.
Qed.

Lemma constant_mean (c : R) (a : list R) :
  constant c a -> a <> [] -> mean_of a = c.
Proof.
  intros Hc Hne. unfold mean_of. rewrite (constant_sum c a Hc).
  pose proof (size_pos a Hne). field. lra.
Qed.

Lemma constant_sq_dev (c : R) (a : list R) : constant c a -> sq_dev a = 0.
Proof.
  intro Hc. destruct a as [|x a]; [reflexivity|].
  unfold sq_dev. rewrite (constant_mean c (x :: a) Hc) by discriminate.
  induction Hc as [|y l <- _ IH]; [reflexivity|].
  cbn [map sum]. rewrite IH. lra.
Qed.

Lemma std_zero (a : list R) (ddof : nat) :
  sq_dev a = 0 -> (ddof < size a)%nat -> std a ddof = Fin 0.
Proof.
  intros H0 Hn. unfold std.
  destruct (Nat.leb_spec (size a) ddof); [lia|].
  rewrite H0. unfold Rdiv. rewrite Rmult_0_l, sqrt_0. reflexivity.
Qed.

Lemma gt0_std (a : list R) :
  gt0 (std a 0) = true -> 0 < sq_dev a.
Proof.
  unfold std, gt0. destruct (Nat.leb_spec (size a) 0); [discriminate|].
  destruct (Rlt_dec 0 _) as [Hpos|]; [intros _|discriminate].
  destruct (Rle_lt_dec (sq_dev a) 0) as [Hle|Hlt]; [|exact Hlt].
  pose proof (sq_dev_nonneg a). replace (sq_dev a) with 0 in Hpos by lra.
  unfold Rdiv in Hpos. rewrite Rmult_0_l, sqrt_0 in Hpos. lra.
Qed.

Lemma variance_zero (a : list R) :
  a <> [] -> variance a = 0 -> sq_dev a = 0.
Proof.
  intros Hne Hv. pose proof (size_pos a Hne) as Hn.
  unfold variance in Hv.
  replace (sq_dev a) with (sq_dev a / INR (size a) * INR (size a))
    by (field; lra).
  rewrite Hv. lra.
Qed.

(** *** The guarded correlation *)

Lemma safe_corr_zero (a b : list R) :
  (size a <= 2)%nat \/ (size b <= 2)%nat
  \/ variance a = 0 \/ variance b = 0 ->
  _safe_corr a b = Ok (Fin 0).
Proof.
  intro H. unfold _safe_corr.
  destruct (Nat.ltb_spec 2 (size a)) as [Ha|Ha]; [|reflexivity].
  destruct (Nat.ltb_spec 2 (size b)) as [Hb|Hb]; [|reflexivity].
  destruct (gt0 (std a 0)) eqn:Ga; [|reflexivity].
  destruct (gt0 (std b 0)) eqn:Gb; [|reflexivity].
  exfalso. apply gt0_std in Ga. apply gt0_std in Gb.
  destruct H as [H|[H|[H|H]]]; [lia|lia| |].
  - rewrite (variance_zero a) in Ga; [lra| |exact H].
    intros ->. cbn in Ha. lia.
  - rewrite (variance_zero b) in Gb; [lra| |exact H].
    intros ->. cbn in Hb. lia.
Qed.

Lemma corrcoef_real (a b : list R) :
  (2 < size a)%nat -> 0 < sq_dev a -> 0 < sq_dev b ->
  corrcoef a b = Raise ValueError
  \/ exists r, corrcoef a b = Ok (Fin r).
Proof.
  intros Ha Ga Gb. unfold corrcoef.
  destruct (size a =? size b)%nat; [cbn [negb]|left; reflexivity].
  right. destruct (Nat.leb_spec (size a) 1); [lia|].
  assert (Hn : 0 < INR (size a - 1)) by (apply lt_0_INR; lia).
  assert (Hi : 0 < / INR (size a - 1)) by (apply Rinv_0_lt_compat, Hn).
  destruct (Req_dec_T (sq_dev a / INR (size a - 1)) 0) as [E|_].
  { exfalso. unfold Rdiv in E.
    pose proof (Rmult_lt_0_compat _ _ Ga Hi). lra. }
  destruct (Req_dec_T (sq_dev b / INR (size a - 1)) 0) as [E|_].
  { exfalso. unfold Rdiv in E.
    pose proof (Rmult_lt_0_compat _ _ Gb Hi). lra. }
  eexists; reflexivity.
Qed.

Lemma safe_corr_cases (a b : list R) :
  _safe_corr a b = Raise ValueError /\ size a <> size b
  \/ exists r, _safe_corr a b = Ok (Fin r).
Proof.
  unfold _safe_corr.
  destruct (Nat.ltb_spec 2 (size a)) as [Ha|Ha];
    [|right; eexists; reflexivity].
  destruct (Nat.ltb_spec 2 (size b)) as [Hb|Hb];
    [|right; eexists; reflexivity].
  destruct (gt0 (std a 0)) eqn:Ga; [|right; eexists; reflexivity].
  destruct (gt0 (std b 0)) eqn:Gb; [|right; eexists; reflexivity].
  cbn [andb]. apply gt0_std in Ga. apply gt0_std in Gb.
  destruct (corrcoef_real a b Ha Ga Gb) as [E|E]; [left|right; exact E].
  split; [exact E|]. intro Hsz. unfold corrcoef in E.
  rewrite Hsz, Nat.eqb_refl in E. cbn [negb] in E.
  destruct (size b <=? 1)%nat; [discriminate E|].
  destruct (Req_dec_T _ 0); [discriminate E|].
  destruct (Req_dec_T _ 0); discriminate E.
Qed.

Lemma safe_corr_defined (a b : list R) :
  size a = size b -> exists r, _safe_corr a b = Ok (Fin r).
Proof.
  intro Hsz. destruct (safe_corr_cases a b) as [[_ Hne]|H]; [|exact H].
  contradiction.
Qed.

(** *** What the extractor returns for an accepted chunk *)

Lemma channel_arrays_nonempty (chunk : DataFrame) :
  rows chunk <> [] ->
  Forall (fun p : string * list R => snd p <> []) (channel_arrays chunk).
Proof.
  intro Hne. unfold channel_arrays, to_numpy, magnitude.
  destruct (rows chunk) as [|r rs]; [contradiction|].
  repeat constructor; discriminate.
Qed.

Lemma featureize_rejects (chunk : DataFrame) :
  (len chunk < 5)%nat -> featureize chunk = Ok [].
Proof.
  intro H. unfold featureize.
  destruct (Nat.ltb_spec (len chunk) 5); [reflexivity|lia].
Qed.

Lemma featureize_accepts (chunk : DataFrame) :
  (5 <= len chunk)%nat ->
  exists c_xy c_xz c_yz,
    _safe_corr (to_numpy accel_x chunk) (to_numpy accel_y chunk)
      = Ok (Fin c_xy)
    /\ _safe_corr (to_numpy accel_x chunk) (to_numpy accel_z chunk)
      = Ok (Fin c_xz)
    /\ _safe_corr (to_numpy accel_y chunk) (to_numpy accel_z chunk)
      = Ok (Fin c_yz)
    /\ featureize chunk
       = Ok (flat_map (fun p => stats_entries (fst p) (snd p))
                      (channel_arrays chunk)
             ++ [ ("corr_accel_x_accel_y", Fin c_xy);
                  ("corr_accel_x_accel_z", Fin c_xz);
                  ("corr_accel_y_accel_z", Fin c_yz) ]).
Proof.
  intro Hlen.
  assert (Hne : rows chunk <> []).
  { unfold len in Hlen.
    destruct (rows chunk); [cbn in Hlen; lia|discriminate]. }
  assert (Hsz : forall f g : Row -> R,
             size (to_numpy f chunk) = size (to_numpy g chunk)).
  { intros f g. unfold size, to_numpy. now rewrite !length_map. }
  destruct (safe_corr_defined _ _ (Hsz accel_x accel_y)) as [c_xy Hxy].
  destruct (safe_corr_defined _ _ (Hsz accel_x accel_z)) as [c_xz Hxz].
  destruct (safe_corr_defined _ _ (Hsz accel_y accel_z)) as [c_yz Hyz].
  exists c_xy, c_xz, c_yz. repeat split; try assumption.
  unfold featureize.
  destruct (Nat.ltb_spec (len chunk) 5); [lia|].
  cbv zeta.
  change (stats_for_all _ []) with (stats_for_all (channel_arrays chunk) []).
  rewrite (stats_for_all_sets _ (channel_arrays_nonempty chunk Hne)).
  rewrite Hxy, Hxz, Hyz. reflexivity.
Qed.

Lemma not_in_keys (k : string) (l : list string) :
  existsb (String.eqb k) l = false -> ~ In k l.
Proof.
  intros Hb Hin.
  assert (Ht : existsb (String.eqb k) l = true).
  { apply existsb_exists. exists k. split; [exact Hin|apply String.eqb_refl]. }
  rewrite Hb in Ht. discriminate Ht.
Qed.

Lemma featureize_accepts_keys (chunk : DataFrame) :
  (5 <= len chunk)%nat ->
  exists out, featureize chunk = Ok out /\ Dict.keys out = feature_keys.
Proof.
  intro Hlen.
  destruct (featureize_accepts chunk Hlen) as (c1 & c2 & c3 & _ & _ & _ & H).
  eexists. split; [exact H|reflexivity].
Qed.

(** *** The energies of the magnitude channels *)

Lemma energy_value (arr : list R) :
  arr <> [] ->
  mean (map (fun x => x ^ 2) arr)
  = Fin (sum (map (fun x => x ^ 2) arr) / INR (size arr)).
Proof.
  destruct arr as [|x arr]; [contradiction|intros _].
  cbn [map mean]. unfold mean_of, size. cbn [List.length].
  now rewrite length_map.
Qed.

Lemma sum_squared_magnitude (x y z : Row -> R) (rs : list Row) :
  sum (map (fun v => v ^ 2)
           (map (fun r => sqrt (x r ^ 2 + y r ^ 2 + z r ^ 2)) rs))
  = sum (map (fun v => v ^ 2) (map x rs))
    + sum (map (fun v => v ^ 2) (map y rs))
    + sum (map (fun v => v ^ 2) (map z rs)).
Proof.
  induction rs as [|r rs IH]; cbn [map sum]; [lra|].
  rewrite IH, pow2_sqrt; [lra|].
  pose proof (pow2_ge_0 (x r)). pose proof (pow2_ge_0 (y r)).
  pose proof (pow2_ge_0 (z r)). lra.
Qed.

Lemma magnitude_energy (x y z : Row -> R) (chunk : DataFrame) :
  rows chunk <> [] ->
  exists ex ey ez em,
    mean (map (fun v => v ^ 2) (to_numpy x chunk)) = Fin ex
    /\ mean (map (fun v => v ^ 2) (to_numpy y chunk)) = Fin ey
    /\ mean (map (fun v => v ^ 2) (to_numpy z chunk)) = Fin ez
    /\ mean (map (fun v => v ^ 2) (magnitude x y z chunk)) = Fin em
    /\ em = ex + ey + ez.
Proof.
  intro Hne.
  assert (Hmap : forall f : Row -> R, map f (rows chunk) <> []).
  { intro f. destruct (rows chunk); [contradiction|discriminate]. }
  do 4 eexists. unfold to_numpy, magnitude.
  rewrite !energy_value by apply Hmap.
  repeat split.
  rewrite sum_squared_magnitude. unfold size. rewrite !length_map.
  assert (Hn : 0 < INR (List.length (rows chunk))).
  { apply lt_0_INR. destruct (rows chunk); [contradiction|cbn; lia]. }
  field. lra.
Qed.

(** *** Reading an accepted feature vector *)

Lemma accepted_entries (chunk : DataFrame) (c_xy c_xz c_yz : npfloat) :
  let out := flat_map (fun p => stats_entries (fst p) (snd p))
                      (channel_arrays chunk)
             ++ [ ("corr_accel_x_accel_y", c_xy);
                  ("corr_accel_x_accel_z", c_xz);
                  ("corr_accel_y_accel_z", c_yz) ] in
  (forall name arr,
     In (name, arr) (channel_arrays chunk) ->
     Dict.get out (name ++ "_std")%string
       = Some (if (1 <? size arr)%nat then std arr 1 else Fin 0)
     /\ Dict.get out (name ++ "_energy")%string
       = Some (mean (map (fun x => x ^ 2) arr)))
  /\ Dict.get out "corr_accel_x_accel_y" = Some c_xy
  /\ Dict.get out "corr_accel_x_accel_z" = Some c_xz
  /\ Dict.get out "corr_accel_y_accel_z" = Some c_yz.
Proof.
  intro out. split; [|repeat split].
  intros name arr Hin. unfold channel_arrays in Hin. cbn [In] in Hin.
  repeat (destruct Hin as [Hin|Hin];
          [injection Hin as <- <-; split; reflexivity|]).
  contradiction.
Qed.

(** Every entry that [_stats_for] writes for a series is read back from
    the accepted feature vector. *)
Lemma accepted_stats (chunk : DataFrame) (c_xy c_xz c_yz : npfloat)
    (name : string) (arr : list R) (e : string * npfloat) :
  In (name, arr) (channel_arrays chunk) ->
  In e (stats_entries name arr) ->
  Dict.get (flat_map (fun p => stats_entries (fst p) (snd p))
                     (channel_arrays chunk)
            ++ [ ("corr_accel_x_accel_y", c_xy);
                 ("corr_accel_x_accel_z", c_xz);
                 ("corr_accel_y_accel_z", c_yz) ])
           (fst e)
  = Some (snd e).
Proof.
  intros Hin He. unfold channel_arrays in Hin. cbn [In] in Hin.
  repeat (destruct Hin as [Hin|Hin];
          [injection Hin as <- <-; unfold stats_entries in He; cbn [In] in He;
           repeat (destruct He as [<-|He]; [reflexivity|]); contradiction|]).
  contradiction.
Qed.

(** *** Constant channels *)

Lemma constant_min (c : R) (arr : list R) :
  constant c arr -> arr <> [] -> min_of arr = c /\ max_of arr = c.
Proof.
  intros Hc Hne. destruct arr as [|x arr]; [contradiction|].
  pose proof (Forall_inv Hc) as Hx. pose proof (Forall_inv_tail Hc) as Hrest.
  cbn beta in Hx. subst x. cbn [min_of max_of].
  clear Hc Hne. induction Hrest as [|y l <- _ IH]; [split; reflexivity|].
  cbn [fold_left]. unfold Rmin at 2, Rmax at 2.
  destruct (Rle_dec c c); exact IH.
Qed.

Lemma sort_constant (c : R) (arr : list R) :
  constant c arr -> sort arr = arr.
Proof.
  induction 1 as [|x l <- Hl IH]; [reflexivity|].
  unfold sort in *. cbn [fold_right]. rewrite IH.
  destruct Hl as [|y l' <- _]; [reflexivity|]. cbn [insert_sorted].
  destruct (Rle_dec c c) as [_|Hn]; [reflexivity|].
  exfalso. apply Hn, Rle_refl.
Qed.

Lemma nth_constant (c : R) (arr : list R) (i : nat) :
  constant c arr -> nth i arr c = c.
Proof.
  intro Hc. revert i. induction Hc as [|x l <- _ IH]; intros [|i];
    cbn [nth]; auto.
Qed.

Lemma percentile_constant (c : R) (arr : list R) (q : nat) :
  constant c arr -> arr <> [] -> (q <= 100)%nat -> percentile arr q = c.
Proof.
  intros Hc Hne Hq. unfold percentile. rewrite (sort_constant c arr Hc).
  set (lo := (((size arr - 1) * q) / 100)%nat).
  assert (Hlo : (lo < size arr)%nat).
  { assert (0 < size arr)%nat
      by (destruct arr; [contradiction|unfold size; cbn; lia]).
    assert (lo <= size arr - 1)%nat; [|lia].
    unfold lo. apply Nat.Div0.div_le_upper_bound. nia. }
  assert (E : nth lo arr 0 = c).
  { rewrite (nth_indep arr 0 c Hlo). apply nth_constant, Hc. }
  rewrite E, (nth_constant c arr _ Hc). ring.
Qed.

(** The eight statistics of a channel whose samples all equal [c]. *)
Lemma constant_stats (name : string) (c : R) (arr : list R) :
  constant c arr -> (1 < size arr)%nat ->
  stats_entries name arr
  = [ ((name ++ "_mean")%string, Fin c);
      ((name ++ "_std")%string, Fin 0);
      ((name ++ "_min")%string, Fin c);
      ((name ++ "_max")%string, Fin c);
      ((name ++ "_p25")%string, Fin c);
      ((name ++ "_p50")%string, Fin c);
      ((name ++ "_p75")%string, Fin c);
      ((name ++ "_energy")%string, Fin (c ^ 2)) ].
Proof.
  intros Hc Hn.
  assert (Hne : arr <> []) by (intros ->; cbn in Hn; lia).
  assert (Hsq : constant (c ^ 2) (map (fun x => x ^ 2) arr)).
  { unfold constant. apply Forall_map.
    apply (Forall_impl _ (P := eq c)); [intros x <-; reflexivity|exact Hc]. }
  assert (Hmean : forall k l, constant k l -> l <> [] -> mean l = Fin k).
  { intros k l Hk Hl. destruct l as [|x l]; [contradiction|].
    cbn [mean]. f_equal. apply constant_mean; assumption. }
  unfold stats_entries.
  destruct (constant_min c arr Hc Hne) as [-> ->].
  rewrite !(percentile_constant c arr) by (assumption || lia).
  rewrite (Hmean c arr Hc Hne).
  rewrite (Hmean (c ^ 2) (map (fun x => x ^ 2) arr) Hsq)
    by (destruct arr; [contradiction|discriminate]).
  destruct (Nat.ltb_spec 1 (size arr)); [|lia].
  rewrite (std_zero arr 1 (constant_sq_dev c arr Hc)) by lia.
  reflexivity.
Qed.

Lemma constant_std (c : R) (arr : list R) :
  constant c arr ->
  (if (1 <? size arr)%nat then std arr 1 else Fin 0) = Fin 0.
Proof.
  intro Hc. destruct (Nat.ltb_spec 1 (size arr)) as [Hn|]; [|reflexivity].
  apply std_zero; [apply (constant_sq_dev c), Hc|exact Hn].
Qed.

Lemma constant_corr (c : R) (a b : list R) :
  constant c a ->
  _safe_corr a b = Ok (Fin 0) /\ _safe_corr b a = Ok (Fin 0).
Proof.
  intro Hc.
  assert (Hv : variance a = 0).
  { unfold variance. rewrite (constant_sq_dev c a Hc). unfold Rdiv. lra. }
  split; apply safe_corr_zero; tauto.
Qed.

(** The scenario of the specification, with windows of two and a half
    seconds: one window, [[0, 2500)], of five samples, accepted, whose
    [accel_x] statistics are those of the constant 1. *)
Lemma scenario_long_window_features :
  list_of 2 (window_iter Scenario.series 2500 500)
  = Some [Scenario.long_window]
  /\ len (chunk Scenario.long_window) = 5%nat
  /\ exists out,
       featureize (chunk Scenario.long_window) = Ok out
       /\ Dict.get out "accel_x_mean" = Some (Fin 1)
       /\ Dict.get out "accel_x_std" = Some (Fin 0)
       /\ Dict.get out "accel_x_min" = Some (Fin 1)
       /\ Dict.get out "accel_x_max" = Some (Fin 1)
       /\ Dict.get out "accel_x_p25" = Some (Fin 1)
       /\ Dict.get out "accel_x_p50" = Some (Fin 1)
       /\ Dict.get out "accel_x_p75" = Some (Fin 1)
       /\ Dict.get out "accel_x_energy" = Some (Fin 1).
Proof.
  do 2 (split; [reflexivity|]).
  set (c := chunk _).
  destruct (featureize_accepts c) as (c_xy & c_xz & c_yz & _ & _ & _ & H);
    [cbn; lia|].
  eexists. split; [exact H|].
  assert (Hc : constant 1 (to_numpy accel_x c)) by (repeat constructor).
  assert (Hin : In ("accel_x", to_numpy accel_x c) (channel_arrays c))
    by (left; reflexivity).
  pose proof (constant_stats "accel_x" 1 _ Hc) as Hs.
  assert (Hget : forall e,
             In e (stats_entries "accel_x" (to_numpy accel_x c)) ->
             Dict.get
               (flat_map (fun p => stats_entries (fst p) (snd p))
                         (channel_arrays c)
                ++ [ ("corr_accel_x_accel_y", Fin c_xy);
                     ("corr_accel_x_accel_z", Fin c_xz);
                     ("corr_accel_y_accel_z", Fin c_yz) ])
               (fst e) = Some (snd e)).
  { intros e He. exact (accepted_stats c _ _ _ _ _ e Hin He). }
  rewrite Hs in Hget by (cbn; lia).
  replace (1 ^ 2) with 1 in Hget by ring.
  repeat split.
  - apply (Hget ("accel_x_mean", Fin 1)). cbn. tauto.
  - apply (Hget ("accel_x_std", Fin 0)). cbn. tauto.
  - apply (Hget ("accel_x_min", Fin 1)). cbn. tauto.
  - apply (Hget ("accel_x_max", Fin 1)). cbn. tauto.
  - apply (Hget ("accel_x_p25", Fin 1)). cbn. tauto.
  - apply (Hget ("accel_x_p50", Fin 1)). cbn. tauto.
  - apply (Hget ("accel_x_p75", Fin 1)). cbn. tauto.
  - apply (Hget ("accel_x_energy", Fin 1)). cbn. tauto.
Qed.

(** C2, as amended. For every sample subset the extractor returns a
    result, which is empty exactly when the subset has fewer than 5
    samples; for 5 or more samples it has exactly 67 distinct keys:
    ["{channel}_{statistic}"] for the eight series [accel_x], [accel_y],
    [accel_z], [gyro_x], [gyro_y], [gyro_z], [acc_mag], [gyro_mag] and the
    eight statistics, then ["corr_{a}_{b}"] for the three correlated pairs.
    The magnitude channels are keyed [acc_mag] and [gyro_mag]. *)
Theorem featureize_key_set (chunk : DataFrame) :
  exists out,
    featureize chunk = Ok out
    /\ (Dict.is_empty out = true <-> (len chunk < 5)%nat)
    /\ ((5 <= len chunk)%nat ->
        Dict.keys out = feature_keys
        /\ List.length (Dict.keys out) = 67%nat
        /\ NoDup (Dict.keys out)).
Proof.
  destruct (Nat.lt_ge_cases (len chunk) 5) as [Hlt|Hge].
  - exists []. split; [apply featureize_rejects, Hlt|].
    split; [split; [intros _; exact Hlt|reflexivity]|lia].
  - destruct (featureize_accepts_keys chunk Hge) as (out & Hout & Hkeys).
    exists out. split; [exact Hout|]. split.
    + split; [|lia]. destruct out; [discriminate Hkeys|discriminate].
    + intros _. rewrite Hkeys.
      split; [reflexivity|].
      split; [exact feature_keys_length|exact feature_keys_NoDup].
Qed.

Lemma featureize_key_set_witness :
  exists out,
    featureize Scenario.series = Ok out
    /\ Dict.keys out = feature_keys
    /\ List.length (Dict.keys out) = 67%nat
    /\ NoDup (Dict.keys out).
Proof.
  destruct (featureize_key_set Scenario.series) as (out & Hout & _ & Hkeys).
  exists out. split; [exact Hout|]. apply Hkeys. cbn. lia.
Defined.

(** C2 as the specification words it fails on the scenario's six samples:
    the keys of the feature vector are not the names built from the
    channels [accel_magnitude] and [gyro_magnitude]. *)
Lemma featureize_keys_not_spec_names :
  ~ (exists out,
       featureize Scenario.series = Ok out
       /\ forall k, In k spec_feature_keys -> In k (Dict.keys out)).
Proof.
  intros (out & Hout & Hall).
  destruct (featureize_accepts_keys Scenario.series) as (out' & Hout' & Hkeys);
    [cbn; lia|].
  rewrite Hout in Hout'. injection Hout' as ->.
  specialize (Hall "accel_magnitude_mean"). rewrite Hkeys in Hall.
  revert Hall. intro Hall.
  apply (not_in_keys "accel_magnitude_mean" feature_keys);
    [vm_compute; reflexivity|].
  apply Hall. vm_compute. tauto.
Qed.

(** X26. In exact arithmetic, on readings that are real numbers: each of
    the three correlations is [_safe_corr] of two series; it is 0.0
    whenever either series has 2 or fewer samples or zero variance, and it
    is never [nan].  In an accepted window, a channel whose samples are
    constant has standard deviation 0, and every correlation that involves
    a constant accelerometer axis is 0. *)
Theorem safe_corr_zero_and_constant_channels :
  (forall a b,
     (size a <= 2)%nat \/ (size b <= 2)%nat
     \/ variance a = 0 \/ variance b = 0 ->
     _safe_corr a b = Ok (Fin 0))
  /\ (forall a b, _safe_corr a b <> Ok NaN)
  /\ (forall chunk,
        (5 <= len chunk)%nat ->
        exists out,
          featureize chunk = Ok out
          /\ (forall name arr c,
                In (name, arr) (channel_arrays chunk) ->
                constant c arr ->
                Dict.get out (name ++ "_std")%string = Some (Fin 0))
          /\ (forall c,
                constant c (to_numpy accel_x chunk) ->
                Dict.get out "corr_accel_x_accel_y" = Some (Fin 0)
                /\ Dict.get out "corr_accel_x_accel_z" = Some (Fin 0))
          /\ (forall c,
                constant c (to_numpy accel_y chunk) ->
                Dict.get out "corr_accel_x_accel_y" = Some (Fin 0)
                /\ Dict.get out "corr_accel_y_accel_z" = Some (Fin 0))
          /\ (forall c,
                constant c (to_numpy accel_z chunk) ->
                Dict.get out "corr_accel_x_accel_z" = Some (Fin 0)
                /\ Dict.get out "corr_accel_y_accel_z" = Some (Fin 0))
          /\ (exists r_xy r_xz r_yz,
                Dict.get out "corr_accel_x_accel_y" = Some (Fin r_xy)
                /\ Dict.get out "corr_accel_x_accel_z" = Some (Fin r_xz)
                /\ Dict.get out "corr_accel_y_accel_z" = Some (Fin r_yz))).
Proof.
  split; [exact safe_corr_zero|]. split.
  { intros a b. destruct (safe_corr_cases a b) as [[E _]|[r E]];
      rewrite E; discriminate. }
  intros chunk Hlen.
  destruct (featureize_accepts chunk Hlen)
    as (c_xy & c_xz & c_yz & Hxy & Hxz & Hyz & Hout).
  eexists. split; [exact Hout|].
  destruct (accepted_entries chunk (Fin c_xy) (Fin c_xz) (Fin c_yz))
    as (Hstats & Gxy & Gxz & Gyz).
  cbv zeta in Hstats, Gxy, Gxz, Gyz. rewrite Gxy, Gxz, Gyz.
  split; [|split; [|split; [|split]]].
  - intros name arr c Hin Hc.
    rewrite (proj1 (Hstats name arr Hin)). f_equal.
    apply (constant_std c), Hc.
  - intros c Hc.
    destruct (constant_corr c _ (to_numpy accel_y chunk) Hc) as [E1 _].
    destruct (constant_corr c _ (to_numpy accel_z chunk) Hc) as [E2 _].
    rewrite Hxy in E1. rewrite Hxz in E2.
    injection E1 as ->. injection E2 as ->. split; reflexivity.
  - intros c Hc.
    destruct (constant_corr c _ (to_numpy accel_x chunk) Hc) as [_ E1].
    destruct (constant_corr c _ (to_numpy accel_z chunk) Hc) as [E2 _].
    rewrite Hxy in E1. rewrite Hyz in E2.
    injection E1 as ->. injection E2 as ->. split; reflexivity.
  - intros c Hc.
    destruct (constant_corr c _ (to_numpy accel_x chunk) Hc) as [_ E1].
    destruct (constant_corr c _ (to_numpy accel_y chunk) Hc) as [_ E2].
    rewrite Hxz in E1. rewrite Hyz in E2.
    injection E1 as ->. injection E2 as ->. split; reflexivity.
  - exists c_xy, c_xz, c_yz. repeat split.
Qed.

(** C10. For every accepted subset (5 or more samples) the energy of the
    accelerometer magnitude equals the sum of the energies of the three
    accelerometer axes, and the energy of the gyroscope magnitude equals the
    sum of the energies of the three gyroscope axes. *)
Theorem magnitude_energy_is_sum_of_axis_energies (chunk : DataFrame) :
  (5 <= len chunk)%nat ->
  exists out,
    featureize chunk = Ok out
    /\ (exists ex ey ez em,
          Dict.get out "accel_x_energy" = Some (Fin ex)
          /\ Dict.get out "accel_y_energy" = Some (Fin ey)
          /\ Dict.get out "accel_z_energy" = Some (Fin ez)
          /\ Dict.get out "acc_mag_energy" = Some (Fin em)
          /\ em = ex + ey + ez)
    /\ (exists gx gy gz gm,
          Dict.get out "gyro_x_energy" = Some (Fin gx)
          /\ Dict.get out "gyro_y_energy" = Some (Fin gy)
          /\ Dict.get out "gyro_z_energy" = Some (Fin gz)
          /\ Dict.get out "gyro_mag_energy" = Some (Fin gm)
          /\ gm = gx + gy + gz).
Proof.
  intro Hlen.
  assert (Hne : rows chunk <> []).
  { unfold len in Hlen.
    destruct (rows chunk); [cbn in Hlen; lia|discriminate]. }
  destruct (featureize_accepts chunk Hlen)
    as (c_xy & c_xz & c_yz & _ & _ & _ & Hout).
  eexists. split; [exact Hout|].
  destruct (accepted_entries chunk (Fin c_xy) (Fin c_xz) (Fin c_yz))
    as (Hstats & _).
  cbv zeta in Hstats.
  assert (Hget : forall name arr,
             In (name, arr) (channel_arrays chunk) ->
             forall e, mean (map (fun x => x ^ 2) arr) = Fin e ->
             Dict.get
               (flat_map (fun p => stats_entries (fst p) (snd p))
                         (channel_arrays chunk)
                ++ [ ("corr_accel_x_accel_y", Fin c_xy);
                     ("corr_accel_x_accel_z", Fin c_xz);
                     ("corr_accel_y_accel_z", Fin c_yz) ])
               (name ++ "_energy")%string = Some (Fin e)).
  { intros name arr Hin e He. rewrite <- He. apply Hstats, Hin. }
  split.
  - destruct (magnitude_energy accel_x accel_y accel_z chunk Hne)
      as (ex & ey & ez & em & Hx & Hy & Hz & Hm & Hsum).
    exists ex, ey, ez, em.
    split; [apply (Hget "accel_x" (to_numpy accel_x chunk));
             [cbn; tauto|exact Hx]|].
    split; [apply (Hget "accel_y" (to_numpy accel_y chunk));
             [cbn; tauto|exact Hy]|].
    split; [apply (Hget "accel_z" (to_numpy accel_z chunk));
             [cbn; tauto|exact Hz]|].
    split; [apply (Hget "acc_mag" (magnitude accel_x accel_y accel_z chunk));
             [cbn; tauto|exact Hm]|exact Hsum].
  - destruct (magnitude_energy gyro_x gyro_y gyro_z chunk Hne)
      as (gx & gy & gz & gm & Hx & Hy & Hz & Hm & Hsum).
    exists gx, gy, gz, gm.
    split; [apply (Hget "gyro_x" (to_numpy gyro_x chunk));
             [cbn; tauto|exact Hx]|].
    split; [apply (Hget "gyro_y" (to_numpy gyro_y chunk));
             [cbn; tauto|exact Hy]|].
    split; [apply (Hget "gyro_z" (to_numpy gyro_z chunk));
             [cbn; tauto|exact Hz]|].
    split; [apply (Hget "gyro_mag" (magnitude gyro_x gyro_y gyro_z chunk));
             [cbn; tauto|exact Hm]|exact Hsum].
Qed.

Lemma safe_corr_zero_and_constant_channels_witness :
  exists out,
    featureize Scenario.series = Ok out
    /\ Dict.get out "accel_x_std" = Some (Fin 0)
    /\ Dict.get out "corr_accel_x_accel_y" = Some (Fin 0)
    /\ Dict.get out "corr_accel_x_accel_z" = Some (Fin 0).
Proof.
  destruct safe_corr_zero_and_constant_channels as (_ & _ & H).
  destruct (H Scenario.series) as (out & Hout & Hstd & Hx & _);
    [cbn; lia|].
  assert (Hc : constant 1 (to_numpy accel_x Scenario.series))
    by (repeat constructor).
  exists out. split; [exact Hout|]. split.
  - apply (Hstd "accel_x" (to_numpy accel_x Scenario.series) 1);
      [cbn; tauto|exact Hc].
  - apply (Hx 1 Hc).
Defined.

Lemma magnitude_energy_is_sum_of_axis_energies_witness :
  exists out,
    featureize Scenario.series = Ok out
    /\ (exists ex ey ez em,
          Dict.get out "accel_x_energy" = Some (Fin ex)
          /\ Dict.get out "accel_y_energy" = Some (Fin ey)
          /\ Dict.get out "accel_z_energy" = Some (Fin ez)
          /\ Dict.get out "acc_mag_energy" = Some (Fin em)
          /\ em = ex + ey + ez)
    /\ (exists gx gy gz gm,
          Dict.get out "gyro_x_energy" = Some (Fin gx)
          /\ Dict.get out "gyro_y_energy" = Some (Fin gy)
          /\ Dict.get out "gyro_z_energy" = Some (Fin gz)
          /\ Dict.get out "gyro_mag_energy" = Some (Fin gm)
          /\ gm = gx + gy + gz).
Proof.
  apply (magnitude_energy_is_sum_of_axis_energies Scenario.series).
  cbn. lia.
Defined.

(** C4, at a window of five samples whose [accel_x] is 0.98 throughout,
    computed in binary64 as the program computes.  The mean of the five
    readings is rounded to 0.9800000000000001, one unit in the last place
    above them; so the standard deviation that [_stats_for] stores for the
    constant channel is 1.2412670766236366e-16 and not 0, and [np.std] of
    it is positive: next to a series that is not constant, the condition of
    [_safe_corr] holds, and [_safe_corr] returns what [np.corrcoef]
    computes instead of its 0.0. *)
Theorem constant_channel_deviates_in_binary64 :
  Readings.flat = repeat Readings.reading 5
  /\ Np64.mean Readings.flat = Some Readings.flat_mean
  /\ Readings.flat_mean <> Readings.reading
  /\ MakeWindows64.std_entry Readings.flat = Some Readings.flat_std
  /\ Np64.gt0 Readings.flat_std = true
  /\ MakeWindows64.calls_corrcoef Readings.flat Readings.rising = Some true.
Proof.
  split; [reflexivity|]. split; [vm_compute; reflexivity|].
  split; [intro H; vm_compute in H; discriminate H|].
  split; [vm_compute; reflexivity|].
  split; vm_compute; reflexivity.
Qed.

End FeatureFacts.

(** ** The label resolver *)

Module LabelFacts.

Import MakeWindows Layout.

Lemma get_tally_add (v u : string) (t : list (string * nat)) :
  Dict.get (tally_add v t) u
  = if String.eqb u v
    then Some (match Dict.get t v with Some m => S m | None => 1%nat end)
    else Dict.get t u.
Proof.
  induction t as [|[k m] t IH].
  - cbn. rewrite String.eqb_sym. reflexivity.
  - cbn [tally_add Dict.get].
    destruct (String.eqb_spec k v) as [->|Hkv].
    + cbn [Dict.get]. rewrite (String.eqb_sym u v).
      destruct (String.eqb v u); reflexivity.
    + cbn [Dict.get]. rewrite IH.
      destruct (String.eqb_spec k u) as [->|Hku].
      * destruct (String.eqb_spec u v) as [->|_]; [contradiction|reflexivity].
      * reflexivity.
Qed.

Lemma keys_tally_add (v : string) (t : list (string * nat)) :
  NoDup (Dict.keys t) -> NoDup (Dict.keys (tally_add v t)).
Proof.
  assert (Hin : forall t u, In u (Dict.keys (tally_add v t)) ->
                            u = v \/ In u (Dict.keys t)).
  { clear t. induction t as [|[k m] t IH]; intros u Hu.
    - cbn in Hu. destruct Hu as [<-|[]]. left. reflexivity.
    - cbn [tally_add] in Hu. destruct (String.eqb k v).
      + right. exact Hu.
      + cbn in Hu. destruct Hu as [<-|Hu]; [right; left; reflexivity|].
        destruct (IH u Hu) as [->|H];
          [left; reflexivity|right; right; exact H]. }
  induction t as [|[k m] t IH]; intro Hnd.
  - cbn. constructor; [intros []|constructor].
  - cbn [tally_add]. destruct (String.eqb_spec k v) as [->|Hkv].
    + exact Hnd.
    + cbn. inversion Hnd as [|? ? Hk Ht]; subst. constructor.
      * intro Hu. destruct (Hin t k Hu) as [->|H]; [apply Hkv; reflexivity|].
        apply Hk, H.
      * apply IH, Ht.
Qed.

Lemma get_tally (u : string) (s : list (option string)) :
  forall t,
    Dict.get (tally s t) u
    = match Dict.get t u with
      | Some m => Some (m + occurrences u s)%nat
      | None =>
          if (occurrences u s =? 0)%nat then None
          else Some (occurrences u s)
      end.
Proof.
  induction s as [|[v|] s IH]; intro t.
  - cbn. destruct (Dict.get t u); [f_equal; lia|reflexivity].
  - cbn [tally occurrences]. rewrite IH, get_tally_add.
    rewrite (String.eqb_sym v u).
    destruct (String.eqb_spec u v) as [->|Hne]; [|reflexivity].
    destruct (Dict.get t v); cbn [Nat.eqb]; f_equal; lia.
  - cbn [tally occurrences]. apply IH.
Qed.

Lemma keys_tally (s : list (option string)) :
  forall t, NoDup (Dict.keys t) -> NoDup (Dict.keys (tally s t)).
Proof.
  induction s as [|[v|] s IH]; intros t Hnd; cbn [tally].
  - exact Hnd.
  - apply IH, keys_tally_add, Hnd.
  - apply IH, Hnd.
Qed.

Lemma in_get (t : list (string * nat)) (u : string) (n : nat) :
  NoDup (Dict.keys t) -> (In (u, n) t <-> Dict.get t u = Some n).
Proof.
  induction t as [|[k m] t IH]; intro Hnd.
  - cbn. split; [intros []|discriminate].
  - inversion Hnd as [|? ? Hk Ht]; subst. cbn [In Dict.get].
    destruct (String.eqb_spec k u) as [->|Hku].
    + split.
      * intros [E|Hin]; [injection E as ->; reflexivity|].
        exfalso. apply Hk. apply (in_map fst) in Hin. exact Hin.
      * intro E. injection E as ->. left. reflexivity.
    + rewrite <- (IH Ht). split; [|tauto].
      intros [E|Hin]; [injection E as -> _; contradiction|exact Hin].
Qed.

Lemma in_insert_desc (e x : string * nat) (l : list (string * nat)) :
  In x (insert_desc e l) <-> x = e \/ In x l.
Proof.
  induction l as [|e' l IH]; cbn [insert_desc].
  - cbn. intuition.
  - destruct (snd e' <=? snd e)%nat; cbn [In]; [intuition|].
    rewrite IH. intuition.
Qed.

(** The entries of [value_counts]: every value that occurs, with the
    number of its occurrences. *)
Lemma in_value_counts (s : list (option string)) (u : string) (n : nat) :
  In (u, n) (value_counts s) <-> n = occurrences u s /\ (0 < n)%nat.
Proof.
  unfold value_counts.
  assert (Hsort : forall l x, In x (fold_right insert_desc [] l) <-> In x l).
  { induction l as [|e l IH]; intro x; cbn [fold_right]; [tauto|].
    rewrite in_insert_desc, IH. cbn. intuition. }
  rewrite Hsort, in_get by (apply keys_tally; constructor).
  rewrite get_tally. cbn [Dict.get].
  destruct (Nat.eqb_spec (occurrences u s) 0) as [E|E].
  - split; [discriminate|]. intros [-> H]. lia.
  - split.
    + intro H. injection H as <-. split; [reflexivity|lia].
    + intros [-> _]. reflexivity.
Qed.

Lemma argmax_spec (l : list (string * nat)) :
  forall best,
    exists n,
      In (argmax best l, n) (best :: l)
      /\ forall e, In e (best :: l) -> (snd e <= n)%nat.
Proof.
  induction l as [|e l IH]; intros [b nb].
  - exists nb. cbn. split; [left; reflexivity|].
    intros e [<-|[]]. cbn. lia.
  - cbn [argmax snd]. destruct (Nat.ltb_spec nb (snd e)) as [Hlt|Hge].
    + destruct (IH e) as (n & Hin & Hmax). exists n. split.
      * right. exact Hin.
      * intros x [<-|Hx]; [|apply Hmax, Hx].
        cbn. specialize (Hmax e (or_introl eq_refl)). lia.
    + destruct (IH (b, nb)) as (n & Hin & Hmax). exists n. split.
      * destruct Hin as [E|Hin]; [left; exact E|right; right; exact Hin].
      * intros x [<-|[<-|Hx]].
        -- apply (Hmax (b, nb)). left. reflexivity.
        -- specialize (Hmax (b, nb) (or_introl eq_refl)). cbn in Hmax. lia.
        -- apply Hmax. right. exact Hx.
Qed.

Lemma columns_activity (chunk : DataFrame) :
  existsb (String.eqb "activity") (columns chunk) = activity_column chunk.
Proof.
  unfold columns. destruct (activity_column chunk); reflexivity.
Qed.

Lemma in_columns_activity (chunk : DataFrame) :
  In "activity" (columns chunk) <-> activity_column chunk = true.
Proof.
  rewrite <- columns_activity. rewrite existsb_exists. split.
  - intro H. exists "activity". split; [exact H|reflexivity].
  - intros (c & Hc & E). apply String.eqb_eq in E. subst c. exact Hc.
Qed.

Lemma occurrences_none (s : list (option string)) :
  Forall (fun a => a = None) s -> forall u, occurrences u s = 0%nat.
Proof.
  induction 1 as [|a s -> _ IH]; intro u; [reflexivity|apply IH].
Qed.

Lemma occurrences_some (s : list (option string)) :
  ~ Forall (fun a => a = None) s -> exists u, (0 < occurrences u s)%nat.
Proof.
  induction s as [|[v|] s IH]; intro H.
  - exfalso. apply H. constructor.
  - exists v. cbn. rewrite String.eqb_refl. lia.
  - destruct IH as [u Hu].
    + intro Hall. apply H. constructor; [reflexivity|exact Hall].
    + exists u. exact Hu.
Qed.

Lemma all_null_dec (s : list (option string)) :
  {Forall (fun a => a = None) s} + {~ Forall (fun a => a = None) s}.
Proof.
  apply Forall_dec. intros [v|]; [right; discriminate|left; reflexivity].
Qed.

(** With the column there and a row in the frame, the label is read off
    the counts. *)
Lemma majority_label_counts (chunk : DataFrame) :
  activity_column chunk = true -> empty chunk = false ->
  majority_label chunk
  = match value_counts (map activity (rows chunk)) with
    | [] => None
    | e :: l => Some (argmax e l)
    end.
Proof.
  intros Hcol Hne. unfold majority_label.
  rewrite columns_activity, Hcol, Hne. cbn [negb orb].
  destruct (value_counts _); reflexivity.
Qed.

(** Whatever label comes back is a value of maximal count. *)
Lemma majority_label_is_maximal (chunk : DataFrame) (v : string) :
  majority_label chunk = Some v ->
  (0 < occurrences v (map activity (rows chunk)))%nat
  /\ forall u,
       (occurrences u (map activity (rows chunk))
        <= occurrences v (map activity (rows chunk)))%nat.
Proof.
  unfold majority_label. rewrite columns_activity.
  destruct (activity_column chunk); [|discriminate].
  destruct (empty chunk); [discriminate|]. cbn [negb orb].
  set (s := map activity (rows chunk)).
  destruct (value_counts s) as [|e l] eqn:Ec; [discriminate|].
  cbn [Dict.is_empty idxmax]. intro H. injection H as <-.
  destruct (argmax_spec l e) as (n & Hin & Hmax).
  rewrite <- Ec in Hin, Hmax.
  apply in_value_counts in Hin. destruct Hin as [-> Hpos].
  split; [exact Hpos|]. intro u.
  destruct (Nat.eq_dec (occurrences u s) 0) as [E|E]; [lia|].
  apply (Hmax (u, occurrences u s)).
  apply in_value_counts. split; [reflexivity|lia].
Qed.

(** C7, as amended. On a subset that has the activity column and a unique
    most frequent activity value, the resolver returns that value.  It
    returns none exactly when the subset is empty, the activity column is
    absent, or no sample of the subset has an activity value (all are
    null). *)
Theorem majority_label_spec (chunk : DataFrame) :
  (forall v,
     In "activity" (columns chunk) ->
     unique_mode v (map activity (rows chunk)) ->
     majority_label chunk = Some v)
  /\ (majority_label chunk = None <->
      empty chunk = true
      \/ ~ In "activity" (columns chunk)
      \/ Forall (fun r => activity r = None) (rows chunk)).
Proof.
  split.
  - intros v Hcol [Hpos Hmode]. apply in_columns_activity in Hcol.
    assert (Hne : empty chunk = false).
    { unfold empty. destruct (rows chunk); [cbn in Hpos; lia|reflexivity]. }
    rewrite (majority_label_counts chunk Hcol Hne).
    set (s := map activity (rows chunk)) in *.
    assert (Hv : In (v, occurrences v s) (value_counts s)).
    { apply in_value_counts. split; [reflexivity|exact Hpos]. }
    destruct (value_counts s) as [|e l] eqn:Ec; [destruct Hv|].
    f_equal. destruct (argmax_spec l e) as (n & Hin & Hmax).
    specialize (Hmax _ Hv). cbn [snd] in Hmax.
    rewrite <- Ec in Hin. apply in_value_counts in Hin. destruct Hin as [-> _].
    destruct (String.eqb_spec (argmax e l) v) as [E|E]; [exact E|].
    specialize (Hmode _ E). lia.
  - split.
    + intro Hnone.
      destruct (activity_column chunk) eqn:Hcol.
      2:{ right. left. rewrite in_columns_activity, Hcol. discriminate. }
      destruct (empty chunk) eqn:Hne; [left; reflexivity|].
      right. right. rewrite (majority_label_counts chunk Hcol Hne) in Hnone.
      destruct (all_null_dec (map activity (rows chunk))) as [Hall|Hsome].
      * apply Forall_map in Hall. exact Hall.
      * exfalso. destruct (occurrences_some _ Hsome) as [u Hu].
        assert (Hin : In (u, occurrences u (map activity (rows chunk)))
                         (value_counts (map activity (rows chunk)))).
        { apply in_value_counts. split; [reflexivity|exact Hu]. }
        destruct (value_counts _); [destruct Hin|discriminate Hnone].
    + intros [Hempty|[Hcol|Hall]].
      * unfold majority_label. rewrite Hempty, orb_true_r. reflexivity.
      * unfold majority_label. rewrite columns_activity.
        rewrite in_columns_activity in Hcol.
        destruct (activity_column chunk); [exfalso; apply Hcol|]; reflexivity.
      * destruct (majority_label chunk) as [v|] eqn:E; [|reflexivity].
        exfalso. apply majority_label_is_maximal in E.
        destruct E as [Hpos _].
        rewrite (occurrences_none (map activity (rows chunk))) in Hpos;
          [lia|].
        apply Forall_map. exact Hall.
Qed.

Lemma majority_label_spec_witness :
  majority_label Scenario.series = Some "walking".
Proof.
  apply (proj1 (majority_label_spec Scenario.series) "walking").
  - cbn. tauto.
  - split; [vm_compute; lia|]. intros u Hu.
    unfold Scenario.series, Scenario.sample.
    cbn [rows map activity occurrences].
    destruct (String.eqb_spec "walking" u) as [E|_].
    + exfalso. apply Hu. symmetry. exact E.
    + rewrite String.eqb_refl. lia.
Defined.

(** C7 as the specification words it fails on a subset that is not empty
    and has the activity column, with a null in it: the resolver returns
    none there. *)
Lemma majority_label_none_on_null_activity :
  ~ (majority_label Scenario.unlabelled = None <->
     empty Scenario.unlabelled = true
     \/ ~ In "activity" (columns Scenario.unlabelled)).
Proof.
  intros [H _]. destruct (H eq_refl) as [E|E].
  - discriminate E.
  - apply E. cbn. tauto.
Qed.

End LabelFacts.

(** ** The orchestrator *)

Module OrchestratorFacts.

Import MakeWindows Layout Run.

Lemma featureize_returns (c : DataFrame) :
  exists out,
    featureize c = Ok out
    /\ (Dict.is_empty out = true <-> (len c < 5)%nat).
Proof.
  destruct (Nat.lt_ge_cases (len c) 5) as [Hlt|Hge].
  - exists []. split; [apply FeatureFacts.featureize_rejects, Hlt|].
    split; [intros _; exact Hlt|reflexivity].
  - destruct (FeatureFacts.featureize_accepts_keys c Hge)
      as (out & Hout & Hkeys).
    exists out. split; [exact Hout|]. split; [|lia].
    destruct out; [discriminate Hkeys|discriminate].
Qed.

Lemma window_rows_small (vid : Z) (w : Window) :
  (len (chunk w) < 5)%nat \/ featureize (chunk w) = Ok [] ->
  window_rows vid w = [].
Proof.
  intro H. unfold window_rows.
  destruct (featureize_returns (chunk w)) as (out & Hout & Hempty).
  rewrite Hout. destruct H as [H|H].
  - apply Hempty in H. rewrite H. reflexivity.
  - rewrite Hout in H. injection H as ->. reflexivity.
Qed.

Lemma window_rows_row (vid : Z) (w : Window) (row : WindowRow) :
  In row (window_rows vid w) ->
  (5 <= len (chunk w))%nat
  /\ featureize (chunk w) = Ok (w_features row)
  /\ w_features row <> []
  /\ w_volunteer_id row = vid
  /\ w_t_start row = t_start w
  /\ w_t_end row = t_end w
  /\ w_label row = majority_label (chunk w).
Proof.
  unfold window_rows.
  destruct (featureize_returns (chunk w)) as (out & Hout & Hempty).
  rewrite Hout. destruct (Dict.is_empty out) eqn:E; [intros []|].
  intros [<-|[]]. cbn. repeat split; try reflexivity.
  - destruct (Nat.lt_ge_cases (len (chunk w)) 5) as [Hlt|Hge]; [|exact Hge].
    apply Hempty in Hlt. discriminate Hlt.
  - intros ->. discriminate E.
Qed.

(** The loop body never raises, and does what [apply_window] says. *)
Lemma body_spec (vid : Z) (w : Window) (cur : Cursor) :
  body vid w cur = Ok (apply_window cur (vid, w)).
Proof.
  unfold body, apply_window, window_events, window_rows. cbn [fst snd].
  destruct (featureize_returns (chunk w)) as (out & Hout & _).
  rewrite Hout. cbn [bind events pending total].
  destruct (Dict.is_empty out).
  - cbn. rewrite app_nil_r, Nat.add_0_r. reflexivity.
  - cbn. rewrite Nat.add_1_r. do 2 f_equal.
    rewrite <- !app_assoc. reflexivity.
Qed.

Lemma for_windows_spec (fuel : nat) (vid : Z) :
  forall g cur,
    for_windows fuel vid g cur
    = match list_of fuel g with
      | None => None
      | Some ws => Some (Ok (fold_left apply_window (map (pair vid) ws) cur))
      end.
Proof.
  induction fuel as [|fuel IH]; intros g cur; [reflexivity|].
  cbn [for_windows list_of]. destruct (next g) as [[w g']|]; [|reflexivity].
  rewrite body_spec, IH. destruct (list_of fuel g'); reflexivity.
Qed.

Lemma for_groups_spec (fuel : nat) (cfg : Config) :
  forall groups cur,
    for_groups fuel cfg groups cur
    = match emitted fuel cfg groups with
      | None => None
      | Some vws => Some (Ok (fold_left apply_window vws cur))
      end.
Proof.
  induction groups as [|[vid df_v] groups IH]; intro cur; [reflexivity|].
  cbn [for_groups emitted]. rewrite for_windows_spec.
  destruct (list_of fuel _) as [ws|]; [|reflexivity].
  rewrite IH. destruct (emitted fuel cfg groups) as [rest|]; [|reflexivity].
  rewrite fold_left_app. reflexivity.
Qed.

Lemma fold_apply_window (vws : list (Z * Window)) :
  forall cur,
    fold_left apply_window vws cur
    = mkCursor
        (pending cur ++ flat_map (fun vw => window_rows (fst vw) (snd vw)) vws)
        (total cur
         + List.length
             (flat_map (fun vw => window_rows (fst vw) (snd vw)) vws))
        (events cur
         ++ flat_map (fun vw => window_events (fst vw) (snd vw)) vws).
Proof.
  induction vws as [|vw vws IH]; intro cur.
  - cbn. rewrite !app_nil_r, Nat.add_0_r. destruct cur; reflexivity.
  - cbn [fold_left flat_map]. rewrite IH. unfold apply_window.
    cbn [pending total events]. rewrite !length_app, <- !app_assoc.
    f_equal. lia.
Qed.

Lemma sort_by_nil {A : Type} (le : A -> A -> bool) (l : list A) :
  sort_by le l = [] <-> l = [].
Proof.
  split; [|intros ->; reflexivity].
  destruct l as [|x l]; [reflexivity|]. cbn [sort_by fold_right].
  destruct (fold_right (insert_by le) [] l) as [|y l']; cbn [insert_by].
  - discriminate.
  - destruct (le x y); discriminate.
Qed.

Lemma fetched_empty (w : World) :
  empty (fetched w) = true <-> raw_sensor_data w = [].
Proof.
  unfold fetched, fetch_raw_df, empty. cbn [fst rows].
  change (raw_sensor_data (ensure_windows_table w))
    with (raw_sensor_data w).
  rewrite <- (sort_by_nil raw_order).
  destruct (sort_by raw_order (raw_sensor_data w)); split;
    (reflexivity || discriminate).
Qed.

(** What a run leaves behind, in terms of the windows its generators
    yield. *)
Lemma main_spec (fuel : nat) (cfg : Config) (w : World) :
  main fuel cfg w
  = if empty (fetched w)
    then Some (Ok PyNone,
               mkWorld (raw_sensor_data w) (Some (table_rows w))
                 (stdout w ++ [WARN_raw_empty])
                 (history w
                  ++ [CreateTableIfNotExists; Commit; SelectRaw;
                      Printed WARN_raw_empty]))
    else
      match emitted fuel cfg (groupby (fetched w)) with
      | None => None
      | Some vws =>
          let added :=
            flat_map (fun vw => window_rows (fst vw) (snd vw)) vws in
          Some (Ok PyNone,
                mkWorld (raw_sensor_data w) (Some (table_rows w ++ added))
                  (stdout w ++ [OK_created (List.length added)])
                  (history w
                   ++ [CreateTableIfNotExists; Commit; SelectRaw]
                   ++ flat_map (fun vw => window_events (fst vw) (snd vw)) vws
                   ++ [Commit; Printed (OK_created (List.length added))]))
      end.
Proof.
  unfold main, fetched. cbn [fetch_raw_df fst].
  destruct (empty _).
  - destruct w as [raw [tbl|] out hist];
      cbv [print log ensure_windows_table table_rows
           raw_sensor_data windows_table stdout history];
      rewrite <- !app_assoc; reflexivity.
  - rewrite for_groups_spec.
    destruct (emitted fuel cfg _) as [vws|]; [|reflexivity].
    rewrite fold_apply_window. cbv zeta.
    destruct w as [raw [tbl|] out hist];
      cbv [print log commit ensure_windows_table table_rows
           raw_sensor_data windows_table stdout history
           pending total events];
      rewrite <- !app_assoc; reflexivity.
Qed.

(** With a positive stride every group is segmented within some common
    number of turns. *)
Lemma emitted_stops (cfg : Config) (groups : list (Z * DataFrame)) :
  0 < STRIDE cfg ->
  exists fuel vws,
    forall fuel', (fuel <= fuel')%nat -> emitted fuel' cfg groups = Some vws.
Proof.
  intro Hs. induction groups as [|[vid df_v] groups IH].
  - exists 0%nat, []. reflexivity.
  - destruct IH as (f1 & rest & Hrest).
    destruct (SegmenterFacts.window_iter_stops
                (sort_values df_v) (WINDOW cfg) (STRIDE cfg) Hs)
      as (f2 & ws & Hws).
    exists (Nat.max f1 f2), (map (pair vid) ws ++ rest).
    intros fuel' Hle. cbn [emitted].
    rewrite (SegmenterFacts.list_of_fuel_le f2 fuel' _ ws)
      by (exact Hws || lia).
    rewrite Hrest by lia. reflexivity.
Qed.

Lemma main_stops (cfg : Config) (w : World) :
  0 < STRIDE cfg ->
  exists fuel w', main fuel cfg w = Some (Ok PyNone, w').
Proof.
  intro Hs.
  destruct (emitted_stops cfg (groupby (fetched w)) Hs) as (fuel & vws & H).
  exists fuel. rewrite main_spec.
  destruct (empty (fetched w)); [eexists; reflexivity|].
  rewrite (H fuel) by lia. eexists. reflexivity.
Qed.

Lemma printed_total_app (out : list Line) (l : Line) :
  printed_total (out ++ [l])
  = match l with
    | OK_created n => Some n
    | WARN_raw_empty => printed_total out
    end.
Proof.
  unfold printed_total. rewrite fold_left_app. destruct l; reflexivity.
Qed.

(** The events of a run that concern a window single it out. *)
Lemma in_window_events (vws : list (Z * Window)) (e : Event) :
  In e (flat_map (fun vw => window_events (fst vw) (snd vw)) vws) ->
  exists vid win,
    In (vid, win) vws
    /\ (e = Featureize vid win
        \/ exists row,
             In row (window_rows vid win)
             /\ (e = MajorityLabel vid win \/ e = InsertWindow vid win row)).
Proof.
  rewrite in_flat_map. intros ([vid win] & Hvw & He).
  exists vid, win. split; [exact Hvw|].
  unfold window_events in He. cbn [fst snd] in He.
  destruct He as [<-|He]; [left; reflexivity|right].
  apply in_flat_map in He. destruct He as (row & Hrow & He).
  exists row. split; [exact Hrow|].
  destruct He as [<-|[<-|[]]]; [left|right]; reflexivity.
Qed.

(** C5. In every run of the orchestrator, every window that a generator
    yields goes through the extractor; for a window whose subset has fewer
    than 5 samples, or for which the extractor returns an empty result,
    neither the label resolver runs nor a row is inserted; and every row
    that reaches the table comes from a yielded window of 5 or more
    samples. *)
Theorem small_windows_never_persisted (fuel : nat) (cfg : Config)
    (w w' : World) (r : result pyvalue) :
  main fuel cfg w = Some (r, w') ->
  exists vws new added,
    (empty (fetched w) = false ->
     emitted fuel cfg (groupby (fetched w)) = Some vws)
    /\ history w' = history w ++ new
    /\ windows_table w' = Some (table_rows w ++ added)
    /\ (forall vid win, In (vid, win) vws -> In (Featureize vid win) new)
    /\ (forall vid win,
          (len (chunk win) < 5)%nat \/ featureize (chunk win) = Ok [] ->
          ~ In (MajorityLabel vid win) new
          /\ forall row, ~ In (InsertWindow vid win row) new)
    /\ (forall row,
          In row added ->
          exists vid win,
            In (vid, win) vws
            /\ In (InsertWindow vid win row) new
            /\ (5 <= len (chunk win))%nat
            /\ w_volunteer_id row = vid
            /\ w_t_start row = t_start win
            /\ w_t_end row = t_end win).
Proof.
  rewrite main_spec. destruct (empty (fetched w)).
  - intro H. injection H as <- <-.
    exists [], [CreateTableIfNotExists; Commit; SelectRaw;
                Printed WARN_raw_empty], [].
    cbn [history windows_table]. rewrite app_nil_r.
    split; [discriminate|]. do 2 (split; [reflexivity|]).
    split; [intros vid win []|]. split; [|intros row []].
    intros vid win _. split; [|intro row]; cbn; intuition discriminate.
  - destruct (emitted fuel cfg _) as [vws|]; [|discriminate].
    cbv zeta. intro H. injection H as <- <-.
    set (evs := flat_map (fun vw => window_events (fst vw) (snd vw)) vws).
    set (added := flat_map (fun vw => window_rows (fst vw) (snd vw)) vws).
    exists vws,
      ([CreateTableIfNotExists; Commit; SelectRaw] ++ evs
       ++ [Commit; Printed (OK_created (List.length added))]),
      added.
    cbn [history windows_table].
    split; [reflexivity|]. do 2 (split; [reflexivity|]).
    assert (Hcases : forall e,
               In e ([CreateTableIfNotExists; Commit; SelectRaw] ++ evs
                     ++ [Commit; Printed (OK_created (List.length added))]) ->
               In e evs
               \/ In e [CreateTableIfNotExists; Commit; SelectRaw; Commit;
                        Printed (OK_created (List.length added))]).
    { intros e He. rewrite !in_app_iff in He. cbn in He |- *. tauto. }
    split; [|split].
    + intros vid win Hin. apply in_or_app. right. apply in_or_app. left.
      apply in_flat_map. exists (vid, win). split; [exact Hin|].
      left. reflexivity.
    + intros vid win Hsmall.
      pose proof (window_rows_small vid win Hsmall) as Hnone.
      split; [|intro row]; intro He; apply Hcases in He;
        (destruct He as [He|He]; [|cbn in He; intuition discriminate]);
        apply in_window_events in He;
        destruct He as (vid' & win' & _ & [E|(row' & Hrow & [E|E])]);
        try discriminate E; injection E; intros; subst;
        rewrite Hnone in Hrow; destruct Hrow.
    + intros row Hrow. apply in_flat_map in Hrow.
      destruct Hrow as ([vid win] & Hvw & Hrow). cbn [fst snd] in Hrow.
      exists vid, win. split; [exact Hvw|].
      destruct (window_rows_row vid win row Hrow)
        as (Hlen & _ & _ & Hv & Hs & He & _).
      split; [|tauto].
      apply in_or_app. right. apply in_or_app. left.
      apply in_flat_map. exists (vid, win). split; [exact Hvw|].
      right. apply in_flat_map. exists row. split; [exact Hrow|].
      right. left. reflexivity.
Qed.

(** The scenario with windows of two seconds: two windows of four
    samples each, both skipped. *)
Lemma scenario_short_windows_run :
  exists new,
    main 3 Scenario.short_windows Scenario.world
    = Some (Ok PyNone,
            mkWorld (rows Scenario.series) (Some []) [OK_created 0] new).
Proof. eexists. reflexivity. Qed.

Lemma small_windows_never_persisted_witness :
  exists w' vws new added,
    main 3 Scenario.short_windows Scenario.world = Some (Ok PyNone, w')
    /\ (empty (fetched Scenario.world) = false ->
        emitted 3 Scenario.short_windows (groupby (fetched Scenario.world))
        = Some vws)
    /\ history w' = history Scenario.world ++ new
    /\ windows_table w' = Some (table_rows Scenario.world ++ added)
    /\ (forall vid win, In (vid, win) vws -> In (Featureize vid win) new)
    /\ (forall vid win,
          (len (chunk win) < 5)%nat \/ featureize (chunk win) = Ok [] ->
          ~ In (MajorityLabel vid win) new
          /\ forall row, ~ In (InsertWindow vid win row) new)
    /\ (forall row,
          In row added ->
          exists vid win,
            In (vid, win) vws
            /\ In (InsertWindow vid win row) new
            /\ (5 <= len (chunk win))%nat
            /\ w_volunteer_id row = vid
            /\ w_t_start row = t_start win
            /\ w_t_end row = t_end win).
Proof.
  assert (Hrun : exists w',
             main 3 Scenario.short_windows Scenario.world
             = Some (Ok PyNone, w'))
    by (eexists; reflexivity).
  destruct Hrun as [w' Hrun].
  destruct (small_windows_never_persisted _ _ _ _ _ Hrun)
    as (vws & new & added & H).
  exists w', vws, new, added. split; [exact Hrun|exact H].
Defined.

(** C6, as amended. A run returns nothing ([None]); what it reports is the
    summary line it prints, whose total is the number of rows the run added
    to the table.  When the raw source is empty the run ends whatever the
    configuration, prints the warning and no summary line, and sends no
    insert: besides the idempotent table creation and the select, the table
    is as it was. *)
Theorem main_reports_total (cfg : Config) (w : World) :
  (forall fuel r w',
     main fuel cfg w = Some (r, w') ->
     r = Ok PyNone
     /\ exists added,
          windows_table w' = Some (table_rows w ++ added)
          /\ (raw_sensor_data w <> [] ->
              stdout w' = stdout w ++ [OK_created (List.length added)]
              /\ reported_total PyNone (stdout w')
                 = Some (Z.of_nat (List.length added)))
          /\ (raw_sensor_data w = [] ->
              added = []
              /\ stdout w' = stdout w ++ [WARN_raw_empty]
              /\ reported_total PyNone (stdout w')
                 = reported_total PyNone (stdout w)
              /\ history w'
                 = history w
                   ++ [CreateTableIfNotExists; Commit; SelectRaw;
                       Printed WARN_raw_empty]))
  /\ (raw_sensor_data w = [] ->
      forall fuel, exists w', main fuel cfg w = Some (Ok PyNone, w'))
  /\ (0 < STRIDE cfg ->
      exists fuel w', main fuel cfg w = Some (Ok PyNone, w')).
Proof.
  split; [|split].
  - intros fuel r w'. rewrite main_spec.
    destruct (empty (fetched w)) eqn:He.
    + apply fetched_empty in He. intro H. injection H as <- <-.
      split; [reflexivity|]. exists [].
      cbn [windows_table stdout history]. rewrite app_nil_r.
      split; [reflexivity|]. split; [intro Hne; contradiction|].
      intros _. repeat split.
      unfold reported_total. rewrite printed_total_app. reflexivity.
    + destruct (emitted fuel cfg _) as [vws|]; [|discriminate].
      cbv zeta. intro H. injection H as <- <-.
      split; [reflexivity|]. eexists.
      cbn [windows_table stdout history].
      split; [reflexivity|]. split.
      * intros _. split; [reflexivity|].
        unfold reported_total. rewrite printed_total_app. reflexivity.
      * intro Hraw. apply fetched_empty in Hraw. rewrite Hraw in He.
        discriminate He.
  - intros Hraw fuel. apply fetched_empty in Hraw.
    rewrite main_spec, Hraw. eexists. reflexivity.
  - apply main_stops.
Qed.

Lemma main_reports_total_witness :
  (exists fuel w',
     main fuel Scenario.long_windows Scenario.world = Some (Ok PyNone, w'))
  /\ forall fuel, exists w',
       main fuel Scenario.long_windows Scenario.empty_world
       = Some (Ok PyNone, w').
Proof.
  split.
  - apply (proj2 (proj2 (main_reports_total Scenario.long_windows
                           Scenario.world))).
    reflexivity.
  - apply (proj1 (proj2 (main_reports_total Scenario.long_windows
                           Scenario.empty_world))).
    reflexivity.
Defined.

(** C6 as the specification words it fails on the empty store: the run
    neither returns 0 nor reports a total of 0; it returns [None] and
    prints the warning only. *)
Lemma main_reports_no_total_on_empty_source :
  ~ (exists fuel r w',
       main fuel Scenario.long_windows Scenario.empty_world
       = Some (Ok r, w')
       /\ reported_total r (stdout w') = Some 0).
Proof.
  intros (fuel & r & w' & Hrun & Hzero).
  rewrite main_spec in Hrun. cbn in Hrun. injection Hrun as <- <-.
  discriminate Hzero.
Qed.

End OrchestratorFacts.

(** ** The raw loader *)

Module LoaderFacts.

Import LoadRaw.

Section Loader.

Variable parse_datetime : string -> option Z.

Lemma missing_columns (df : CsvFrame) (c : string) :
  In c (filter (fun c => negb (existsb (String.eqb c) (csv_columns df)))
               REQUIRED_COLS)
  <-> In c REQUIRED_COLS /\ ~ In c (csv_columns df).
Proof.
  rewrite filter_In, negb_true_iff. apply and_iff_compat_l. split.
  - intros Hb Hin.
    assert (Ht : existsb (String.eqb c) (csv_columns df) = true).
    { apply existsb_exists. exists c.
      split; [exact Hin|apply String.eqb_refl]. }
    rewrite Hb in Ht. discriminate Ht.
  - intro Hnin. destruct (existsb _ _) eqn:E; [|reflexivity].
    exfalso. apply Hnin. apply existsb_exists in E.
    destruct E as (c' & Hc' & E). apply String.eqb_eq in E. subst c'.
    exact Hc'.
Qed.

(** C9. When the CSV file lacks at least one of the nine required
    columns, the loader exits with status 1 after printing the missing
    columns: it has sent no statement to the database, and the raw table
    holds what it held. *)
Theorem missing_column_aborts_before_any_write (path_csv : string)
    (w : World) (df : CsvFrame) :
  Dict.get (files w) path_csv = Some df ->
  (exists c, In c REQUIRED_COLS /\ ~ In c (csv_columns df)) ->
  exists missing,
    load_csv_to_raw parse_datetime path_csv w
    = (Raise (SystemExit 1), print (ERROR_missing missing) w)
    /\ (forall c, In c missing
                  <-> In c REQUIRED_COLS /\ ~ In c (csv_columns df))
    /\ raw_sensor_data (snd (load_csv_to_raw parse_datetime path_csv w))
       = raw_sensor_data w
    /\ executed (snd (load_csv_to_raw parse_datetime path_csv w))
       = executed w.
Proof.
  intros Hfile (c & Hc). unfold load_csv_to_raw. rewrite Hfile.
  apply missing_columns in Hc.
  destruct (filter _ REQUIRED_COLS) as [|m missing] eqn:E; [destruct Hc|].
  exists (m :: missing). split; [reflexivity|].
  split; [|split; reflexivity].
  intro c'. rewrite <- E. apply missing_columns.
Qed.

Lemma positions_present (header cols : list string) :
  (forall c, In c cols -> In c header) ->
  exists idx, positions cols header = Ok idx
              /\ List.length idx = List.length cols.
Proof.
  assert (Hidx : forall c, In c header -> exists i, index_of c header = Some i).
  { induction header as [|h header IH]; intros c []; cbn [index_of].
    - subst h. rewrite String.eqb_refl. eauto.
    - destruct (String.eqb h c); [eauto|].
      destruct (IH c H) as [i ->]. cbn. eauto. }
  induction cols as [|c cols IH]; intro Hall.
  - exists []. split; reflexivity.
  - cbn [positions].
    destruct (Hidx c) as [i ->]; [apply Hall; left; reflexivity|].
    destruct IH as (idx & -> & Hlen);
      [intros c' H; apply Hall; right; exact H|].
    exists (i :: idx). cbn. split; [reflexivity|congruence].
Qed.

End Loader.

Lemma missing_column_aborts_before_any_write_witness :
  exists missing,
    load_csv_to_raw (fun _ => None) "short.csv" Scenario.disk
    = (Raise (SystemExit 1), print (ERROR_missing missing) Scenario.disk)
    /\ (forall c, In c missing
                  <-> In c REQUIRED_COLS
                      /\ ~ In c (csv_columns Scenario.short_csv))
    /\ raw_sensor_data
         (snd (load_csv_to_raw (fun _ => None) "short.csv" Scenario.disk))
       = raw_sensor_data Scenario.disk
    /\ executed
         (snd (load_csv_to_raw (fun _ => None) "short.csv" Scenario.disk))
       = executed Scenario.disk.
Proof.
  apply (missing_column_aborts_before_any_write
           (fun _ => None) "short.csv" Scenario.disk Scenario.short_csv).
  - reflexivity.
  - exists "gyro_z". split; [cbn; tauto|].
    cbn. intuition discriminate.
Defined.

End LoaderFacts.

(** * Further properties of the code *)

(** ** The segmenter: coverage, positions, degenerate strides *)

Module SegmenterMore.

Import MakeWindows.

(** The mask of [window_iter] for the window [[a, b)]. *)
Lemma mask_spec (r : Row) (a b : Z) :
  ts_ge (timestamp r) a && ts_lt (timestamp r) b = true
  <-> exists t, timestamp r = Some t /\ a <= t < b.
Proof.
  unfold ts_ge, ts_lt. destruct (timestamp r) as [t|].
  - rewrite andb_true_iff, Z.leb_le, Z.ltb_lt. split.
    + intros [H1 H2]. exists t. split; [reflexivity|lia].
    + intros (t' & E & H). injection E as <-. lia.
  - split; [discriminate|]. intros (t & E & _). discriminate E.
Qed.

(** Everything the loop yields from its head at [t0]: the [k]-th window
    starts [k] strides after [t0], ends no later than [t_max], and holds
    the rows of the series that its mask selects. *)
Lemma running_windows (fuel : nat) :
  forall df_v win stride t_max t0 ws,
    list_of fuel (Running df_v win stride t_max t0) = Some ws ->
    forall k w,
      nth_error ws k = Some w ->
      t_start w = t0 + Z.of_nat k * stride
      /\ t_end w = t_start w + win
      /\ t_end w <= t_max
      /\ chunk w
         = select (fun r => ts_ge (timestamp r) (t_start w)
                            && ts_lt (timestamp r) (t_end w)) df_v.
Proof.
  induction fuel as [|fuel IH]; intros df_v win stride t_max t0 ws H k w Hk.
  - discriminate H.
  - cbn [list_of next] in H.
    destruct (Z.leb_spec (t0 + win) t_max) as [Hfit|_].
    + destruct (list_of fuel _) as [rest|] eqn:E; [|discriminate H].
      injection H as <-. destruct k as [|k].
      * injection Hk as <-. cbn [t_start t_end chunk].
        repeat split; try reflexivity; lia.
      * cbn [nth_error] in Hk.
        destruct (IH _ _ _ _ _ _ E k w Hk) as (H1 & H2 & H3 & H4).
        repeat split; try assumption. lia.
    + injection H as <-. destruct k; discriminate Hk.
Qed.



Lemma ts_max_bound (ts : list (option Z)) (m t : Z) :
  ts_max ts = Some m -> In (Some t) ts -> t <= m.
Proof.
  revert m. induction ts as [|[a|] ts IH]; intros m Hm Hin.
  - destruct Hin.
  - cbn [ts_max] in Hm. destruct Hin as [E|Hin].
    + injection E as ->. destruct (ts_max ts); injection Hm as <-; lia.
    + destruct (ts_max ts) as [b|] eqn:Eb.
      * injection Hm as <-. specialize (IH b eq_refl Hin). lia.
      * exfalso. clear -Eb Hin.
        induction ts as [|[c|] ts IH]; [destruct Hin| |].
        -- cbn in Eb. destruct (ts_max ts); discriminate Eb.
        -- destruct Hin as [E|Hin]; [discriminate E|]. apply IH; assumption.
  - cbn [ts_max] in Hm. destruct Hin as [E|Hin]; [discriminate E|].
    apply IH; assumption.
Qed.

Lemma ts_min_some (ts : list (option Z)) (t : Z) :
  In (Some t) ts -> exists a, ts_min ts = Some a /\ a <= t.
Proof.
  induction ts as [|[x|] ts IH]; intro Hin; [destruct Hin| |].
  - cbn [ts_min]. destruct Hin as [E|Hin].
    + injection E as ->. destruct (ts_min ts) as [b|]; eexists;
        (split; [reflexivity|lia]).
    + destruct (IH Hin) as (a & -> & Ha). eexists.
      split; [reflexivity|lia].
  - cbn [ts_min]. destruct Hin as [E|Hin]; [discriminate E|apply IH, Hin].
Qed.


Lemma ts_min_all_nat (ts : list (option Z)) :
  Forall (fun t => t = None) ts -> ts_min ts = None.
Proof.
  induction 1 as [|t ts -> _ IH]; [reflexivity|exact IH].
Qed.

(** The generator is at the head of its loop, or has finished. *)
Lemma window_iter_cases (df_v : DataFrame) (win stride : Z) :
  window_iter df_v win stride = Finished
  \/ exists t_min t_max,
       ts_min (map timestamp (rows df_v)) = Some t_min
       /\ ts_max (map timestamp (rows df_v)) = Some t_max
       /\ window_iter df_v win stride
          = Running df_v win stride t_max t_min.
Proof.
  unfold window_iter. destruct (empty df_v); [left; reflexivity|].
  destruct (ts_min _) as [t_min|]; [|left; reflexivity].
  destruct (ts_max _) as [t_max|]; [|left; reflexivity].
  right. exists t_min, t_max. repeat split.
Qed.

Lemma finished_yields_nothing (fuel : nat) (ws : list Window) :
  list_of fuel Finished = Some ws -> ws = [].
Proof.
  destruct fuel; [discriminate|]. cbn. intro H. injection H as <-.
  reflexivity.
Qed.

(** X1. Half-open coverage: the subset of a yielded window holds exactly
    the rows of the series whose timestamp [t] is valid and satisfies
    [t_start <= t < t_end], in the order of the series, with the columns of
    the series. *)
Theorem window_chunk_is_half_open (fuel : nat) (df_v : DataFrame)
    (win stride : Z) (ws : list Window) (w : Window) :
  list_of fuel (window_iter df_v win stride) = Some ws ->
  In w ws ->
  activity_column (chunk w) = activity_column df_v
  /\ rows (chunk w)
     = filter (fun r => ts_ge (timestamp r) (t_start w)
                        && ts_lt (timestamp r) (t_end w)) (rows df_v)
  /\ forall r,
       In r (rows (chunk w))
       <-> In r (rows df_v)
           /\ exists t, timestamp r = Some t /\ t_start w <= t < t_end w.
Proof.
  intros H Hin.
  destruct (window_iter_cases df_v win stride)
    as [E|(t_min & t_max & _ & _ & E)]; rewrite E in H.
  - apply finished_yields_nothing in H. subst ws. destruct Hin.
  - apply In_nth_error in Hin. destruct Hin as [k Hk].
    destruct (running_windows _ _ _ _ _ _ _ H k w Hk) as (_ & _ & _ & Hc).
    rewrite Hc. cbn [select activity_column rows].
    split; [reflexivity|]. split; [reflexivity|].
    intro r. rewrite filter_In, mask_spec. reflexivity.
Qed.

Lemma window_chunk_is_half_open_witness :
  activity_column (chunk Scenario.long_window)
  = activity_column Scenario.series
  /\ rows (chunk Scenario.long_window)
     = filter (fun r => ts_ge (timestamp r) (t_start Scenario.long_window)
                        && ts_lt (timestamp r) (t_end Scenario.long_window))
              (rows Scenario.series)
  /\ forall r,
       In r (rows (chunk Scenario.long_window))
       <-> In r (rows Scenario.series)
           /\ exists t,
                timestamp r = Some t
                /\ t_start Scenario.long_window <= t
                   < t_end Scenario.long_window.
Proof.
  apply (window_chunk_is_half_open 2 Scenario.series 2500 500
           [Scenario.long_window] Scenario.long_window).
  - reflexivity.
  - left. reflexivity.
Defined.



(** X3. Every sample of a yielded window has a valid timestamp that is
    strictly earlier than the latest timestamp of the series: the samples
    at the latest instant, and the samples without a valid timestamp, are
    in no window. *)
Theorem latest_sample_in_no_window (fuel : nat) (df_v : DataFrame)
    (win stride : Z) (ws : list Window) (w : Window) (r : Row) :
  list_of fuel (window_iter df_v win stride) = Some ws ->
  In w ws ->
  In r (rows (chunk w)) ->
  exists t t_max,
    timestamp r = Some t
    /\ ts_max (map timestamp (rows df_v)) = Some t_max
    /\ t < t_max.
Proof.
  intros H Hin Hr.
  destruct (window_iter_cases df_v win stride)
    as [E|(t_min & t_max & _ & Hmax & E)]; rewrite E in H.
  - apply finished_yields_nothing in H. subst ws. destruct Hin.
  - apply In_nth_error in Hin. destruct Hin as [k Hk].
    destruct (running_windows _ _ _ _ _ _ _ H k w Hk) as (_ & _ & Hend & Hc).
    rewrite Hc in Hr. cbn [select rows] in Hr.
    apply filter_In in Hr. destruct Hr as [_ Hr].
    apply mask_spec in Hr. destruct Hr as (t & Ht & Hrange).
    exists t, t_max. split; [exact Ht|]. split; [exact Hmax|lia].
Qed.

Lemma latest_sample_in_no_window_witness :
  exists t t_max,
    timestamp (Scenario.sample 2000) = Some t
    /\ ts_max (map timestamp (rows Scenario.series)) = Some t_max
    /\ t < t_max.
Proof.
  apply (latest_sample_in_no_window 2 Scenario.series 2500 500
           [Scenario.long_window] Scenario.long_window).
  - reflexivity.
  - left. reflexivity.
  - cbn. tauto.
Defined.



(** X5. A series without a single valid timestamp yields no window,
    whatever the lengths. *)
Theorem invalid_timestamps_yield_no_window (df_v : DataFrame)
    (win stride : Z) :
  Forall (fun r => timestamp r = None) (rows df_v) ->
  window_iter df_v win stride = Finished
  /\ forall fuel, list_of (S fuel) (window_iter df_v win stride) = Some [].
Proof.
  intro Hall.
  assert (E : window_iter df_v win stride = Finished).
  { unfold window_iter. destruct (empty df_v); [reflexivity|].
    rewrite ts_min_all_nat; [reflexivity|].
    apply Forall_map. exact Hall. }
  rewrite E. split; reflexivity.
Qed.

Lemma invalid_timestamps_yield_no_window_witness :
  window_iter
    (mkDF true [mkRow 1 (Some "walking") None 1%R 0%R 0%R 0%R 0%R 0%R])
    2000 500
  = Finished.
Proof.
  apply (invalid_timestamps_yield_no_window
           (mkDF true [mkRow 1 (Some "walking") None 1%R 0%R 0%R 0%R 0%R 0%R])
           2000 500).
  repeat constructor.
Defined.

(** X22. With a stride that is positive and no longer than the window,
    the windows leave no gap: a sample of the series with a valid
    timestamp that is earlier than the end of some yielded window is in the
    subset of some yielded window. *)
Theorem no_gap_when_stride_fits_window (fuel : nat) (df_v : DataFrame)
    (win stride : Z) (ws : list Window) (w_far : Window) (r : Row) (t : Z) :
  0 < stride -> stride <= win ->
  list_of fuel (window_iter df_v win stride) = Some ws ->
  In r (rows df_v) ->
  timestamp r = Some t ->
  In w_far ws ->
  t < t_end w_far ->
  exists w, In w ws /\ In r (rows (chunk w)).
Proof.
  intros Hs Hsw H Hr Ht Hfar Hbefore.
  destruct (window_iter_cases df_v win stride)
    as [E|(t_min & t_max & Hmin & _ & E)]; rewrite E in H.
  { apply finished_yields_nothing in H. subst ws. destruct Hfar. }
  assert (Hge : t_min <= t).
  { destruct (ts_min_some (map timestamp (rows df_v)) t) as (a & Ea & Ha).
    - rewrite <- Ht. apply in_map, Hr.
    - rewrite Hmin in Ea. injection Ea as <-. exact Ha. }
  apply In_nth_error in Hfar. destruct Hfar as [k0 Hk0].
  destruct (running_windows _ _ _ _ _ _ _ H k0 w_far Hk0)
    as (Hs0 & He0 & _ & _).
  set (q := (t - t_min) / stride).
  assert (Hq : q * stride <= t - t_min < (q + 1) * stride).
  { unfold q. pose proof (Z.div_mod (t - t_min) stride ltac:(lia)).
    pose proof (Z.mod_pos_bound (t - t_min) stride Hs). nia. }
  assert (Hq0 : 0 <= q) by (unfold q; apply Z.div_pos; lia).
  set (k := Z.to_nat (Z.min q (Z.of_nat k0))).
  assert (Hk : (k <= k0)%nat) by (unfold k; lia).
  assert (Hlt : (k < List.length ws)%nat).
  { assert (k0 < List.length ws)%nat; [|lia].
    apply nth_error_Some. rewrite Hk0. discriminate. }
  destruct (nth_error ws k) as [w|] eqn:Ew;
    [|apply nth_error_None in Ew; lia].
  destruct (running_windows _ _ _ _ _ _ _ H k w Ew) as (Hs1 & He1 & _ & Hc).
  exists w. split; [apply (nth_error_In _ _ Ew)|].
  rewrite Hc. cbn [select rows]. apply filter_In. split; [exact Hr|].
  apply mask_spec. exists t. split; [exact Ht|].
  assert (Ek : Z.of_nat k = Z.min q (Z.of_nat k0)) by (unfold k; lia).
  rewrite He1, Hs1, Ek.
  destruct (Z.min_spec q (Z.of_nat k0)) as [[Hc1 ->]|[Hc1 ->]]; nia.
Qed.

Lemma no_gap_when_stride_fits_window_witness :
  exists w,
    In w [Scenario.long_window]
    /\ In (Scenario.sample 1500) (rows (chunk w)).
Proof.
  apply (no_gap_when_stride_fits_window 2 Scenario.series 2500 500
           [Scenario.long_window] Scenario.long_window
           (Scenario.sample 1500) 1500).
  - lia.
  - lia.
  - reflexivity.
  - cbn. tauto.
  - reflexivity.
  - left. reflexivity.
  - cbn. lia.
Defined.

(** X23. With a positive stride that is at least the window length, the
    windows do not overlap: no sample is in the subsets of two different
    yielded windows. *)
Theorem windows_disjoint_when_stride_covers_window (fuel : nat)
    (df_v : DataFrame) (win stride : Z) (ws : list Window)
    (i j : nat) (w1 w2 : Window) (r : Row) :
  0 < stride -> win <= stride ->
  list_of fuel (window_iter df_v win stride) = Some ws ->
  nth_error ws i = Some w1 ->
  nth_error ws j = Some w2 ->
  i <> j ->
  In r (rows (chunk w1)) ->
  ~ In r (rows (chunk w2)).
Proof.
  intros Hs Hws H H1 H2 Hij Hr1 Hr2.
  destruct (window_iter_cases df_v win stride)
    as [E|(t_min & t_max & _ & _ & E)]; rewrite E in H.
  { apply finished_yields_nothing in H. subst ws.
    destruct i; discriminate H1. }
  destruct (running_windows _ _ _ _ _ _ _ H i w1 H1) as (S1 & E1 & _ & C1).
  destruct (running_windows _ _ _ _ _ _ _ H j w2 H2) as (S2 & E2 & _ & C2).
  rewrite C1 in Hr1. rewrite C2 in Hr2. cbn [select rows] in Hr1, Hr2.
  apply filter_In in Hr1, Hr2.
  destruct Hr1 as [_ Hr1], Hr2 as [_ Hr2].
  apply mask_spec in Hr1, Hr2.
  destruct Hr1 as (t & Ht & Hin1), Hr2 as (t' & Ht' & Hin2).
  rewrite Ht in Ht'. injection Ht' as <-.
  rewrite E1, S1 in Hin1. rewrite E2, S2 in Hin2.
  assert (Hcases : (i < j)%nat \/ (j < i)%nat) by lia.
  destruct Hcases; nia.
Qed.

Lemma windows_disjoint_when_stride_covers_window_witness :
  exists ws w1 w2,
    list_of 3 (window_iter Scenario.series 1000 1000) = Some ws
    /\ nth_error ws 0 = Some w1
    /\ nth_error ws 1 = Some w2
    /\ In (Scenario.sample 500) (rows (chunk w1))
    /\ ~ In (Scenario.sample 500) (rows (chunk w2)).
Proof.
  eexists. eexists. eexists.
  split; [reflexivity|]. split; [reflexivity|]. split; [reflexivity|].
  split; [cbn; tauto|].
  refine (windows_disjoint_when_stride_covers_window 3 Scenario.series
            1000 1000 _ 0 1 _ _ (Scenario.sample 500) _ _ _ _ _ _ _).
  - lia.
  - lia.
  - reflexivity.
  - reflexivity.
  - reflexivity.
  - discriminate.
  - cbn. tauto.
Defined.

End SegmenterMore.

(** ** The feature extractor: what [_stats_for] and [_safe_corr] store *)

Module FeatureMore.

Import Np MakeWindows Layout.

Local Open Scope R_scope.

(** *** Assignments to a dictionary *)

Lemma get_set {V : Type} (d : Dict.dict V) (k q : string) (v : V) :
  Dict.get (Dict.set d k v) q
  = if String.eqb k q then Some v else Dict.get d q.
Proof.
  induction d as [|[k0 v0] d IH]; [reflexivity|].
  cbn [Dict.set]. destruct (String.eqb_spec k0 k) as [->|Hne].
  - cbn [Dict.get]. destruct (String.eqb k q); reflexivity.
  - cbn [Dict.get]. rewrite IH.
    destruct (String.eqb_spec k0 q) as [->|_]; [|reflexivity].
    destruct (String.eqb_spec k q) as [->|_]; [contradiction|reflexivity].
Qed.

Lemma get_fold_set (l : features) :
  NoDup (Dict.keys l) ->
  forall out,
    (forall e, In e l ->
               Dict.get (fold_left set_entry l out) (fst e) = Some (snd e))
    /\ (forall k, ~ In k (Dict.keys l) ->
                  Dict.get (fold_left set_entry l out) k = Dict.get out k).
Proof.
  induction l as [|[k1 v1] l IH]; intros Hnd out.
  - split; [intros e []|reflexivity].
  - inversion Hnd as [|? ? Hk1 Hl]; subst.
    destruct (IH Hl (Dict.set out k1 v1)) as [IHin IHout].
    cbn [fold_left]. unfold set_entry at 2 4. cbn [fst snd]. split.
    + intros e [<-|He]; [|apply IHin, He].
      cbn [fst snd]. rewrite (IHout k1 Hk1), get_set, String.eqb_refl.
      reflexivity.
    + intros k Hk. rewrite IHout.
      * rewrite get_set. destruct (String.eqb_spec k1 k) as [->|_];
          [|reflexivity].
        exfalso. apply Hk. left. reflexivity.
      * intro Hin. apply Hk. right. exact Hin.
Qed.

Lemma append_inj (n a b : string) : (n ++ a = n ++ b)%string -> a = b.
Proof.
  induction n as [|c n IH]; cbn; intro H; [exact H|].
  injection H as H. apply IH, H.
Qed.

Lemma NoDup_map_append (n : string) (l : list string) :
  NoDup l -> NoDup (map (fun s => (n ++ s)%string) l).
Proof.
  induction 1 as [|s l Hs _ IH]; cbn [map]; constructor; [|exact IH].
  intro Hin. apply in_map_iff in Hin. destruct Hin as (s' & E & Hs').
  apply append_inj in E. subst s'. apply Hs, Hs'.
Qed.

Lemma stats_keys_NoDup (name : string) (arr : list R) :
  NoDup (Dict.keys (stats_entries name arr)).
Proof.
  change (Dict.keys (stats_entries name arr))
    with (map (fun s => (name ++ s)%string)
              ["_mean"; "_std"; "_min"; "_max";
               "_p25"; "_p50"; "_p75"; "_energy"]).
  apply NoDup_map_append.
  assert (E : nodup string_dec
                  ["_mean"; "_std"; "_min"; "_max";
                   "_p25"; "_p50"; "_p75"; "_energy"]
                = ["_mean"; "_std"; "_min"; "_max";
                   "_p25"; "_p50"; "_p75"; "_energy"])
    by (vm_compute; reflexivity).
  rewrite <- E. apply NoDup_nodup.
Qed.

(** X6. [_stats_for] raises ValueError on an empty array.  On a non-empty
    array it returns a dictionary from which each of its eight entries is
    read back, an older value under one of these keys being replaced, and
    in which every other key has the value it had. *)
Theorem stats_for_writes_eight_entries (name : string) (arr : list R)
    (out : features) :
  (arr = [] -> _stats_for name arr out = Raise ValueError)
  /\ (arr <> [] ->
      exists out',
        _stats_for name arr out = Ok out'
        /\ (forall e, In e (stats_entries name arr) ->
                      Dict.get out' (fst e) = Some (snd e))
        /\ (forall k, ~ In k (Dict.keys (stats_entries name arr)) ->
                      Dict.get out' k = Dict.get out k)).
Proof.
  split.
  - intros ->. reflexivity.
  - intro Hne. eexists. split; [apply FeatureFacts.stats_for_sets, Hne|].
    apply get_fold_set, stats_keys_NoDup.
Qed.

Lemma stats_for_writes_eight_entries_witness :
  exists out',
    _stats_for "accel_x" [1; 2] [("accel_x_mean", Fin 7); ("other", NaN)]
    = Ok out'
    /\ (forall e, In e (stats_entries "accel_x" [1; 2]) ->
                  Dict.get out' (fst e) = Some (snd e))
    /\ (forall k, ~ In k (Dict.keys (stats_entries "accel_x" [1; 2])) ->
                  Dict.get out' k
                  = Dict.get [("accel_x_mean", Fin 7); ("other", NaN)] k).
Proof.
  apply (proj2 (stats_for_writes_eight_entries "accel_x" [1; 2]
                  [("accel_x_mean", Fin 7); ("other", NaN)])).
  discriminate.
Defined.

(** *** A single sample *)

Lemma percentile_single (x : R) (q : nat) : percentile [x] q = x.
Proof.
  unfold percentile. change (size [x] - 1)%nat with 0%nat.
  rewrite Nat.mul_0_l, Nat.Div0.div_0_l, Nat.Div0.mod_0_l.
  unfold sort. cbn [fold_right insert_sorted nth Nat.add INR].
  unfold Rdiv. ring.
Qed.

(** X7. For an array of a single value [x], [_stats_for] stores 0.0 as
    the standard deviation (it does not divide by [n - 1 = 0]), [x] as the
    mean, minimum, maximum and the three percentiles, and [x ^ 2] as the
    energy. *)
Theorem stats_for_single_sample (name : string) (x : R) (out : features) :
  exists out',
    _stats_for name [x] out = Ok out'
    /\ Dict.get out' (name ++ "_mean")%string = Some (Fin x)
    /\ Dict.get out' (name ++ "_std")%string = Some (Fin 0)
    /\ Dict.get out' (name ++ "_min")%string = Some (Fin x)
    /\ Dict.get out' (name ++ "_max")%string = Some (Fin x)
    /\ Dict.get out' (name ++ "_p25")%string = Some (Fin x)
    /\ Dict.get out' (name ++ "_p50")%string = Some (Fin x)
    /\ Dict.get out' (name ++ "_p75")%string = Some (Fin x)
    /\ Dict.get out' (name ++ "_energy")%string = Some (Fin (x ^ 2)).
Proof.
  eexists. split; [apply FeatureFacts.stats_for_sets; discriminate|].
  destruct (get_fold_set (stats_entries name [x])
              (stats_keys_NoDup name [x]) out) as [Hget _].
  assert (Hm : forall y, mean [y] = Fin y).
  { intro y. cbn [mean]. f_equal. unfold mean_of, size. cbn. field. }
  assert (E : stats_entries name [x]
              = [ ((name ++ "_mean")%string, Fin x);
                  ((name ++ "_std")%string, Fin 0);
                  ((name ++ "_min")%string, Fin x);
                  ((name ++ "_max")%string, Fin x);
                  ((name ++ "_p25")%string, Fin x);
                  ((name ++ "_p50")%string, Fin x);
                  ((name ++ "_p75")%string, Fin x);
                  ((name ++ "_energy")%string, Fin (x ^ 2)) ]).
  { unfold stats_entries. cbn [map]. rewrite !Hm, !percentile_single.
    reflexivity. }
  rewrite E in Hget |- *.
  repeat split.
  - apply (Hget ((name ++ "_mean")%string, Fin x)). cbn. tauto.
  - apply (Hget ((name ++ "_std")%string, Fin 0)). cbn. tauto.
  - apply (Hget ((name ++ "_min")%string, Fin x)). cbn. tauto.
  - apply (Hget ((name ++ "_max")%string, Fin x)). cbn. tauto.
  - apply (Hget ((name ++ "_p25")%string, Fin x)). cbn. tauto.
  - apply (Hget ((name ++ "_p50")%string, Fin x)). cbn. tauto.
  - apply (Hget ((name ++ "_p75")%string, Fin x)). cbn. tauto.
  - apply (Hget ((name ++ "_energy")%string, Fin (x ^ 2))). cbn. tauto.
Qed.

(** *** The guarded correlation *)

Lemma co_dev_sym (a b : list R) : co_dev a b = co_dev b a.
Proof.
  unfold co_dev. generalize (mean_of a) (mean_of b). intros ma mb.
  revert b. induction a as [|x a IH]; intros [|y b]; cbn; try reflexivity.
  rewrite IH. ring.
Qed.

Lemma corrcoef_sym (a b : list R) : corrcoef a b = corrcoef b a.
Proof.
  unfold corrcoef. rewrite (Nat.eqb_sym (size b) (size a)).
  destruct (Nat.eqb_spec (size a) (size b)) as [E|_]; [|reflexivity].
  cbn [negb]. rewrite <- E, (co_dev_sym b a).
  destruct (size a <=? 1)%nat; [reflexivity|].
  destruct (Req_dec_T (sq_dev a / INR (size a - 1)) 0);
    destruct (Req_dec_T (sq_dev b / INR (size a - 1)) 0); try reflexivity.
  do 3 f_equal. unfold Rdiv. ring.
Qed.

(** X8. In exact arithmetic, the guarded correlation does not depend on
    the order of its two arguments.  (In binary64 [np.corrcoef] divides by
    the two standard deviations one after the other, and the last digit
    can depend on the order.) *)
Theorem safe_corr_symmetric (a b : list R) :
  _safe_corr a b = _safe_corr b a.
Proof.
  unfold _safe_corr. rewrite corrcoef_sym.
  destruct (2 <? size a)%nat, (2 <? size b)%nat,
           (gt0 (std a 0)), (gt0 (std b 0)); reflexivity.
Qed.

(** X9. Whatever real number the guarded correlation returns lies between
    -1 and 1. *)
Theorem safe_corr_bounded (a b : list R) (r : R) :
  _safe_corr a b = Ok (Fin r) -> -1 <= r <= 1.
Proof.
  unfold _safe_corr.
  destruct (_ && _ && _ && _).
  - unfold corrcoef. destruct (negb _); [discriminate|].
    destruct (size a <=? 1)%nat; [discriminate|].
    destruct (Req_dec_T _ 0); [discriminate|].
    destruct (Req_dec_T _ 0); [discriminate|].
    intro H. injection H as <-. unfold clip. split.
    + apply Rmax_l.
    + apply Rmax_lub; [lra|apply Rmin_l].
  - intro H. injection H as <-. lra.
Qed.

Lemma safe_corr_bounded_witness :
  _safe_corr [1; 2] [3; 4] = Ok (Fin 0) /\ -1 <= 0 <= 1.
Proof.
  split; [reflexivity|].
  apply (safe_corr_bounded [1; 2] [3; 4] 0). reflexivity.
Defined.

(** *** Order between the statistics *)

Lemma fold_min_le (l : list R) :
  forall a, fold_left Rmin l a <= a
            /\ forall x, In x l -> fold_left Rmin l a <= x.
Proof.
  induction l as [|y l IH]; intro a; cbn [fold_left].
  - split; [lra|intros x []].
  - destruct (IH (Rmin a y)) as [H1 H2].
    pose proof (Rmin_l a y). pose proof (Rmin_r a y).
    split; [lra|]. intros x [<-|Hx]; [lra|apply H2, Hx].
Qed.

Lemma fold_max_ge (l : list R) :
  forall a, a <= fold_left Rmax l a
            /\ forall x, In x l -> x <= fold_left Rmax l a.
Proof.
  induction l as [|y l IH]; intro a; cbn [fold_left].
  - split; [lra|intros x []].
  - destruct (IH (Rmax a y)) as [H1 H2].
    pose proof (Rmax_l a y). pose proof (Rmax_r a y).
    split; [lra|]. intros x [<-|Hx]; [lra|apply H2, Hx].
Qed.

Lemma min_max_bound (arr : list R) (x : R) :
  In x arr -> min_of arr <= x <= max_of arr.
Proof.
  destruct arr as [|a arr]; [intros []|]. cbn [min_of max_of].
  destruct (fold_min_le arr a) as [Hm1 Hm2].
  destruct (fold_max_ge arr a) as [HM1 HM2].
  intros [<-|Hx]; [lra|]. split; [apply Hm2, Hx|apply HM2, Hx].
Qed.

Lemma sum_bound (lo hi : R) (a : list R) :
  (forall x, In x a -> lo <= x <= hi) ->
  INR (size a) * lo <= sum a <= INR (size a) * hi.
Proof.
  induction a as [|x a IH]; intro H.
  - cbn. lra.
  - change (size (x :: a)) with (S (size a)). rewrite S_INR. cbn [sum].
    destruct IH as [IH1 IH2]; [intros y Hy; apply H; right; exact Hy|].
    destruct (H x (or_introl eq_refl)). lra.
Qed.

Lemma in_insert_sorted (x y : R) (l : list R) :
  In x (insert_sorted y l) <-> x = y \/ In x l.
Proof.
  induction l as [|z l IH]; cbn [insert_sorted].
  - cbn. intuition.
  - destruct (Rle_dec y z); cbn [In]; [intuition|]. rewrite IH. intuition.
Qed.

Lemma in_sort (x : R) (a : list R) : In x (sort a) <-> In x a.
Proof.
  unfold sort. induction a as [|y a IH]; cbn [fold_right]; [tauto|].
  rewrite in_insert_sorted, IH. cbn. intuition.
Qed.

Lemma length_sort (a : list R) : List.length (sort a) = List.length a.
Proof.
  assert (H : forall y l,
             List.length (insert_sorted y l) = S (List.length l)).
  { intros y l. induction l as [|z l IH]; [reflexivity|].
    cbn [insert_sorted]. destruct (Rle_dec y z); cbn; [reflexivity|].
    now rewrite IH. }
  unfold sort. induction a as [|y a IH]; [reflexivity|].
  cbn [fold_right]. rewrite H, IH. reflexivity.
Qed.

(** The position that [percentile] interpolates at is inside the array. *)
Lemma percentile_position (n q : nat) :
  (0 < n)%nat -> (q <= 100)%nat -> (((n - 1) * q) / 100 < n)%nat.
Proof.
  intros Hn Hq.
  assert ((n - 1) * q / 100 <= n - 1)%nat; [|lia].
  apply Nat.Div0.div_le_upper_bound. nia.
Qed.

Lemma percentile_weight (p : nat) : 0 <= INR (p mod 100) / 100 < 1.
Proof.
  assert (Hlt : (p mod 100 < 100)%nat) by (apply Nat.mod_upper_bound; lia).
  assert (E : INR 100 = 100) by (rewrite INR_IZR_INZ; reflexivity).
  apply lt_INR in Hlt. rewrite E in Hlt.
  pose proof (pos_INR (p mod 100)) as Hpos.
  unfold Rdiv. lra.
Qed.

Lemma percentile_bound (arr : list R) (q : nat) :
  arr <> [] -> (q <= 100)%nat ->
  min_of arr <= percentile arr q <= max_of arr.
Proof.
  intros Hne Hq. unfold percentile.
  set (pos := ((size arr - 1) * q)%nat).
  set (lo := (pos / 100)%nat).
  assert (Hlo : (lo < List.length (sort arr))%nat).
  { rewrite length_sort. apply percentile_position; [|exact Hq].
    destruct arr; [contradiction|unfold size; cbn; lia]. }
  assert (Hin_lo : In (nth lo (sort arr) 0) arr).
  { apply in_sort, nth_In, Hlo. }
  set (x_lo := nth lo (sort arr) 0) in *.
  assert (Hin_hi : In (nth (lo + 1) (sort arr) x_lo) arr).
  { destruct (Nat.lt_ge_cases (lo + 1) (List.length (sort arr))) as [H|H].
    - apply in_sort, nth_In, H.
    - rewrite nth_overflow by exact H. exact Hin_lo. }
  set (x_hi := nth (lo + 1) (sort arr) x_lo) in *.
  pose proof (min_max_bound arr x_lo Hin_lo) as [Hl1 Hl2].
  pose proof (min_max_bound arr x_hi Hin_hi) as [Hh1 Hh2].
  pose proof (percentile_weight pos) as [Hg1 Hg2].
  set (g := INR (pos mod 100) / 100) in *.
  split; nra.
Qed.

Lemma mean_bound (arr : list R) :
  arr <> [] -> min_of arr <= mean_of arr <= max_of arr.
Proof.
  intro Hne. pose proof (FeatureFacts.size_pos arr Hne) as Hn.
  destruct (sum_bound (min_of arr) (max_of arr) arr (min_max_bound arr))
    as [H1 H2].
  unfold mean_of. split.
  - apply (Rmult_le_reg_r (INR (size arr))); [exact Hn|].
    unfold Rdiv. rewrite Rmult_assoc, Rinv_l by lra. lra.
  - apply (Rmult_le_reg_r (INR (size arr))); [exact Hn|].
    unfold Rdiv. rewrite Rmult_assoc, Rinv_l by lra. lra.
Qed.

(** The insertion sort behind [percentile] sorts. *)
Lemma insert_sorted_sorted (y : R) (l : list R) :
  StronglySorted Rle l -> StronglySorted Rle (insert_sorted y l).
Proof.
  induction 1 as [|z l Hl IH Hz]; cbn [insert_sorted].
  - repeat constructor.
  - destruct (Rle_dec y z) as [Hyz|Hzy].
    + constructor; [constructor; assumption|].
      constructor; [exact Hyz|].
      apply (Forall_impl _ (P := Rle z)); [intros x Hx; lra|exact Hz].
    + constructor; [exact IH|].
      apply Forall_forall. intros x Hx. apply in_insert_sorted in Hx.
      destruct Hx as [->|Hx]; [lra|].
      rewrite Forall_forall in Hz. apply Hz, Hx.
Qed.

Lemma sort_sorted (a : list R) : StronglySorted Rle (sort a).
Proof.
  unfold sort. induction a as [|y a IH]; cbn [fold_right];
    [constructor|apply insert_sorted_sorted, IH].
Qed.

Lemma sorted_nth (l : list R) :
  StronglySorted Rle l ->
  forall i j d, (i <= j)%nat -> (j < List.length l)%nat ->
                nth i l d <= nth j l d.
Proof.
  induction 1 as [|z l Hl IH Hz]; intros i j d Hij Hj; [cbn in Hj; lia|].
  destruct j as [|j].
  - replace i with 0%nat by lia. cbn. lra.
  - destruct i as [|i]; cbn [nth].
    + rewrite Forall_forall in Hz. apply Hz, nth_In. cbn in Hj. lia.
    + apply IH; [lia|cbn in Hj; lia].
Qed.

Lemma percentile_mono (arr : list R) (q1 q2 : nat) :
  arr <> [] -> (q1 <= q2)%nat -> (q2 <= 100)%nat ->
  percentile arr q1 <= percentile arr q2.
Proof.
  intros Hne H12 H2. unfold percentile.
  assert (Hn : (0 < size arr)%nat)
    by (destruct arr; [contradiction|unfold size; cbn; lia]).
  pose proof (sort_sorted arr) as Hs.
  pose proof (length_sort arr) as Hlen. fold (size arr) in Hlen.
  set (s := sort arr) in *.
  set (p1 := ((size arr - 1) * q1)%nat).
  set (p2 := ((size arr - 1) * q2)%nat).
  assert (Hp : (p1 <= p2)%nat) by (unfold p1, p2; nia).
  assert (Hlo1 : (p1 / 100 < size arr)%nat)
    by (apply percentile_position; lia).
  assert (Hlo2 : (p2 / 100 < size arr)%nat)
    by (apply percentile_position; lia).
  assert (Hle : (p1 / 100 <= p2 / 100)%nat)
    by (apply Nat.Div0.div_le_mono, Hp).
  assert (Hstep : forall lo,
             (lo < size arr)%nat ->
             nth lo s 0 <= nth (lo + 1) s (nth lo s 0)).
  { intros lo Hlo.
    destruct (Nat.lt_ge_cases (lo + 1) (List.length s)) as [H|H].
    - rewrite (nth_indep s (nth lo s 0) 0 H).
      apply sorted_nth; [exact Hs|lia|exact H].
    - rewrite (nth_overflow s (nth lo s 0) H). lra. }
  pose proof (percentile_weight p1) as [Hg1 Hg1'].
  pose proof (percentile_weight p2) as [Hg2 Hg2'].
  pose proof (Hstep _ Hlo1) as Hd1. pose proof (Hstep _ Hlo2) as Hd2.
  destruct (Nat.eq_dec (p1 / 100) (p2 / 100)) as [E|Hne12].
  - assert (Hm : (p1 mod 100 <= p2 mod 100)%nat).
    { pose proof (Nat.div_mod_eq p1 100). pose proof (Nat.div_mod_eq p2 100).
      lia. }
    apply le_INR in Hm. rewrite <- E in *.
    set (x_lo := nth (p1 / 100) s 0) in *.
    set (x_hi := nth (p1 / 100 + 1) s x_lo) in *.
    assert (Hg : INR (p1 mod 100) / 100 <= INR (p2 mod 100) / 100)
      by (unfold Rdiv; lra).
    nra.
  - assert (Hlt : (p1 / 100 + 1 <= p2 / 100)%nat) by lia.
    assert (Hmid : nth (p1 / 100 + 1) s (nth (p1 / 100) s 0)
                   <= nth (p2 / 100) s 0).
    { rewrite (nth_indep s (nth (p1 / 100) s 0) 0) by lia.
      apply sorted_nth; [exact Hs|exact Hlt|lia]. }
    set (a1 := nth (p1 / 100) s 0) in *.
    set (b1 := nth (p1 / 100 + 1) s a1) in *.
    set (a2 := nth (p2 / 100) s 0) in *.
    set (b2 := nth (p2 / 100 + 1) s a2) in *.
    nra.
Qed.

(** *** Reading the statistics of a channel off an accepted vector *)

Lemma mean_value (arr : list R) : arr <> [] -> mean arr = Fin (mean_of arr).
Proof. destruct arr; [contradiction|reflexivity]. Qed.

Lemma accepted_channels (chunk : DataFrame) :
  (5 <= len chunk)%nat ->
  exists out,
    featureize chunk = Ok out
    /\ forall name,
         In name SERIES ->
         exists arr,
           size arr = len chunk
           /\ forall e, In e (stats_entries name arr) ->
                        Dict.get out (fst e) = Some (snd e).
Proof.
  intro Hlen.
  destruct (FeatureFacts.featureize_accepts chunk Hlen)
    as (c_xy & c_xz & c_yz & _ & _ & _ & Hout).
  eexists. split; [exact Hout|]. intros name Hname.
  change SERIES with (map fst (channel_arrays chunk)) in Hname.
  apply in_map_iff in Hname. destruct Hname as ([name' arr] & <- & Hin).
  exists arr. split.
  - unfold channel_arrays, to_numpy, magnitude, size, len in *.
    cbn [In] in Hin.
    repeat (destruct Hin as [Hin|Hin];
            [injection Hin as _ <-; apply length_map|]).
    contradiction.
  - intros e He. apply (FeatureFacts.accepted_stats chunk _ _ _ _ arr e Hin He).
Qed.

(** X10. In every accepted feature vector, and for each of the eight
    series, the stored values are ordered
    [min <= p25 <= p50 <= p75 <= max], and the mean lies between the
    minimum and the maximum. *)
Theorem feature_statistics_are_ordered (chunk : DataFrame) :
  (5 <= len chunk)%nat ->
  exists out,
    featureize chunk = Ok out
    /\ forall name,
         In name SERIES ->
         exists mn p25 p50 p75 mx m,
           Dict.get out (name ++ "_min")%string = Some (Fin mn)
           /\ Dict.get out (name ++ "_p25")%string = Some (Fin p25)
           /\ Dict.get out (name ++ "_p50")%string = Some (Fin p50)
           /\ Dict.get out (name ++ "_p75")%string = Some (Fin p75)
           /\ Dict.get out (name ++ "_max")%string = Some (Fin mx)
           /\ Dict.get out (name ++ "_mean")%string = Some (Fin m)
           /\ mn <= p25 <= p50 /\ p50 <= p75 <= mx
           /\ mn <= m <= mx.
Proof.
  intro Hlen. destruct (accepted_channels chunk Hlen) as (out & Hout & Hall).
  exists out. split; [exact Hout|]. intros name Hname.
  destruct (Hall name Hname) as (arr & Hsz & Hget).
  assert (Hne : arr <> []) by (intros ->; cbn in Hsz; lia).
  exists (min_of arr), (percentile arr 25), (percentile arr 50),
    (percentile arr 75), (max_of arr), (mean_of arr).
  split; [apply (Hget (_, Fin (min_of arr))); cbn; tauto|].
  split; [apply (Hget (_, Fin (percentile arr 25))); cbn; tauto|].
  split; [apply (Hget (_, Fin (percentile arr 50))); cbn; tauto|].
  split; [apply (Hget (_, Fin (percentile arr 75))); cbn; tauto|].
  split; [apply (Hget (_, Fin (max_of arr))); cbn; tauto|].
  split.
  { rewrite <- (mean_value arr Hne).
    apply (Hget ((name ++ "_mean")%string, mean arr)). cbn. tauto. }
  destruct (percentile_bound arr 25 Hne) as [Hlo _]; [lia|].
  destruct (percentile_bound arr 75 Hne) as [_ Hhi]; [lia|].
  assert (H1 : percentile arr 25 <= percentile arr 50)
    by (apply percentile_mono; (exact Hne || lia)).
  assert (H2 : percentile arr 50 <= percentile arr 75)
    by (apply percentile_mono; (exact Hne || lia)).
  pose proof (mean_bound arr Hne) as Hm.
  repeat split; lra.
Qed.

Lemma feature_statistics_are_ordered_witness :
  exists out,
    featureize Scenario.series = Ok out
    /\ forall name,
         In name SERIES ->
         exists mn p25 p50 p75 mx m,
           Dict.get out (name ++ "_min")%string = Some (Fin mn)
           /\ Dict.get out (name ++ "_p25")%string = Some (Fin p25)
           /\ Dict.get out (name ++ "_p50")%string = Some (Fin p50)
           /\ Dict.get out (name ++ "_p75")%string = Some (Fin p75)
           /\ Dict.get out (name ++ "_max")%string = Some (Fin mx)
           /\ Dict.get out (name ++ "_mean")%string = Some (Fin m)
           /\ mn <= p25 <= p50 /\ p50 <= p75 <= mx
           /\ mn <= m <= mx.
Proof.
  apply (feature_statistics_are_ordered Scenario.series). cbn. lia.
Defined.

(** *** Standard deviation, energy and mean *)

Lemma sum_squared_deviations (m : R) (a : list R) :
  sum (map (fun x => (x - m) ^ 2) a)
  = sum (map (fun x => x ^ 2) a) - 2 * m * sum a + INR (size a) * m ^ 2.
Proof.
  induction a as [|x a IH].
  - cbn. ring.
  - change (size (x :: a)) with (S (size a)). rewrite S_INR.
    cbn [map sum]. rewrite IH. ring.
Qed.

Lemma sq_dev_energy (arr : list R) :
  arr <> [] ->
  sq_dev arr
  = INR (size arr)
    * (sum (map (fun x => x ^ 2) arr) / INR (size arr) - mean_of arr ^ 2).
Proof.
  intro Hne. pose proof (FeatureFacts.size_pos arr Hne) as Hn.
  unfold sq_dev. rewrite sum_squared_deviations. unfold mean_of.
  field. lra.
Qed.

(** X11. In every accepted feature vector, and for each of the eight
    series, the stored standard deviation [s], energy [e] and mean [m]
    satisfy [(n - 1) * s^2 = n * (e - m^2)] for the [n] samples of the
    window; so the standard deviation is not negative and the energy is at
    least the square of the mean. *)
Theorem feature_std_energy_mean (chunk : DataFrame) :
  (5 <= len chunk)%nat ->
  exists out,
    featureize chunk = Ok out
    /\ forall name,
         In name SERIES ->
         exists m s e,
           Dict.get out (name ++ "_mean")%string = Some (Fin m)
           /\ Dict.get out (name ++ "_std")%string = Some (Fin s)
           /\ Dict.get out (name ++ "_energy")%string = Some (Fin e)
           /\ INR (len chunk - 1) * s ^ 2 = INR (len chunk) * (e - m ^ 2)
           /\ 0 <= s
           /\ m ^ 2 <= e.
Proof.
  intro Hlen. destruct (accepted_channels chunk Hlen) as (out & Hout & Hall).
  exists out. split; [exact Hout|]. intros name Hname.
  destruct (Hall name Hname) as (arr & Hsz & Hget).
  assert (Hne : arr <> []) by (intros ->; cbn in Hsz; lia).
  pose proof (FeatureFacts.size_pos arr Hne) as Hn.
  assert (Hn1 : 0 < INR (size arr - 1)) by (apply lt_0_INR; lia).
  pose proof (FeatureFacts.sq_dev_nonneg arr) as Hsq.
  set (v := sq_dev arr / INR (size arr - 1)).
  assert (Hv : 0 <= v).
  { unfold v, Rdiv. apply Rmult_le_pos; [exact Hsq|].
    left. apply Rinv_0_lt_compat, Hn1. }
  exists (mean_of arr), (sqrt v),
    (sum (map (fun x => x ^ 2) arr) / INR (size arr)).
  split.
  { rewrite <- (mean_value arr Hne).
    apply (Hget ((name ++ "_mean")%string, mean arr)). cbn. tauto. }
  split.
  { replace (Fin (sqrt v))
      with (if (1 <? size arr)%nat then std arr 1 else Fin 0).
    - apply (Hget ((name ++ "_std")%string,
                   if (1 <? size arr)%nat then std arr 1 else Fin 0)).
      cbn. tauto.
    - destruct (Nat.ltb_spec 1 (size arr)); [|lia]. unfold std.
      destruct (Nat.leb_spec (size arr) 1); [lia|reflexivity]. }
  split.
  { rewrite <- (FeatureFacts.energy_value arr Hne).
    apply (Hget ((name ++ "_energy")%string,
                 mean (map (fun x => x ^ 2) arr))).
    cbn. tauto. }
  assert (Hs2 : sqrt v ^ 2 = v) by (apply pow2_sqrt, Hv).
  assert (Hid : INR (size arr - 1) * sqrt v ^ 2 = sq_dev arr).
  { rewrite Hs2. unfold v. field. lra. }
  rewrite <- Hsz. split; [|split].
  - rewrite Hid. apply sq_dev_energy, Hne.
  - apply sqrt_pos.
  - rewrite (sq_dev_energy arr Hne) in Hsq.
    assert (H0 : 0 <= sum (map (fun x => x ^ 2) arr) / INR (size arr)
                      - mean_of arr ^ 2).
    { apply (Rmult_le_reg_l (INR (size arr))); [exact Hn|]. lra. }
    lra.
Qed.

Lemma feature_std_energy_mean_witness :
  exists out,
    featureize Scenario.series = Ok out
    /\ forall name,
         In name SERIES ->
         exists m s e,
           Dict.get out (name ++ "_mean")%string = Some (Fin m)
           /\ Dict.get out (name ++ "_std")%string = Some (Fin s)
           /\ Dict.get out (name ++ "_energy")%string = Some (Fin e)
           /\ INR (len Scenario.series - 1) * s ^ 2
              = INR (len Scenario.series) * (e - m ^ 2)
           /\ 0 <= s
           /\ m ^ 2 <= e.
Proof.
  apply (feature_std_energy_mean Scenario.series). cbn. lia.
Defined.

End FeatureMore.

(** ** The feature extractor: the order of the samples *)

Module FeatureOrder.

Import Np MakeWindows Layout.

Local Open Scope R_scope.

Lemma sum_perm (a b : list R) : Permutation a b -> sum a = sum b.
Proof.
  induction 1 as [|x a b _ IH|x y a|a b c _ IH1 _ IH2]; cbn [sum];
    [reflexivity|rewrite IH; reflexivity|ring|congruence].
Qed.

Lemma size_perm (a b : list R) : Permutation a b -> size a = size b.
Proof. apply Permutation_length. Qed.

Lemma mean_of_perm (a b : list R) :
  Permutation a b -> mean_of a = mean_of b.
Proof.
  intro H. unfold mean_of. rewrite (sum_perm a b H), (size_perm a b H).
  reflexivity.
Qed.

Lemma mean_perm (a b : list R) : Permutation a b -> mean a = mean b.
Proof.
  intro H. pose proof (mean_of_perm a b H) as E.
  destruct a as [|x a], b as [|y b]; cbn [mean]; try reflexivity.
  - apply Permutation_nil_cons in H. destruct H.
  - apply Permutation_sym, Permutation_nil_cons in H. destruct H.
  - rewrite E. reflexivity.
Qed.

Lemma sq_dev_perm (a b : list R) : Permutation a b -> sq_dev a = sq_dev b.
Proof.
  intro H. unfold sq_dev. rewrite (mean_of_perm a b H).
  apply sum_perm, Permutation_map, H.
Qed.

Lemma std_perm (a b : list R) (ddof : nat) :
  Permutation a b -> std a ddof = std b ddof.
Proof.
  intro H. unfold std. rewrite (sq_dev_perm a b H), (size_perm a b H).
  reflexivity.
Qed.

Lemma fold_min_in (l : list R) :
  forall x, In (fold_left Rmin l x) (x :: l).
Proof.
  induction l as [|y l IH]; intro x; [left; reflexivity|].
  cbn [fold_left]. destruct (IH (Rmin x y)) as [E|H].
  - rewrite <- E. unfold Rmin. destruct (Rle_dec x y);
      [left|right; left]; reflexivity.
  - right. right. exact H.
Qed.

Lemma fold_max_in (l : list R) :
  forall x, In (fold_left Rmax l x) (x :: l).
Proof.
  induction l as [|y l IH]; intro x; [left; reflexivity|].
  cbn [fold_left]. destruct (IH (Rmax x y)) as [E|H].
  - rewrite <- E. unfold Rmax. destruct (Rle_dec x y);
      [right; left|left]; reflexivity.
  - right. right. exact H.
Qed.

Lemma min_max_perm (a b : list R) :
  Permutation a b -> min_of a = min_of b /\ max_of a = max_of b.
Proof.
  intro H. destruct a as [|x a], b as [|y b].
  - split; reflexivity.
  - apply Permutation_nil_cons in H. destruct H.
  - apply Permutation_sym, Permutation_nil_cons in H. destruct H.
  - assert (Ha : In (min_of (x :: a)) (x :: a) /\ In (max_of (x :: a)) (x :: a))
      by (split; [apply fold_min_in|apply fold_max_in]).
    assert (Hb : In (min_of (y :: b)) (y :: b) /\ In (max_of (y :: b)) (y :: b))
      by (split; [apply fold_min_in|apply fold_max_in]).
    destruct Ha as [Ha1 Ha2], Hb as [Hb1 Hb2].
    pose proof (FeatureMore.min_max_bound (y :: b) _
                  (Permutation_in _ H Ha1)).
    pose proof (FeatureMore.min_max_bound (y :: b) _
                  (Permutation_in _ H Ha2)).
    pose proof (FeatureMore.min_max_bound (x :: a) _
                  (Permutation_in _ (Permutation_sym H) Hb1)).
    pose proof (FeatureMore.min_max_bound (x :: a) _
                  (Permutation_in _ (Permutation_sym H) Hb2)).
    split; lra.
Qed.

Lemma insert_sorted_perm (y : R) (l : list R) :
  Permutation (insert_sorted y l) (y :: l).
Proof.
  induction l as [|z l IH]; cbn [insert_sorted]; [reflexivity|].
  destruct (Rle_dec y z); [reflexivity|].
  rewrite IH. apply perm_swap.
Qed.

Lemma sort_permutation (a : list R) : Permutation (sort a) a.
Proof.
  unfold sort. induction a as [|y a IH]; cbn [fold_right]; [reflexivity|].
  rewrite insert_sorted_perm, IH. reflexivity.
Qed.

Lemma sorted_unique (l1 : list R) :
  forall l2,
    StronglySorted Rle l1 -> StronglySorted Rle l2 ->
    Permutation l1 l2 -> l1 = l2.
Proof.
  induction l1 as [|x l1 IH]; intros l2 H1 H2 Hp.
  - apply Permutation_nil in Hp. symmetry. exact Hp.
  - destruct l2 as [|y l2];
      [apply Permutation_sym, Permutation_nil_cons in Hp; destruct Hp|].
    inversion H1 as [|? ? H1' Hx]; subst.
    inversion H2 as [|? ? H2' Hy]; subst.
    rewrite Forall_forall in Hx, Hy.
    assert (Hxy : x = y).
    { assert (Hxin : In x (y :: l2))
        by (apply (Permutation_in _ Hp); left; reflexivity).
      assert (Hyin : In y (x :: l1))
        by (apply (Permutation_in _ (Permutation_sym Hp)); left; reflexivity).
      destruct Hxin as [E|Hxin]; [symmetry; exact E|].
      destruct Hyin as [E|Hyin]; [exact E|].
      apply Rle_antisym; [apply Hx, Hyin|apply Hy, Hxin]. }
    subst y. f_equal. apply IH; [assumption|assumption|].
    apply (Permutation_cons_inv Hp).
Qed.

Lemma sort_perm (a b : list R) : Permutation a b -> sort a = sort b.
Proof.
  intro H. apply sorted_unique;
    [apply FeatureMore.sort_sorted|apply FeatureMore.sort_sorted|].
  rewrite !sort_permutation. exact H.
Qed.

Lemma percentile_perm (a b : list R) (q : nat) :
  Permutation a b -> percentile a q = percentile b q.
Proof.
  intro H. unfold percentile.
  rewrite (sort_perm a b H), (size_perm a b H). reflexivity.
Qed.

Lemma stats_entries_perm (name : string) (a b : list R) :
  Permutation a b -> stats_entries name a = stats_entries name b.
Proof.
  intro H. unfold stats_entries.
  destruct (min_max_perm a b H) as [-> ->].
  rewrite (mean_perm a b H), (size_perm a b H), (std_perm a b 1 H),
    !(percentile_perm a b _ H).
  rewrite (mean_perm (map (fun x => x ^ 2) a) (map (fun x => x ^ 2) b))
    by (apply Permutation_map, H).
  reflexivity.
Qed.

Lemma co_dev_rows (f g : Row -> R) (rs : list Row) :
  co_dev (map f rs) (map g rs)
  = sum (map (fun r => (f r - mean_of (map f rs))
                       * (g r - mean_of (map g rs))) rs).
Proof.
  unfold co_dev. generalize (mean_of (map f rs)) (mean_of (map g rs)).
  intros mf mg. induction rs as [|r rs IH]; [reflexivity|].
  cbn [map combine sum fst snd]. rewrite IH. reflexivity.
Qed.

Lemma safe_corr_perm (f g : Row -> R) (rs rs' : list Row) :
  Permutation rs rs' ->
  _safe_corr (map f rs) (map g rs) = _safe_corr (map f rs') (map g rs').
Proof.
  intro H.
  pose proof (Permutation_map f H) as Hf.
  pose proof (Permutation_map g H) as Hg.
  unfold _safe_corr, corrcoef.
  rewrite !co_dev_rows.
  rewrite (size_perm _ _ Hf), (size_perm _ _ Hg),
    (std_perm _ _ 0 Hf), (std_perm _ _ 0 Hg),
    (sq_dev_perm _ _ Hf), (sq_dev_perm _ _ Hg),
    (mean_of_perm _ _ Hf), (mean_of_perm _ _ Hg).
  rewrite (sum_perm _ _
             (Permutation_map
                (fun r => (f r - mean_of (map f rs'))
                          * (g r - mean_of (map g rs'))) H)).
  reflexivity.
Qed.

(** X21. The feature vector does not depend on the order of the samples
    in the subset (nor on their subject, activity or timestamp): two
    subsets whose rows are a permutation of each other get the same
    result. *)
Theorem featureize_ignores_sample_order (c c' : DataFrame) :
  Permutation (rows c) (rows c') -> featureize c = featureize c'.
Proof.
  intro H.
  assert (Hlen : len c = len c') by (apply Permutation_length, H).
  destruct (Nat.lt_ge_cases (len c) 5) as [Hlt|Hge].
  - rewrite !FeatureFacts.featureize_rejects by lia. reflexivity.
  - destruct (FeatureFacts.featureize_accepts c Hge)
      as (x1 & x2 & x3 & E1 & E2 & E3 & ->).
    destruct (FeatureFacts.featureize_accepts c')
      as (y1 & y2 & y3 & F1 & F2 & F3 & ->); [lia|].
    unfold to_numpy in E1, E2, E3, F1, F2, F3.
    rewrite (safe_corr_perm _ _ _ _ H), F1 in E1.
    rewrite (safe_corr_perm _ _ _ _ H), F2 in E2.
    rewrite (safe_corr_perm _ _ _ _ H), F3 in E3.
    injection E1 as <-. injection E2 as <-. injection E3 as <-.
    do 2 f_equal. unfold channel_arrays, to_numpy, magnitude.
    cbn [flat_map fst snd].
    rewrite !(stats_entries_perm _ _ _ (Permutation_map _ H)).
    reflexivity.
Qed.

Lemma featureize_ignores_sample_order_witness :
  featureize Scenario.series
  = featureize (mkDF false (rev (rows Scenario.series))).
Proof.
  apply (featureize_ignores_sample_order Scenario.series
           (mkDF false (rev (rows Scenario.series)))).
  apply Permutation_rev.
Defined.

(** X24. In exact arithmetic, on readings that are real numbers (none
    of them NaN): in every accepted feature vector the minimum of each
    magnitude channel is not negative (and with it, by the order between
    the statistics, every other statistic of the channel but the standard
    deviation, which is not negative either). *)
Theorem magnitude_channels_are_not_negative (chunk : DataFrame) :
  (5 <= len chunk)%nat ->
  exists out a g,
    featureize chunk = Ok out
    /\ Dict.get out "acc_mag_min" = Some (Fin a)
    /\ Dict.get out "gyro_mag_min" = Some (Fin g)
    /\ 0 <= a /\ 0 <= g.
Proof.
  intro Hlen.
  destruct (FeatureFacts.featureize_accepts chunk Hlen)
    as (c_xy & c_xz & c_yz & _ & _ & _ & Hout).
  assert (Hne : rows chunk <> []).
  { unfold len in Hlen.
    destruct (rows chunk); [cbn in Hlen; lia|discriminate]. }
  assert (Hpos : forall x y z : Row -> R,
             0 <= min_of (magnitude x y z chunk)).
  { intros x y z. unfold magnitude.
    destruct (rows chunk) as [|r0 rs]; [contradiction|].
    cbn [map min_of].
    destruct (fold_min_in
                (map (fun r => sqrt (x r ^ 2 + y r ^ 2 + z r ^ 2)) rs)
                (sqrt (x r0 ^ 2 + y r0 ^ 2 + z r0 ^ 2))) as [E|Hin].
    - rewrite <- E. apply sqrt_pos.
    - apply in_map_iff in Hin. destruct Hin as (r & <- & _). apply sqrt_pos. }
  eexists. exists (min_of (magnitude accel_x accel_y accel_z chunk)),
             (min_of (magnitude gyro_x gyro_y gyro_z chunk)).
  split; [exact Hout|].
  split.
  { apply (FeatureFacts.accepted_stats chunk _ _ _ "acc_mag"
             (magnitude accel_x accel_y accel_z chunk)
             ("acc_mag_min", Fin (min_of (magnitude accel_x accel_y accel_z
                                            chunk))));
      cbn; tauto. }
  split.
  { apply (FeatureFacts.accepted_stats chunk _ _ _ "gyro_mag"
             (magnitude gyro_x gyro_y gyro_z chunk)
             ("gyro_mag_min", Fin (min_of (magnitude gyro_x gyro_y gyro_z
                                             chunk))));
      cbn; tauto. }
  split; apply Hpos.
Qed.

Lemma magnitude_channels_are_not_negative_witness :
  exists out a g,
    featureize Scenario.series = Ok out
    /\ Dict.get out "acc_mag_min" = Some (Fin a)
    /\ Dict.get out "gyro_mag_min" = Some (Fin g)
    /\ 0 <= a /\ 0 <= g.
Proof.
  apply (magnitude_channels_are_not_negative Scenario.series). cbn. lia.
Defined.

End FeatureOrder.

(** ** The label resolver: ties and nulls *)

Module LabelMore.

Import MakeWindows Layout.

Lemma occurrences_in (v : string) (s : list (option string)) :
  (0 < occurrences v s)%nat <-> In (Some v) s.
Proof.
  induction s as [|[u|] s IH]; cbn [occurrences In].
  - split; [lia|intros []].
  - destruct (String.eqb_spec u v) as [->|Hne].
    + split; [intros _; left; reflexivity|lia].
    + rewrite IH. split; [tauto|].
      intros [E|H]; [injection E as ->; contradiction|exact H].
  - rewrite IH. split; [tauto|]. intros [E|H]; [discriminate E|exact H].
Qed.

(** X12. Whatever label the resolver returns, also when several values
    share the highest count, is the activity of some sample of the subset
    and no other value occurs more often. *)
Theorem majority_label_is_a_mode (chunk : DataFrame) (v : string) :
  majority_label chunk = Some v ->
  (exists r, In r (rows chunk) /\ activity r = Some v)
  /\ forall u,
       (occurrences u (map activity (rows chunk))
        <= occurrences v (map activity (rows chunk)))%nat.
Proof.
  intro H. destruct (LabelFacts.majority_label_is_maximal chunk v H)
    as [Hpos Hmax].
  split; [|exact Hmax].
  apply occurrences_in, in_map_iff in Hpos.
  destruct Hpos as (r & Hr & Hin). exists r. split; assumption.
Qed.

Lemma majority_label_is_a_mode_witness :
  (exists r, In r (rows Scenario.series) /\ activity r = Some "walking")
  /\ forall u,
       (occurrences u (map activity (rows Scenario.series))
        <= occurrences "walking" (map activity (rows Scenario.series)))%nat.
Proof.
  apply (majority_label_is_a_mode Scenario.series "walking"). reflexivity.
Defined.

(** Of two values with the same count, the resolver returns the one
    that appeared first. *)
Lemma majority_label_on_a_tie :
  majority_label Ward.tied = Some "walking".
Proof. reflexivity. Qed.

Lemma tally_skips_nulls (s : list (option string)) :
  forall t,
    tally (filter (fun a => match a with Some _ => true | None => false end)
                  s) t
    = tally s t.
Proof.
  induction s as [|[v|] s IH]; intro t; cbn [filter tally];
    [reflexivity|apply IH|apply IH].
Qed.

Lemma labelled_activities (rs : list Row) :
  map activity
      (filter (fun r => match activity r with
                        | Some _ => true
                        | None => false
                        end) rs)
  = filter (fun a => match a with Some _ => true | None => false end)
           (map activity rs).
Proof.
  induction rs as [|r rs IH]; [reflexivity|].
  cbn [map filter]. destruct (activity r) eqn:E; cbn [map];
    rewrite ?E, IH; reflexivity.
Qed.

(** X13. Samples whose activity is null do not vote: the resolver returns
    on a subset what it returns on the subset without those samples. *)
Theorem null_activities_do_not_vote (chunk : DataFrame) :
  majority_label
    (select (fun r => match activity r with
                      | Some _ => true
                      | None => false
                      end) chunk)
  = majority_label chunk.
Proof.
  unfold majority_label, select. cbn [rows].
  rewrite !LabelFacts.columns_activity. cbn [activity_column].
  destruct (activity_column chunk); [cbn [negb orb]|reflexivity].
  assert (Hc : value_counts
                 (map activity
                    (filter (fun r => match activity r with
                                      | Some _ => true
                                      | None => false
                                      end) (rows chunk)))
               = value_counts (map activity (rows chunk))).
  { unfold value_counts.
    rewrite labelled_activities, tally_skips_nulls. reflexivity. }
  unfold empty. cbn [rows]. rewrite Hc.
  destruct (filter _ (rows chunk)) as [|r rs] eqn:Ef.
  - destruct (rows chunk) as [|r0 rs0] eqn:Er; [reflexivity|].
    destruct (value_counts (map activity (r0 :: rs0))) as [|e l] eqn:Ev;
      [reflexivity|].
    exfalso.
    assert (Hin : In e (value_counts (map activity (r0 :: rs0))))
      by (rewrite Ev; left; reflexivity).
    destruct e as [u n]. apply LabelFacts.in_value_counts in Hin.
    destruct Hin as [-> Hpos]. apply occurrences_in, in_map_iff in Hpos.
    destruct Hpos as (r & Hr & Hin).
    assert (Hf : In r (filter (fun r => match activity r with
                                        | Some _ => true
                                        | None => false
                                        end) (r0 :: rs0))).
    { apply filter_In. split; [exact Hin|]. rewrite Hr. reflexivity. }
    rewrite Ef in Hf. destruct Hf.
  - destruct (rows chunk) as [|r0 rs0]; [discriminate Ef|reflexivity].
Qed.

End LabelMore.

(** ** The orchestrator: what reaches the table *)

Module OrchestratorMore.

Import MakeWindows Layout Run.



Lemma in_insert_key (k k0 : Z) (ks : list Z) :
  In k (insert_key k0 ks) <-> k = k0 \/ In k ks.
Proof.
  induction ks as [|k1 ks IH]; cbn [insert_key].
  - cbn. intuition.
  - destruct (Z.ltb_spec k0 k1); [cbn; intuition|].
    destruct (Z.eqb_spec k0 k1) as [->|_]; [cbn; intuition|].
    cbn [In]. rewrite IH. intuition.
Qed.




(** Where a window of [emitted] comes from. *)
Lemma in_emitted (fuel : nat) (cfg : Config) :
  forall groups vws vid win,
    emitted fuel cfg groups = Some vws ->
    In (vid, win) vws ->
    exists df_v ws,
      In (vid, df_v) groups
      /\ list_of fuel (window_iter (sort_values df_v) (WINDOW cfg)
                         (STRIDE cfg)) = Some ws
      /\ In win ws.
Proof.
  induction groups as [|[v df_v] groups IH]; intros vws vid win H Hin.
  - injection H as <-. destruct Hin.
  - cbn [emitted] in H.
    destruct (list_of fuel _) as [ws|] eqn:Ews; [|discriminate H].
    destruct (emitted fuel cfg groups) as [rest|] eqn:Er; [|discriminate H].
    injection H as <-. apply in_app_or in Hin. destruct Hin as [Hin|Hin].
    + apply in_map_iff in Hin. destruct Hin as (w0 & E & Hw0).
      injection E as <- <-. exists df_v, ws.
      split; [left; reflexivity|]. split; assumption.
    + destruct (IH rest vid win eq_refl Hin) as (d & ws' & Hd & Hl & Hw).
      exists d, ws'. split; [right; exact Hd|]. split; assumption.
Qed.


Lemma window_rows_length (vid : Z) (win : Window) :
  List.length (window_rows vid win)
  = if (5 <=? len (chunk win))%nat then 1%nat else 0%nat.
Proof.
  unfold window_rows.
  destruct (OrchestratorFacts.featureize_returns (chunk win))
    as (out & -> & Hempty).
  destruct (Nat.leb_spec 5 (len (chunk win))) as [Hge|Hlt].
  - destruct (Dict.is_empty out); [|reflexivity].
    pose proof (proj1 Hempty eq_refl). lia.
  - rewrite (proj2 Hempty Hlt). reflexivity.
Qed.

Lemma added_count (vws : list (Z * Window)) :
  List.length (flat_map (fun vw => window_rows (fst vw) (snd vw)) vws)
  = List.length (filter (fun vw => (5 <=? len (chunk (snd vw)))%nat) vws).
Proof.
  induction vws as [|[vid win] vws IH]; [reflexivity|].
  cbn [flat_map filter fst snd]. rewrite length_app, window_rows_length, IH.
  destruct (5 <=? len (chunk win))%nat; reflexivity.
Qed.

Lemma window_rows_keys (vid : Z) (win : Window) :
  map (fun row => (w_volunteer_id row, w_t_start row)) (window_rows vid win)
  = if (5 <=? len (chunk win))%nat then [(vid, t_start win)] else [].
Proof.
  pose proof (window_rows_length vid win) as Hlen.
  destruct (5 <=? len (chunk win))%nat.
  - destruct (window_rows vid win) as [|row [|row' l]] eqn:E;
      try discriminate Hlen.
    cbn [map].
    destruct (OrchestratorFacts.window_rows_row vid win row)
      as (_ & _ & _ & -> & -> & _); [rewrite E; left; reflexivity|].
    reflexivity.
  - destruct (window_rows vid win); [reflexivity|discriminate Hlen].
Qed.

Lemma window_rows_labels (vid : Z) (win : Window) :
  map w_label (window_rows vid win)
  = if (5 <=? len (chunk win))%nat then [majority_label (chunk win)] else [].
Proof.
  pose proof (window_rows_length vid win) as Hlen.
  destruct (5 <=? len (chunk win))%nat.
  - destruct (window_rows vid win) as [|row [|row' l]] eqn:E;
      try discriminate Hlen.
    cbn [map].
    destruct (OrchestratorFacts.window_rows_row vid win row)
      as (_ & _ & _ & _ & _ & _ & ->); [rewrite E; left; reflexivity|].
    reflexivity.
  - destruct (window_rows vid win); [reflexivity|discriminate Hlen].
Qed.

Lemma added_labels (vws : list (Z * Window)) :
  map w_label (flat_map (fun vw => window_rows (fst vw) (snd vw)) vws)
  = map (fun vw => majority_label (chunk (snd vw)))
        (filter (fun vw => (5 <=? len (chunk (snd vw)))%nat) vws).
Proof.
  induction vws as [|[vid win] vws IH]; [reflexivity|].
  cbn [flat_map filter fst snd]. rewrite map_app, window_rows_labels, IH.
  destruct (5 <=? len (chunk win))%nat; reflexivity.
Qed.

Lemma added_keys (vws : list (Z * Window)) :
  map (fun row => (w_volunteer_id row, w_t_start row))
      (flat_map (fun vw => window_rows (fst vw) (snd vw)) vws)
  = map (fun vw => (fst vw, t_start (snd vw)))
        (filter (fun vw => (5 <=? len (chunk (snd vw)))%nat) vws).
Proof.
  induction vws as [|[vid win] vws IH]; [reflexivity|].
  cbn [flat_map filter fst snd]. rewrite map_app, window_rows_keys, IH.
  destruct (5 <=? len (chunk win))%nat; reflexivity.
Qed.

(** A run on a raw table that is not empty, from what its generators
    yield. *)
Lemma run_of_emitted (fuel : nat) (cfg : Config) (w : World)
    (vws : list (Z * Window)) :
  raw_sensor_data w <> [] ->
  emitted fuel cfg (groupby (fetched w)) = Some vws ->
  exists w',
    main fuel cfg w = Some (Ok PyNone, w')
    /\ windows_table w'
       = Some (table_rows w
               ++ flat_map (fun vw => window_rows (fst vw) (snd vw)) vws).
Proof.
  intros Hraw Hem. rewrite OrchestratorFacts.main_spec.
  destruct (empty (fetched w)) eqn:He.
  { apply OrchestratorFacts.fetched_empty in He. contradiction. }
  rewrite Hem. cbv zeta. eexists. split; reflexivity.
Qed.

(** The rows that a run has added, from what its generators yielded. *)
Lemma added_by_a_run (fuel : nat) (cfg : Config) (w w' : World)
    (r : result pyvalue) (vws : list (Z * Window)) (added : list WindowRow) :
  raw_sensor_data w <> [] ->
  emitted fuel cfg (groupby (fetched w)) = Some vws ->
  main fuel cfg w = Some (r, w') ->
  windows_table w' = Some (table_rows w ++ added) ->
  added = flat_map (fun vw => window_rows (fst vw) (snd vw)) vws.
Proof.
  intros Hraw Hem. rewrite OrchestratorFacts.main_spec.
  destruct (empty (fetched w)) eqn:He.
  { apply OrchestratorFacts.fetched_empty in He. contradiction. }
  rewrite Hem. cbv zeta. intro H. injection H as <- <-.
  cbn [windows_table]. intro H. injection H as H.
  apply app_inv_head in H. symmetry. exact H.
Qed.

(** The ward with windows of two and a half seconds every half second:
    six windows are yielded, subject 1 first, and three of them have five
    samples. *)
Lemma ward_emitted :
  exists vws,
    emitted 5 Ward.windows (groupby (fetched Ward.world)) = Some vws
    /\ map (fun vw => (fst vw, t_start (snd vw), len (chunk (snd vw)))) vws
       = [ (1, 0, 5%nat); (1, 500, 5%nat);
           (2, 0, 5%nat); (2, 500, 4%nat); (2, 1000, 3%nat);
           (2, 1500, 2%nat) ]
    /\ map (fun vw => (fst vw, t_start (snd vw)))
           (filter (fun vw => (5 <=? len (chunk (snd vw)))%nat) vws)
       = [ (1, 0); (1, 500); (2, 0) ]
    /\ map (fun vw => majority_label (chunk (snd vw)))
           (filter (fun vw => (5 <=? len (chunk (snd vw)))%nat) vws)
       = [ Some "walking"; Some "walking"; Some "sitting" ].
Proof.
  eexists. split; [lazy -[IZR]; reflexivity|]. repeat split; reflexivity.
Qed.

Lemma ward_run :
  exists vws w',
    emitted 5 Ward.windows (groupby (fetched Ward.world)) = Some vws
    /\ List.length vws = 6%nat
    /\ main 5 Ward.windows Ward.world = Some (Ok PyNone, w')
    /\ forall added,
         windows_table w' = Some (table_rows Ward.world ++ added) ->
         added = flat_map (fun vw => window_rows (fst vw) (snd vw)) vws
         /\ map (fun row => (w_volunteer_id row, w_t_start row)) added
            = [ (1, 0); (1, 500); (2, 0) ]
         /\ map w_label added
            = [ Some "walking"; Some "walking"; Some "sitting" ]
         /\ List.length added = 3%nat.
Proof.
  destruct ward_emitted as (vws & Hem & Hall & Hfive & Hlabels).
  assert (Hraw : raw_sensor_data Ward.world <> []) by discriminate.
  destruct (run_of_emitted 5 Ward.windows Ward.world vws Hraw Hem)
    as (w' & Hrun & _).
  exists vws, w'. split; [exact Hem|]. split.
  { apply (f_equal (@List.length _)) in Hall. rewrite length_map in Hall.
    exact Hall. }
  split; [exact Hrun|]. intros added Htable.
  pose proof (added_by_a_run _ _ _ _ _ _ _ Hraw Hem Hrun Htable) as ->.
  split; [reflexivity|].
  assert (Hkeys : map (fun row => (w_volunteer_id row, w_t_start row))
                      (flat_map (fun vw => window_rows (fst vw) (snd vw)) vws)
                  = [ (1, 0); (1, 500); (2, 0) ])
    by (rewrite added_keys; exact Hfive).
  split; [exact Hkeys|].
  split; [rewrite added_labels; exact Hlabels|].
  apply (f_equal (@List.length _)) in Hkeys. rewrite length_map in Hkeys.
  exact Hkeys.
Qed.



(** X15. On a non-empty raw table, the total that a run prints is the
    number of windows, among all that its generators yielded, whose subset
    has at least 5 samples; that many rows were added to the table. *)
Theorem total_counts_the_windows_of_five (fuel : nat) (cfg : Config)
    (w w' : World) (r : result pyvalue) :
  main fuel cfg w = Some (r, w') ->
  raw_sensor_data w <> [] ->
  exists vws added,
    emitted fuel cfg (groupby (fetched w)) = Some vws
    /\ windows_table w' = Some (table_rows w ++ added)
    /\ List.length added
       = List.length
           (filter (fun vw => (5 <=? len (chunk (snd vw)))%nat) vws)
    /\ stdout w' = stdout w ++ [OK_created (List.length added)].
Proof.
  rewrite OrchestratorFacts.main_spec. intros H Hraw.
  destruct (empty (fetched w)) eqn:He.
  - apply OrchestratorFacts.fetched_empty in He. contradiction.
  - destruct (emitted fuel cfg _) as [vws|]; [|discriminate H].
    cbv zeta in H. injection H as <- <-.
    exists vws. eexists. cbn [windows_table stdout].
    split; [reflexivity|]. split; [reflexivity|].
    split; [apply added_count|reflexivity].
Qed.

Lemma total_counts_the_windows_of_five_witness :
  exists w' vws added,
    main 5 Ward.windows Ward.world = Some (Ok PyNone, w')
    /\ List.length vws = 6%nat
    /\ List.length added = 3%nat
    /\ emitted 5 Ward.windows (groupby (fetched Ward.world)) = Some vws
    /\ windows_table w' = Some (table_rows Ward.world ++ added)
    /\ List.length added
       = List.length
           (filter (fun vw => (5 <=? len (chunk (snd vw)))%nat) vws)
    /\ stdout w' = stdout Ward.world ++ [OK_created (List.length added)].
Proof.
  destruct ward_run as (vws0 & w' & Hem0 & Hsix & Hrun & Hadded).
  destruct (total_counts_the_windows_of_five _ _ _ _ _ Hrun)
    as (vws & added & Hem & Htable & H); [discriminate|].
  exists w', vws, added. split; [exact Hrun|].
  rewrite Hem0 in Hem. injection Hem as <-.
  split; [exact Hsix|]. split; [apply (Hadded added Htable)|].
  split; [exact Hem0|]. split; [exact Htable|exact H].
Defined.

Lemma fetched_depends_on_raw (w1 w2 : World) :
  raw_sensor_data w1 = raw_sensor_data w2 -> fetched w1 = fetched w2.
Proof.
  unfold fetched, fetch_raw_df. cbn [fst].
  change (raw_sensor_data (ensure_windows_table w1))
    with (raw_sensor_data w1).
  change (raw_sensor_data (ensure_windows_table w2))
    with (raw_sensor_data w2).
  intros ->. reflexivity.
Qed.

(** X16. A run never writes the raw table, and it is not idempotent: a
    second run on the store that the first one left adds the same rows
    once more, after the rows of the first run. *)
Theorem second_run_adds_the_rows_again (fuel : nat) (cfg : Config)
    (w w' : World) (r : result pyvalue) :
  main fuel cfg w = Some (r, w') ->
  raw_sensor_data w' = raw_sensor_data w
  /\ exists added w'',
       windows_table w' = Some (table_rows w ++ added)
       /\ main fuel cfg w' = Some (r, w'')
       /\ windows_table w'' = Some (table_rows w ++ added ++ added).
Proof.
  intro H.
  assert (Hraw : raw_sensor_data w' = raw_sensor_data w).
  { rewrite OrchestratorFacts.main_spec in H.
    destruct (empty (fetched w)); [injection H as <- <-; reflexivity|].
    destruct (emitted fuel cfg _); [|discriminate H].
    injection H as <- <-. reflexivity. }
  split; [exact Hraw|].
  pose proof (fetched_depends_on_raw w' w Hraw) as Hf.
  rewrite OrchestratorFacts.main_spec in H.
  rewrite OrchestratorFacts.main_spec, Hf.
  destruct (empty (fetched w)).
  - injection H as <- <-. exists []. eexists.
    cbn [windows_table]. rewrite app_nil_r.
    split; [reflexivity|]. split; [reflexivity|].
    unfold table_rows. cbn [windows_table].
    rewrite !app_nil_r. reflexivity.
  - destruct (emitted fuel cfg _) as [vws|]; [|discriminate H].
    cbv zeta in H |- *. injection H as <- <-.
    eexists. eexists. cbn [windows_table].
    split; [reflexivity|]. split; [reflexivity|].
    unfold table_rows. cbn [windows_table].
    rewrite <- app_assoc. reflexivity.
Qed.

Lemma second_run_adds_the_rows_again_witness :
  exists w',
    main 5 Ward.windows Ward.world = Some (Ok PyNone, w')
    /\ raw_sensor_data w' = raw_sensor_data Ward.world
    /\ exists added w'',
         windows_table w' = Some (table_rows Ward.world ++ added)
         /\ List.length added = 3%nat
         /\ main 5 Ward.windows w' = Some (Ok PyNone, w'')
         /\ windows_table w''
            = Some (table_rows Ward.world ++ added ++ added).
Proof.
  destruct ward_run as (vws & w' & _ & _ & Hrun & Hadded).
  destruct (second_run_adds_the_rows_again _ _ _ _ _ Hrun)
    as (Hraw & added & w'' & Htable & Hagain & Htwice).
  exists w'. split; [exact Hrun|]. split; [exact Hraw|].
  exists added, w''. split; [exact Htable|].
  split; [apply (Hadded added Htable)|]. split; [exact Hagain|exact Htwice].
Defined.




(** *** The order of the rows *)

Local Notation "'earlier_window'" :=
  (fun a b : Z * Window =>
     fst a < fst b
     \/ (fst a = fst b /\ t_start (snd a) < t_start (snd b)))
  (only parsing).

Local Notation "'earlier_row'" :=
  (fun a b : WindowRow =>
     w_volunteer_id a < w_volunteer_id b
     \/ (w_volunteer_id a = w_volunteer_id b /\ w_t_start a < w_t_start b))
  (only parsing).

Lemma insert_key_sorted (k : Z) (ks : list Z) :
  StronglySorted Z.lt ks -> StronglySorted Z.lt (insert_key k ks).
Proof.
  induction 1 as [|k1 ks Hks IH Hk1]; cbn [insert_key].
  - repeat constructor.
  - destruct (Z.ltb_spec k k1) as [Hlt|Hge].
    + constructor; [constructor; assumption|].
      constructor; [exact Hlt|].
      apply (Forall_impl _ (P := Z.lt k1)); [intros x Hx; lia|exact Hk1].
    + destruct (Z.eqb_spec k k1) as [_|Hne]; [constructor; assumption|].
      constructor; [exact IH|].
      apply Forall_forall. intros x Hx. apply in_insert_key in Hx.
      destruct Hx as [->|Hx]; [lia|].
      rewrite Forall_forall in Hk1. apply Hk1, Hx.
Qed.

Lemma groupby_keys_sorted (df : DataFrame) :
  StronglySorted Z.lt (map fst (groupby df)).
Proof.
  unfold groupby. rewrite map_map. cbn [fst]. rewrite map_id.
  induction (map volunteer_id (rows df)) as [|k l IH]; cbn [fold_right];
    [constructor|apply insert_key_sorted, IH].
Qed.

Lemma running_sorted (fuel : nat) :
  forall df_v win stride t_max t0 ws,
    0 < stride ->
    list_of fuel (Running df_v win stride t_max t0) = Some ws ->
    StronglySorted (fun a b => t_start a < t_start b) ws
    /\ Forall (fun w => t0 <= t_start w) ws.
Proof.
  induction fuel as [|fuel IH]; intros df_v win stride t_max t0 ws Hs H.
  - discriminate H.
  - cbn [list_of next] in H. destruct (t0 + win <=? t_max).
    + destruct (list_of fuel _) as [rest|] eqn:E; [|discriminate H].
      injection H as <-. destruct (IH _ _ _ _ _ _ Hs E) as [Hsorted Hge].
      split.
      * constructor; [exact Hsorted|].
        apply (Forall_impl _ (P := fun w => t0 + stride <= t_start w));
          [cbn; intros; lia|exact Hge].
      * constructor; [cbn; lia|].
        apply (Forall_impl _ (P := fun w => t0 + stride <= t_start w));
          [cbn; intros; lia|exact Hge].
    + injection H as <-. split; constructor.
Qed.

Lemma sorted_app {A : Type} (R : A -> A -> Prop) (l1 l2 : list A) :
  StronglySorted R l1 -> StronglySorted R l2 ->
  (forall a b, In a l1 -> In b l2 -> R a b) ->
  StronglySorted R (l1 ++ l2).
Proof.
  induction 1 as [|x l1 Hl1 IH Hx]; intros H2 Hcross; [exact H2|].
  cbn [app]. constructor.
  - apply IH; [exact H2|]. intros a b Ha Hb. apply Hcross; [right|]; assumption.
  - apply Forall_app. split; [exact Hx|].
    apply Forall_forall. intros b Hb.
    apply Hcross; [left; reflexivity|exact Hb].
Qed.

Lemma emitted_sorted (fuel : nat) (cfg : Config) :
  0 < STRIDE cfg ->
  forall groups vws,
    StronglySorted Z.lt (map fst groups) ->
    emitted fuel cfg groups = Some vws ->
    StronglySorted earlier_window vws.
Proof.
  intros Hs. induction groups as [|[vid df_v] groups IH]; intros vws Hk H.
  - injection H as <-. constructor.
  - cbn [emitted] in H.
    destruct (list_of fuel _) as [ws|] eqn:Ews; [|discriminate H].
    destruct (emitted fuel cfg groups) as [rest|] eqn:Er; [|discriminate H].
    injection H as <-. cbn [map fst] in Hk.
    inversion Hk as [|? ? Hks Hvid]; subst. apply sorted_app.
    + assert (Hsorted : StronglySorted (fun a b => t_start a < t_start b) ws).
      { destruct (SegmenterMore.window_iter_cases (sort_values df_v)
                    (WINDOW cfg) (STRIDE cfg))
          as [E|(t_min & t_max & _ & _ & E)]; rewrite E in Ews.
        - apply SegmenterMore.finished_yields_nothing in Ews. subst ws.
          constructor.
        - apply (running_sorted _ _ _ _ _ _ _ Hs Ews). }
      clear -Hsorted. induction Hsorted as [|x l Hl IH Hx]; cbn [map];
        constructor; [exact IH|].
      apply Forall_map.
      apply (Forall_impl _ (P := fun b => t_start x < t_start b));
        [cbn; intros; right; split; [reflexivity|assumption]|exact Hx].
    + apply IH; [exact Hks|reflexivity].
    + intros a [v win] Ha Hb. apply in_map_iff in Ha.
      destruct Ha as (w0 & <- & _). cbn [fst snd]. left.
      destruct (in_emitted _ _ _ _ _ _ Er Hb) as (d & _ & Hd & _).
      rewrite Forall_forall in Hvid. apply Hvid.
      apply (in_map fst) in Hd. exact Hd.
Qed.

Lemma window_rows_at_most_one (vid : Z) (win : Window) :
  (List.length (window_rows vid win) <= 1)%nat.
Proof.
  rewrite window_rows_length. destruct (5 <=? len (chunk win))%nat; lia.
Qed.

Lemma added_sorted (vws : list (Z * Window)) :
  StronglySorted earlier_window vws ->
  StronglySorted earlier_row
    (flat_map (fun vw => window_rows (fst vw) (snd vw)) vws).
Proof.
  assert (Hkey : forall vid win row,
             In row (window_rows vid win) ->
             w_volunteer_id row = vid /\ w_t_start row = t_start win).
  { intros vid win row Hrow.
    destruct (OrchestratorFacts.window_rows_row vid win row Hrow)
      as (_ & _ & _ & Hv & Hs & _). split; assumption. }
  induction 1 as [|[vid win] vws Hsorted IH Hx]; cbn [flat_map];
    [constructor|].
  cbn [fst snd]. apply sorted_app.
  - pose proof (window_rows_at_most_one vid win) as H1.
    destruct (window_rows vid win) as [|r0 [|r1 l]];
      [constructor|repeat constructor|cbn in H1; lia].
  - exact IH.
  - intros a b Ha Hb. apply in_flat_map in Hb.
    destruct Hb as ([v' win'] & Hvw & Hb). cbn [fst snd] in Hb.
    destruct (Hkey _ _ _ Ha) as [-> ->]. destruct (Hkey _ _ _ Hb) as [-> ->].
    rewrite Forall_forall in Hx. exact (Hx (v', win') Hvw).
Qed.

Lemma sorted_rows_distinct (l : list WindowRow) :
  StronglySorted earlier_row l ->
  NoDup (map (fun row => (w_volunteer_id row, w_t_start row)) l).
Proof.
  induction 1 as [|x l Hl IH Hx]; cbn [map]; constructor; [|exact IH].
  intro Hin. apply in_map_iff in Hin. destruct Hin as (y & E & Hy).
  injection E as Ev Et. rewrite Forall_forall in Hx.
  specialize (Hx y Hy). cbn beta in Hx. lia.
Qed.

(** X18. With a positive stride, the rows that a run adds are in the
    order of the table's index: by ascending [volunteer_id], and for one
    subject by ascending [t_start]; no two of them have the same
    [(volunteer_id, t_start)]. *)
Theorem added_rows_are_in_index_order (fuel : nat) (cfg : Config)
    (w w' : World) (r : result pyvalue) :
  0 < STRIDE cfg ->
  main fuel cfg w = Some (r, w') ->
  exists added,
    windows_table w' = Some (table_rows w ++ added)
    /\ StronglySorted
         (fun a b =>
            w_volunteer_id a < w_volunteer_id b
            \/ (w_volunteer_id a = w_volunteer_id b
                /\ w_t_start a < w_t_start b))
         added
    /\ NoDup (map (fun row => (w_volunteer_id row, w_t_start row)) added).
Proof.
  intros Hs. rewrite OrchestratorFacts.main_spec.
  destruct (empty (fetched w)).
  - intro H. injection H as <- <-. exists []. cbn [windows_table].
    rewrite app_nil_r. split; [reflexivity|]. split; constructor.
  - destruct (emitted fuel cfg _) as [vws|] eqn:Hem; [|discriminate].
    cbv zeta. intro H. injection H as <- <-.
    eexists. cbn [windows_table]. split; [reflexivity|].
    assert (Hsorted : StronglySorted earlier_row
              (flat_map (fun vw => window_rows (fst vw) (snd vw)) vws)).
    { apply added_sorted.
      apply (emitted_sorted fuel cfg Hs _ _ (groupby_keys_sorted _) Hem). }
    split; [exact Hsorted|apply sorted_rows_distinct, Hsorted].
Qed.

Lemma added_rows_are_in_index_order_witness :
  exists w' added,
    main 5 Ward.windows Ward.world = Some (Ok PyNone, w')
    /\ windows_table w' = Some (table_rows Ward.world ++ added)
    /\ map (fun row => (w_volunteer_id row, w_t_start row)) added
       = [ (1, 0); (1, 500); (2, 0) ]
    /\ StronglySorted
         (fun a b =>
            w_volunteer_id a < w_volunteer_id b
            \/ (w_volunteer_id a = w_volunteer_id b
                /\ w_t_start a < w_t_start b))
         added
    /\ NoDup (map (fun row => (w_volunteer_id row, w_t_start row)) added).
Proof.
  destruct ward_run as (vws & w' & _ & _ & Hrun & Hadded).
  destruct (added_rows_are_in_index_order 5 Ward.windows
              Ward.world w' (Ok PyNone))
    as (added & Htable & H); [cbn; lia|exact Hrun|].
  exists w', added. split; [exact Hrun|]. split; [exact Htable|].
  split; [apply (Hadded added Htable)|exact H].
Defined.

(** *** Small data sets *)

Lemma insert_by_length {A : Type} (le : A -> A -> bool) (x : A) (l : list A) :
  List.length (insert_by le x l) = S (List.length l).
Proof.
  induction l as [|y l IH]; [reflexivity|]. cbn [insert_by].
  destruct (le x y); cbn; [reflexivity|]. now rewrite IH.
Qed.

Lemma sort_by_length {A : Type} (le : A -> A -> bool) (l : list A) :
  List.length (sort_by le l) = List.length l.
Proof.
  unfold sort_by. induction l as [|x l IH]; [reflexivity|].
  cbn [fold_right]. rewrite insert_by_length, IH. reflexivity.
Qed.

Lemma filter_insert_by {A : Type} (le : A -> A -> bool) (p : A -> bool)
    (x : A) (l : list A) :
  List.length (filter p (insert_by le x l))
  = List.length (filter p (x :: l)).
Proof.
  induction l as [|y l IH]; [reflexivity|]. cbn [insert_by].
  destruct (le x y); [reflexivity|].
  cbn [filter] in IH |- *. destruct (p y), (p x); cbn [List.length] in *; lia.
Qed.

Lemma filter_sort_by_length {A : Type} (le : A -> A -> bool) (p : A -> bool)
    (l : list A) :
  List.length (filter p (sort_by le l)) = List.length (filter p l).
Proof.
  unfold sort_by. induction l as [|x l IH]; [reflexivity|].
  cbn [fold_right]. rewrite filter_insert_by. cbn [filter].
  destruct (p x); cbn [List.length]; rewrite IH; reflexivity.
Qed.

Lemma filter_shorter {A : Type} (p : A -> bool) (l : list A) :
  (List.length (filter p l) <= List.length l)%nat.
Proof.
  induction l as [|x l IH]; [cbn; lia|]. cbn [filter].
  destruct (p x); cbn [List.length]; lia.
Qed.

(** X25. When no subject has as many as 5 samples in the raw table, a run
    that returns has added no row, and the total it prints is 0. *)
Theorem nothing_persisted_without_five_samples (fuel : nat) (cfg : Config)
    (w w' : World) (r : result pyvalue) :
  (forall vid,
     (List.length (filter (fun s => (volunteer_id s =? vid)%Z)
                          (raw_sensor_data w)) < 5)%nat) ->
  raw_sensor_data w <> [] ->
  main fuel cfg w = Some (r, w') ->
  windows_table w' = Some (table_rows w)
  /\ stdout w' = stdout w ++ [OK_created 0].
Proof.
  intros Hsmall Hraw. rewrite OrchestratorFacts.main_spec.
  destruct (empty (fetched w)) eqn:He.
  { apply OrchestratorFacts.fetched_empty in He. contradiction. }
  destruct (emitted fuel cfg _) as [vws|] eqn:Hem; [|discriminate].
  cbv zeta. intro H. injection H as <- <-. cbn [windows_table stdout].
  assert (Hnone : flat_map (fun vw => window_rows (fst vw) (snd vw)) vws = []).
  { apply length_zero_iff_nil. rewrite added_count.
    apply length_zero_iff_nil.
    assert (Hall : forall vw, In vw vws ->
                              (5 <=? len (chunk (snd vw)))%nat = false).
    { intros [vid win] Hin. cbn [snd]. apply Nat.leb_gt.
      destruct (in_emitted _ _ _ _ _ _ Hem Hin) as (df_v & ws & Hg & Hl & Hw).
      assert (Hdf : df_v
                    = select (fun s => volunteer_id s =? vid) (fetched w)).
      { unfold groupby in Hg. apply in_map_iff in Hg.
        destruct Hg as (k & E & _). injection E as -> <-. reflexivity. }
      destruct (SegmenterMore.window_iter_cases (sort_values df_v)
                  (WINDOW cfg) (STRIDE cfg))
        as [E|(t_min & t_max & _ & _ & E)]; rewrite E in Hl.
      { apply SegmenterMore.finished_yields_nothing in Hl. subst ws.
        destruct Hw. }
      apply In_nth_error in Hw. destruct Hw as [k Hk].
      destruct (SegmenterMore.running_windows _ _ _ _ _ _ _ Hl k win Hk)
        as (_ & _ & _ & ->).
      unfold len, select, sort_values. cbn [rows].
      eapply Nat.le_lt_trans; [apply filter_shorter|].
      rewrite sort_by_length, Hdf. unfold select, fetched, fetch_raw_df.
      cbn [rows fst]. rewrite filter_sort_by_length. apply Hsmall. }
    clear -Hall. induction vws as [|vw vws IH]; [reflexivity|].
    cbn [filter]. rewrite (Hall vw (or_introl eq_refl)). apply IH.
    intros vw' Hvw'. apply Hall. right. exact Hvw'. }
  rewrite Hnone, app_nil_r. split; reflexivity.
Qed.

Lemma nothing_persisted_without_five_samples_witness :
  exists w',
    main 1 Scenario.short_windows
      (mkWorld [Scenario.sample 0; Scenario.sample 500] None [] [])
    = Some (Ok PyNone, w')
    /\ windows_table w' = Some []
    /\ stdout w' = [OK_created 0].
Proof.
  assert (Hrun : exists w',
             main 1 Scenario.short_windows
               (mkWorld [Scenario.sample 0; Scenario.sample 500] None [] [])
             = Some (Ok PyNone, w'))
    by (eexists; reflexivity).
  destruct Hrun as [w' Hrun]. exists w'. split; [exact Hrun|].
  apply (nothing_persisted_without_five_samples 1 Scenario.short_windows
           (mkWorld [Scenario.sample 0; Scenario.sample 500] None [] [])
           w' (Ok PyNone)).
  - intro vid. cbn [raw_sensor_data filter Scenario.sample volunteer_id].
    destruct (1 =? vid); cbn; lia.
  - discriminate.
  - exact Hrun.
Defined.

End OrchestratorMore.

(** ** The raw loader: all or nothing, and the shape of the tuples *)

Module LoaderMore.

Import LoadRaw.

Section Loader.

Variable parse_datetime : string -> option Z.

Lemma index_of_some (c : string) (header : list string) (i : nat) :
  index_of c header = Some i -> nth_error header i = Some c.
Proof.
  revert i. induction header as [|h header IH]; intros i H; [discriminate H|].
  cbn [index_of] in H. destruct (String.eqb_spec h c) as [->|_].
  - injection H as <-. reflexivity.
  - destruct (index_of c header) as [k|]; [|discriminate H].
    injection H as <-. cbn. apply IH. reflexivity.
Qed.

Lemma positions_spec (header : list string) :
  forall cols idx,
    positions cols header = Ok idx ->
    List.length idx = List.length cols
    /\ forall j c,
         nth_error cols j = Some c ->
         exists i, nth_error idx j = Some i /\ index_of c header = Some i.
Proof.
  induction cols as [|c0 cols IH]; intros idx H.
  - injection H as <-. split; [reflexivity|].
    intros [|j] c Hj; discriminate Hj.
  - cbn [positions] in H.
    destruct (index_of c0 header) as [i0|] eqn:E0; [|discriminate H].
    destruct (positions cols header) as [rest|] eqn:Er; [|discriminate H].
    cbn [bind] in H. injection H as <-.
    destruct (IH rest eq_refl) as [Hlen Hall]. split; [cbn; lia|].
    intros [|j] c Hj.
    + injection Hj as <-. exists i0. split; [reflexivity|exact E0].
    + cbn [nth_error] in Hj |- *. apply Hall, Hj.
Qed.

Lemma nth_update_nth {A : Type} (f : A -> A) (d : A) (l : list A) :
  forall k i,
    (k < List.length l)%nat ->
    nth i (update_nth k f l) d
    = if (i =? k)%nat then f (nth k l d) else nth i l d.
Proof.
  induction l as [|x l IH]; intros k i Hk; [cbn in Hk; lia|].
  destruct k as [|k]; destruct i as [|i]; cbn [update_nth nth Nat.eqb];
    try reflexivity.
  apply IH. cbn in Hk. lia.
Qed.

(** What the loader does with a file that has every required column. *)
Lemma load_complete (path_csv : string) (w : World) (df : CsvFrame) :
  Dict.get (files w) path_csv = Some df ->
  (forall c, In c REQUIRED_COLS -> In c (csv_columns df)) ->
  exists i_ts idx,
    index_of "timestamp" (csv_columns df) = Some i_ts
    /\ positions REQUIRED_COLS (csv_columns df) = Ok idx
    /\ let tuples :=
         map (fun record => map (fun i => nth i record (Text "")) idx)
             (map (update_nth i_ts (to_datetime parse_datetime))
                  (csv_rows df)) in
       load_csv_to_raw parse_datetime path_csv w
       = if existsb has_NaT tuples
         then (Raise DataError,
               mkWorld (files w) (raw_sensor_data w) (stdout w)
                 (executed w ++ [InsertRaw tuples; Rollback]))
         else (Ok tt,
               mkWorld (files w) (raw_sensor_data w ++ tuples)
                 (stdout w ++ [OK_inserted (List.length tuples) path_csv])
                 (executed w ++ [InsertRaw tuples; Commit])).
Proof.
  intros Hfile Hall. unfold load_csv_to_raw. rewrite Hfile.
  destruct (filter _ REQUIRED_COLS) as [|m missing] eqn:E.
  2:{ exfalso. assert (Hm : In m (m :: missing)) by (left; reflexivity).
      rewrite <- E in Hm. apply LoaderFacts.missing_columns in Hm.
      destruct Hm as [Hreq Hnin]. apply Hnin, Hall, Hreq. }
  destruct (LoaderFacts.positions_present (csv_columns df) ["timestamp"])
    as (its & Hits & _).
  { intros c [<-|[]]. apply Hall. cbn. tauto. }
  cbn [positions] in Hits.
  destruct (index_of "timestamp" (csv_columns df)) as [i_ts|] eqn:Ets;
    [|discriminate Hits].
  destruct (LoaderFacts.positions_present (csv_columns df) REQUIRED_COLS Hall)
    as (idx & Hidx & _).
  exists i_ts, idx. split; [reflexivity|]. split; [exact Hidx|].
  unfold convert_timestamp. rewrite Ets. cbn [bind].
  unfold itertuples. cbn [csv_columns csv_rows]. rewrite Hidx.
  reflexivity.
Qed.

(** A call that returns normally had a file with every required
    column. *)
Lemma returns_on_complete_file (path_csv : string) (w : World) :
  fst (load_csv_to_raw parse_datetime path_csv w) = Ok tt ->
  exists df,
    Dict.get (files w) path_csv = Some df
    /\ forall c, In c REQUIRED_COLS -> In c (csv_columns df).
Proof.
  unfold load_csv_to_raw.
  destruct (Dict.get (files w) path_csv) as [df|]; [|discriminate].
  destruct (filter (fun c => negb (existsb (String.eqb c) (csv_columns df)))
                   REQUIRED_COLS) as [|m missing] eqn:E; [|discriminate].
  intros _. exists df. split; [reflexivity|]. intros c Hc.
  destruct (in_dec string_dec c (csv_columns df)) as [H|H]; [exact H|].
  exfalso. assert (Hm : In c []); [|destruct Hm].
  rewrite <- E. apply LoaderFacts.missing_columns. split; assumption.
Qed.



(** X20. When a call returns normally on a file each record of which has
    a cell per column, the [k]-th appended tuple comes from the [k]-th
    record and has nine cells: the [j]-th is the record's cell under the
    [j]-th required column, wherever that column stands in the file, and
    the timestamp cell has gone through [to_datetime]. *)
Theorem inserted_tuples_follow_required_columns (path_csv : string)
    (w : World) (df : CsvFrame) :
  fst (load_csv_to_raw parse_datetime path_csv w) = Ok tt ->
  Dict.get (files w) path_csv = Some df ->
  Forall (fun record => List.length record = List.length (csv_columns df))
         (csv_rows df) ->
  exists tuples,
    raw_sensor_data (snd (load_csv_to_raw parse_datetime path_csv w))
    = raw_sensor_data w ++ tuples
    /\ List.length tuples = List.length (csv_rows df)
    /\ forall k record tuple,
         nth_error (csv_rows df) k = Some record ->
         nth_error tuples k = Some tuple ->
         List.length tuple = 9%nat
         /\ forall j c i,
              nth_error REQUIRED_COLS j = Some c ->
              index_of c (csv_columns df) = Some i ->
              nth_error tuple j
              = Some (if String.eqb c "timestamp"
                      then to_datetime parse_datetime
                             (nth i record (Text ""))
                      else nth i record (Text "")).
Proof.
  intros Hok Hfile Hwf.
  destruct (returns_on_complete_file path_csv w Hok) as (df' & Hfile' & Hall).
  rewrite Hfile in Hfile'. injection Hfile' as <-.
  destruct (load_complete path_csv w df Hfile Hall)
    as (i_ts & idx & Hts & Hidx & Hload).
  cbv zeta in Hload. rewrite Hload in Hok |- *.
  destruct (existsb has_NaT _); [discriminate Hok|].
  cbn [snd raw_sensor_data].
  eexists. split; [reflexivity|]. split; [now rewrite !length_map|].
  intros k record tuple Hrec Htup.
  rewrite map_map in Htup.
  rewrite (map_nth_error _ _ _ Hrec) in Htup. injection Htup as <-.
  destruct (positions_spec _ _ _ Hidx) as [Hlen Hpos].
  split; [rewrite length_map; exact Hlen|].
  intros j c i Hj Hi. destruct (Hpos j c Hj) as (i' & Hi' & Hidx').
  rewrite Hi in Hidx'. injection Hidx' as <-.
  rewrite (map_nth_error _ _ _ Hi'). f_equal.
  rewrite Forall_forall in Hwf.
  pose proof (Hwf record (nth_error_In _ _ Hrec)) as Hlenr.
  pose proof (index_of_some _ _ _ Hts) as Hts'.
  assert (Hits : (i_ts < List.length record)%nat).
  { rewrite Hlenr. apply nth_error_Some. rewrite Hts'. discriminate. }
  rewrite (nth_update_nth _ _ _ _ _ Hits).
  destruct (String.eqb_spec c "timestamp") as [->|Hne].
  - rewrite Hts in Hi. injection Hi as <-. rewrite Nat.eqb_refl. reflexivity.
  - destruct (Nat.eqb_spec i i_ts) as [->|_]; [|reflexivity].
    exfalso. apply Hne. pose proof (index_of_some _ _ _ Hi) as Hc.
    rewrite Hts' in Hc. injection Hc as <-. reflexivity.
Qed.

End Loader.

(** The two files of the store.  The record of [full.csv] has a timestamp
    that is not a date: the insert is rolled back and the table is as it
    was.  The record of [dated.csv] is appended after the row that was
    there, its columns in the order of the table. *)
Lemma full_csv_is_rejected :
  load_csv_to_raw Files.parse "full.csv" Files.disk
  = (Raise DataError,
     mkWorld (files Files.disk) (raw_sensor_data Files.disk) []
       [ InsertRaw
           [ [ Text "7"; Text "falling"; Datetime None;
               Text "1.1"; Text "1.2"; Text "1.3";
               Text "0.1"; Text "0.2"; Text "0.3" ] ];
         Rollback ]).
Proof. reflexivity. Qed.

Lemma dated_csv_is_loaded :
  load_csv_to_raw Files.parse "dated.csv" Files.disk
  = (Ok tt,
     mkWorld (files Files.disk)
       (raw_sensor_data Files.disk
        ++ [ [ Text "7"; Text "falling"; Datetime (Some 1577836800000000);
               Text "1.1"; Text "1.2"; Text "1.3";
               Text "0.1"; Text "0.2"; Text "0.3" ] ])
       [ OK_inserted 1 "dated.csv" ]
       [ InsertRaw
           [ [ Text "7"; Text "falling"; Datetime (Some 1577836800000000);
               Text "1.1"; Text "1.2"; Text "1.3";
               Text "0.1"; Text "0.2"; Text "0.3" ] ];
         Commit ]).
Proof. reflexivity. Qed.


Lemma inserted_tuples_follow_required_columns_witness :
  exists tuples,
    raw_sensor_data
      (snd (load_csv_to_raw Files.parse "dated.csv" Files.disk))
    = raw_sensor_data Files.disk ++ tuples
    /\ List.length tuples = List.length (csv_rows Files.dated_csv)
    /\ forall k record tuple,
         nth_error (csv_rows Files.dated_csv) k = Some record ->
         nth_error tuples k = Some tuple ->
         List.length tuple = 9%nat
         /\ forall j c i,
              nth_error REQUIRED_COLS j = Some c ->
              index_of c (csv_columns Files.dated_csv) = Some i ->
              nth_error tuple j
              = Some (if String.eqb c "timestamp"
                      then to_datetime Files.parse
                             (nth i record (Text ""))
                      else nth i record (Text "")).
Proof.
  apply (inserted_tuples_follow_required_columns Files.parse
           "dated.csv" Files.disk Files.dated_csv).
  - reflexivity.
  - reflexivity.
  - repeat constructor.
Defined.

End LoaderMore.
